(** * aws-auto-refresh: credential cache lifecycle and refresh engine

    A shallow embedding of the JavaScript sources

    - [src/config.js]          (constants, configuration, message helpers),
    - [src/cache-manager.js]   (cache file resolution, read, write, expiry),
    - [src/token-refresher.js] (OIDC exchange, classification, retry),
    - [src/index.js]           (the scheduler cycle [refreshTokenIfNeeded]),

    together with the properties the specification states about them.

    Conventions of the embedding.

    - JavaScript values that come from JSON are terms of [json]; a property
      that is absent reads as [None] (JavaScript [undefined]).  Numbers are
      integers ([Z]): every number the modelled code computes with is a count
      of seconds or milliseconds.  The one place where the code turns a value
      that need not be a number into a number ([expiresIn * 1000]) follows the
      conversion of the language; a string may then read as a fraction, which
      is kept as a decimal ([Decimal]).  Arithmetic is exact.
    - Strings are [string] (byte strings, UTF-8).
    - Module-level variables, the file system, the clock, the remote endpoint
      and the emitted log lines and notifications live in one record [World];
      asynchronous functions are run to completion one after the other, so an
      [async] function is a state-and-exception computation [M A].
    - A file holds either a JSON document (kept as the [json] it parses to:
      [JSON.parse (JSON.stringify v) = v]) or text that [JSON.parse] rejects.
    - [Date] parsing and printing, the reading of a string as a number and
      SHA-1 are platform functions: they are parameters of the development
      ([Platform]).
    - Time passes while the program sleeps and while it waits for the reply
      to a request; the endpoint is scripted by the reply it gives to the
      n-th request and the time that request takes. *)

From Stdlib Require Import String Ascii List ZArith Lia Bool.
Import ListNotations.

Set Warnings "-register-all".

Local Open Scope string_scope.
Local Open Scope Z_scope.

(* ================================================================== *)
(** ** Strings as the code uses them *)
(* ================================================================== *)

Module Str.

(** [s.startsWith(p)] *)
Fixpoint startsWith (s p : string) {struct p} : bool :=
  match p, s with
  | EmptyString, _ => true
  | String _ _, EmptyString => false
  | String a p', String b s' => if Ascii.eqb a b then startsWith s' p' else false
  end.

(** [s.includes(p)] *)
Fixpoint includes (s p : string) : bool :=
  if startsWith s p then true
  else match s with
       | EmptyString => false
       | String _ s' => includes s' p
       end.

Fixpoint rev_onto (s acc : string) : string :=
  match s with
  | EmptyString => acc
  | String c s' => rev_onto s' (String c acc)
  end.

Definition rev (s : string) : string := rev_onto s EmptyString.

(** [s.endsWith(p)] *)
Definition endsWith (s p : string) : bool := startsWith (rev s) (rev p).

Definition lower_ascii (c : ascii) : ascii :=
  let n := nat_of_ascii c in
  if andb (Nat.leb 65 n) (Nat.leb n 90) then ascii_of_nat (n + 32) else c.

(** [s.toLowerCase()] on the ASCII range *)
Fixpoint toLowerCase (s : string) : string :=
  match s with
  | EmptyString => EmptyString
  | String c s' => String (lower_ascii c) (toLowerCase s')
  end.

(** [parts.join(sep)] *)
Fixpoint join (sep : string) (parts : list string) : string :=
  match parts with
  | [] => EmptyString
  | [x] => x
  | x :: rest => x ++ sep ++ join sep rest
  end.

Definition digit (n : nat) : ascii := ascii_of_nat (48 + n).

Fixpoint of_pos_fuel (fuel : nat) (n : nat) (acc : string) : string :=
  match fuel with
  | O => acc
  | S fuel' =>
      let acc' := String (digit (Nat.modulo n 10)) acc in
      if Nat.ltb n 10 then acc' else of_pos_fuel fuel' (Nat.div n 10) acc'
  end.

(** Decimal rendering of a natural number, as [String(n)] gives it. *)
Definition of_nat (n : nat) : string := of_pos_fuel (S n) n EmptyString.

(** Decimal rendering of an integer, as a template literal gives it. *)
Definition of_Z (z : Z) : string :=
  if z <? 0 then "-" ++ of_nat (Z.to_nat (- z)) else of_nat (Z.to_nat z).

Definition nl : string := String (ascii_of_nat 10) EmptyString.
Definition dquote : string := String (ascii_of_nat 34) EmptyString.
Definition backslash : string := String (ascii_of_nat 92) EmptyString.

(** The characters U+26A0 U+FE0F (the warning sign, in emoji presentation),
    in UTF-8. *)
Definition warningSign : string :=
  String (ascii_of_nat 226) (String (ascii_of_nat 154) (String (ascii_of_nat 160)
  (String (ascii_of_nat 239) (String (ascii_of_nat 184) (String (ascii_of_nat 143)
  EmptyString))))).

End Str.

(* ================================================================== *)
(** ** JSON values and JavaScript objects *)
(* ================================================================== *)

Inductive json : Type :=
| JNull
| JBool (b : bool)
| JNum (n : Z)
| JStr (s : string)
| JArr (items : list json)
| JObj (fields : list (string * json)).

(** A JavaScript value read from a property: [None] is [undefined]. *)
Definition jsval := option json.

(** Truthiness ([!!v]). *)
Definition truthy (v : jsval) : bool :=
  match v with
  | None => false
  | Some JNull => false
  | Some (JBool b) => b
  | Some (JNum n) => negb (n =? 0)
  | Some (JStr s) => negb (String.eqb s EmptyString)
  | Some (JArr _) => true
  | Some (JObj _) => true
  end.

(** [typeof v === 'string'] *)
Definition is_string (v : jsval) : bool :=
  match v with Some (JStr _) => true | _ => false end.

(** [typeof v === 'object'] (arrays and [null] included, as in JavaScript). *)
Definition typeof_object (v : jsval) : bool :=
  match v with
  | Some JNull | Some (JArr _) | Some (JObj _) => true
  | _ => false
  end.

Module Obj.

(** Own-property lookup in a property list. *)
Fixpoint lookup (k : string) (fs : list (string * json)) : jsval :=
  match fs with
  | [] => None
  | (k', v) :: rest => if String.eqb k k' then Some v else lookup k rest
  end.

(** [k in o] *)
Definition has (k : string) (fs : list (string * json)) : bool :=
  match lookup k fs with Some _ => true | None => false end.

(** [o[k] = v]: an existing key keeps its place, a new key goes last. *)
Fixpoint set (k : string) (v : json) (fs : list (string * json))
  : list (string * json) :=
  match fs with
  | [] => [(k, v)]
  | (k', v') :: rest =>
      if String.eqb k k' then (k, v) :: rest else (k', v') :: set k v rest
  end.

Fixpoint remove (k : string) (fs : list (string * json))
  : list (string * json) :=
  match fs with
  | [] => []
  | (k', v') :: rest =>
      if String.eqb k k' then remove k rest else (k', v') :: remove k rest
  end.

(** A property written with a value that may be [undefined], as the object
    then goes through [JSON.stringify]: an [undefined] property is left out
    of the text. *)
Definition set_js (k : string) (v : jsval) (fs : list (string * json))
  : list (string * json) :=
  match v with
  | Some j => set k j fs
  | None => remove k fs
  end.

Fixpoint indexed (i : nat) (l : list json) : list (string * json) :=
  match l with
  | [] => []
  | x :: rest => (Str.of_nat i, x) :: indexed (S i) rest
  end.

Fixpoint chars (i : nat) (s : string) : list (string * json) :=
  match s with
  | EmptyString => []
  | String c s' =>
      (Str.of_nat i, JStr (String c EmptyString)) :: chars (S i) s'
  end.

(** The own enumerable properties a spread [{...v}] copies. *)
Definition spread (v : jsval) : list (string * json) :=
  match v with
  | Some (JObj fs) => fs
  | Some (JArr l) => indexed 0 l
  | Some (JStr s) => chars 0 s
  | _ => []
  end.

End Obj.

(** Property read [v.k] on a value that is not [null] or [undefined]. *)
Definition prop (v : json) (k : string) : jsval :=
  match v with
  | JObj fs => Obj.lookup k fs
  | _ => None
  end.

(* ------------------------------------------------------------------ *)
(** *** [JSON.stringify] (compact form) *)

Module Json.

Definition hex_digit (n : nat) : ascii :=
  if Nat.ltb n 10 then ascii_of_nat (48 + n) else ascii_of_nat (87 + n).

Definition escape_char (c : ascii) : string :=
  let n := nat_of_ascii c in
  if Nat.eqb n 34 then Str.backslash ++ Str.dquote
  else if Nat.eqb n 92 then Str.backslash ++ Str.backslash
  else if Nat.eqb n 8 then Str.backslash ++ "b"
  else if Nat.eqb n 9 then Str.backslash ++ "t"
  else if Nat.eqb n 10 then Str.backslash ++ "n"
  else if Nat.eqb n 12 then Str.backslash ++ "f"
  else if Nat.eqb n 13 then Str.backslash ++ "r"
  else if Nat.ltb n 32 then
    Str.backslash ++ "u00"
      ++ String (hex_digit (Nat.div n 16))
           (String (hex_digit (Nat.modulo n 16)) EmptyString)
  else String c EmptyString.

Fixpoint escape (s : string) : string :=
  match s with
  | EmptyString => EmptyString
  | String c s' => escape_char c ++ escape s'
  end.

Definition quote (s : string) : string := Str.dquote ++ escape s ++ Str.dquote.

Fixpoint stringify (v : json) : string :=
  match v with
  | JNull => "null"
  | JBool true => "true"
  | JBool false => "false"
  | JNum n => Str.of_Z n
  | JStr s => quote s
  | JArr items =>
      "[" ++ Str.join "," (List.map stringify items) ++ "]"
  | JObj fields =>
      "{" ++ Str.join ","
               (List.map (fun kv => quote (fst kv) ++ ":" ++ stringify (snd kv))
                         fields)
          ++ "}"
  end.

End Json.

(* ------------------------------------------------------------------ *)
(** *** Conversions of the language *)

Fixpoint all_some {A} (l : list (option A)) : option (list A) :=
  match l with
  | [] => Some []
  | Some a :: rest =>
      match all_some rest with
      | Some more => Some (a :: more)
      | None => None
      end
  | None :: _ => None
  end.

(** [String(v)] for a value that [JSON.parse] built, which is also the
    primitive value the language takes for an array or an object in
    arithmetic.  A number prints as its decimal digits (so does the language
    for an integer below 10^21 in size).  An array is its elements joined by
    commas, [null] elements giving the empty string.  An object is
    [[object Object]], unless it has a property [toString] of its own: that
    property is not a function, so the conversion finds no primitive value
    and throws a [TypeError] ([None]). *)
Fixpoint ToString (v : json) : option string :=
  match v with
  | JNull => Some "null"
  | JBool true => Some "true"
  | JBool false => Some "false"
  | JNum n => Some (Str.of_Z n)
  | JStr s => Some s
  | JArr items =>
      option_map (Str.join ",")
        (all_some (List.map (fun x => match x with
                                      | JNull => Some EmptyString
                                      | _ => ToString x
                                      end) items))
  | JObj fields =>
      if Obj.has "toString" fields then None else Some "[object Object]"
  end.

(** A finite number as a decimal, [mantissa * 10 ^ exponent]: what a string
    can read as. *)
Record Decimal : Type := {
  mantissa : Z;
  exponent : Z
}.

Definition integer (n : Z) : Decimal := {| mantissa := n; exponent := 0 |}.

(** [x * 1000] *)
Definition times_1000 (x : Decimal) : Decimal :=
  {| mantissa := mantissa x; exponent := exponent x + 3 |}.

(** The time value of [new Date(now + y)]: the sum, cut to an integer
    towards zero. *)
Definition Date_plus (now : Z) (y : Decimal) : Z :=
  if 0 <=? exponent y then now + mantissa y * 10 ^ exponent y
  else Z.quot (now * 10 ^ (- exponent y) + mantissa y) (10 ^ (- exponent y)).

(* ================================================================== *)
(** ** Configuration ([src/config.js]) *)
(* ================================================================== *)

Module CONSTANTS.
Definition EXPIRY_WARNING_THRESHOLD_MINUTES : Z := 10.
Definition MAX_CONSECUTIVE_FAILURES : Z := 5.
Definition GRACEFUL_SHUTDOWN_DELAY_MS : Z := 1000.
Definition OIDC_REQUEST_TIMEOUT_MS : Z := 30000.
Definition NOTIFICATION_TIMEOUT_SECONDS : Z := 10.
End CONSTANTS.

(** The [config] object.  It is built once, when the module is loaded, from
    the environment; the intervals are already in milliseconds. *)
Record Config : Type := {
  awsSsoProfile : string;
  awsSsoSession : string;
  awsSsoCacheDir : string;
  awsRegion : string;
  oidcEndpoint : option string;
  refreshCheckInterval : Z;
  refreshThreshold : Z;
  maxRetryAttempts : Z;
  retryBackoffSeconds : Z;
  logLevel : string
}.

(** Platform functions the code calls and does not define. *)
Record Platform : Type := {
  (** [new Date(s).getTime()]; [None] is [NaN] (an invalid date). *)
  Date_parse : string -> option Z;
  (** [new Date(ms).toISOString()]; [None] is the [RangeError] of a time
      value out of range. *)
  Date_toISOString : Z -> option string;
  (** [Number(s)] for a string [s]; [None] is a value that is not finite
      ([NaN], [Infinity]). *)
  Number_ofString : string -> option Decimal;
  (** [crypto.createHash('sha1').update(s).digest('hex')] *)
  sha1_hex : string -> string;
  (** [os.homedir()] *)
  homedir : string;
  (** the number [write-file-atomic] appends to the name of its temporary
      file (a hash of process id, thread id and invocation count) *)
  tmp_tag : nat
}.

(* ================================================================== *)
(** ** Exceptions, events, files, and the world *)
(* ================================================================== *)

(** The [response] an axios error carries. *)
Record HttpResponse : Type := {
  status : Z;
  data : jsval
}.

(** An exception object: the properties the code inspects. *)
Record JsError : Type := {
  err_name : string;
  err_message : string;
  err_code : option string;
  err_response : option HttpResponse
}.

(** [new Error(msg)] *)
Definition Error_ (msg : string) : JsError :=
  {| err_name := "Error"; err_message := msg;
     err_code := None; err_response := None |}.

Definition TypeError_ (msg : string) : JsError :=
  {| err_name := "TypeError"; err_message := msg;
     err_code := None; err_response := None |}.

Definition RangeError_ (msg : string) : JsError :=
  {| err_name := "RangeError"; err_message := msg;
     err_code := None; err_response := None |}.

Definition SyntaxError_ (msg : string) : JsError :=
  {| err_name := "SyntaxError"; err_message := msg;
     err_code := None; err_response := None |}.

(** A file-system error with its [code]. *)
Definition FsError (code msg : string) : JsError :=
  {| err_name := "Error"; err_message := msg;
     err_code := Some code; err_response := None |}.

(** What a [throw] statement can throw here: an exception object, or the
    value [undefined]. *)
Inductive Thrown : Type :=
| ThrowErr (e : JsError)
| ThrowUndefined.

(** The outcome of [axios.post]. *)
Inductive AxiosReply : Type :=
| Resolved (response_data : jsval)
| Rejected (e : JsError).

Inductive LogMethod : Type :=
| LDebug | LInfo | LError | LStartup | LSuccess | LFailure | LWarning
| LRefresh | LToken.

Inductive Notification : Type :=
| NotifySuccess (expiresAt : string) (expiresIn : jsval)
| NotifyError (error : string)
| NotifyExpiringSoon (minutesRemaining : Z)
| NotifyReloginRequired
| NotifyStartup
| NotifyShutdown.

(** Where [sleep] is called from (the call itself only takes the delay). *)
Inductive SleepSite : Type := RateLimit | Backoff.

(** The credentials [refreshToken] sends. *)
Record Credentials : Type := {
  clientId : jsval;
  clientSecret : jsval;
  cred_refreshToken : jsval
}.

(** What the program does to the outside, in the order it does it. *)
Inductive Event : Type :=
| EvLog (method : LogMethod) (message : string)
| EvNotify (n : Notification)
| EvSleep (site : SleepSite) (ms : Z)
| EvPost (endpoint : string) (body : Credentials) (timeout : Z).

(** The text of a file, up to what [JSON.parse] makes of it. *)
Inductive FileText : Type :=
| JsonText (v : json)         (** text [JSON.parse] maps to [v] *)
| Malformed (text : string).  (** text [JSON.parse] rejects *)

Record File : Type := {
  text : FileText;
  mode : Z
}.

(** A directory: its entries, in the order [readdir] lists them. *)
Definition Dir := list (string * File).

(** The parsed [~/.aws/config]: sections, each a list of key-value pairs. *)
Definition AwsConfig := list (string * list (string * string)).

Record World : Type := {
  (** [Date.now()] *)
  clock : Z;
  events : list Event;
  (** the OIDC endpoint: the reply to the n-th request, and the number of
      requests made so far *)
  oidc : nat -> AxiosReply;
  requests : nat;
  (** the time the n-th request takes, from [axios.post] to its reply, in
      milliseconds *)
  latency : nat -> Z;
  (** [~/.aws/config]: modification time and sections; [None] if missing *)
  awsConfigFile : option (Z * AwsConfig);
  (** the SSO cache directory; [None] if it does not exist *)
  cacheDir : option Dir;
  (** module state of [cache-manager.js] *)
  cachedAwsConfig : option AwsConfig;
  configFileMtime : option Z;
  (** module state of [token-refresher.js] *)
  abortController : bool;
  lastRequestTime : Z;
  (** module state of [index.js] *)
  monitorInterval : bool;
  isShuttingDown : bool;
  consecutiveFailures : Z
}.

Definition with_clock (t : Z) (w : World) : World :=
  {| clock := t; events := events w; oidc := oidc w; requests := requests w;
     latency := latency w;
     awsConfigFile := awsConfigFile w; cacheDir := cacheDir w;
     cachedAwsConfig := cachedAwsConfig w;
     configFileMtime := configFileMtime w;
     abortController := abortController w;
     lastRequestTime := lastRequestTime w;
     monitorInterval := monitorInterval w; isShuttingDown := isShuttingDown w;
     consecutiveFailures := consecutiveFailures w |}.

Definition with_events (l : list Event) (w : World) : World :=
  {| clock := clock w; events := l; oidc := oidc w; requests := requests w;
     latency := latency w;
     awsConfigFile := awsConfigFile w; cacheDir := cacheDir w;
     cachedAwsConfig := cachedAwsConfig w;
     configFileMtime := configFileMtime w;
     abortController := abortController w;
     lastRequestTime := lastRequestTime w;
     monitorInterval := monitorInterval w; isShuttingDown := isShuttingDown w;
     consecutiveFailures := consecutiveFailures w |}.

Definition with_requests (n : nat) (w : World) : World :=
  {| clock := clock w; events := events w; oidc := oidc w; requests := n;
     latency := latency w;
     awsConfigFile := awsConfigFile w; cacheDir := cacheDir w;
     cachedAwsConfig := cachedAwsConfig w;
     configFileMtime := configFileMtime w;
     abortController := abortController w;
     lastRequestTime := lastRequestTime w;
     monitorInterval := monitorInterval w; isShuttingDown := isShuttingDown w;
     consecutiveFailures := consecutiveFailures w |}.

Definition with_cacheDir (d : option Dir) (w : World) : World :=
  {| clock := clock w; events := events w; oidc := oidc w;
     requests := requests w;
     latency := latency w;
     awsConfigFile := awsConfigFile w; cacheDir := d;
     cachedAwsConfig := cachedAwsConfig w;
     configFileMtime := configFileMtime w;
     abortController := abortController w;
     lastRequestTime := lastRequestTime w;
     monitorInterval := monitorInterval w; isShuttingDown := isShuttingDown w;
     consecutiveFailures := consecutiveFailures w |}.

Definition with_configCache (c : option AwsConfig) (m : option Z) (w : World)
  : World :=
  {| clock := clock w; events := events w; oidc := oidc w;
     requests := requests w;
     latency := latency w;
     awsConfigFile := awsConfigFile w; cacheDir := cacheDir w;
     cachedAwsConfig := c;
     configFileMtime := m;
     abortController := abortController w;
     lastRequestTime := lastRequestTime w;
     monitorInterval := monitorInterval w; isShuttingDown := isShuttingDown w;
     consecutiveFailures := consecutiveFailures w |}.

Definition with_abortController (b : bool) (w : World) : World :=
  {| clock := clock w; events := events w; oidc := oidc w;
     requests := requests w;
     latency := latency w;
     awsConfigFile := awsConfigFile w; cacheDir := cacheDir w;
     cachedAwsConfig := cachedAwsConfig w;
     configFileMtime := configFileMtime w;
     abortController := b;
     lastRequestTime := lastRequestTime w;
     monitorInterval := monitorInterval w; isShuttingDown := isShuttingDown w;
     consecutiveFailures := consecutiveFailures w |}.

Definition with_lastRequestTime (t : Z) (w : World) : World :=
  {| clock := clock w; events := events w; oidc := oidc w;
     requests := requests w;
     latency := latency w;
     awsConfigFile := awsConfigFile w; cacheDir := cacheDir w;
     cachedAwsConfig := cachedAwsConfig w;
     configFileMtime := configFileMtime w;
     abortController := abortController w;
     lastRequestTime := t;
     monitorInterval := monitorInterval w; isShuttingDown := isShuttingDown w;
     consecutiveFailures := consecutiveFailures w |}.

Definition with_consecutiveFailures (n : Z) (w : World) : World :=
  {| clock := clock w; events := events w; oidc := oidc w;
     requests := requests w;
     latency := latency w;
     awsConfigFile := awsConfigFile w; cacheDir := cacheDir w;
     cachedAwsConfig := cachedAwsConfig w;
     configFileMtime := configFileMtime w;
     abortController := abortController w;
     lastRequestTime := lastRequestTime w;
     monitorInterval := monitorInterval w; isShuttingDown := isShuttingDown w;
     consecutiveFailures := n |}.

Definition with_monitorInterval (b : bool) (w : World) : World :=
  {| clock := clock w; events := events w; oidc := oidc w;
     requests := requests w;
     latency := latency w;
     awsConfigFile := awsConfigFile w; cacheDir := cacheDir w;
     cachedAwsConfig := cachedAwsConfig w;
     configFileMtime := configFileMtime w;
     abortController := abortController w;
     lastRequestTime := lastRequestTime w;
     monitorInterval := b; isShuttingDown := isShuttingDown w;
     consecutiveFailures := consecutiveFailures w |}.

Definition with_isShuttingDown (b : bool) (w : World) : World :=
  {| clock := clock w; events := events w; oidc := oidc w;
     requests := requests w;
     latency := latency w;
     awsConfigFile := awsConfigFile w; cacheDir := cacheDir w;
     cachedAwsConfig := cachedAwsConfig w;
     configFileMtime := configFileMtime w;
     abortController := abortController w;
     lastRequestTime := lastRequestTime w;
     monitorInterval := monitorInterval w; isShuttingDown := b;
     consecutiveFailures := consecutiveFailures w |}.

(* ------------------------------------------------------------------ *)
(** *** The computation monad: state and exceptions *)

Inductive Outcome (A : Type) : Type :=
| Ok (a : A)
| Throw (t : Thrown).
Arguments Ok {A} a.
Arguments Throw {A} t.

Definition M (A : Type) : Type := World -> Outcome A * World.

Definition ret {A} (a : A) : M A := fun w => (Ok a, w).

Definition bind {A B} (m : M A) (k : A -> M B) : M B :=
  fun w => match m w with
           | (Ok a, w') => k a w'
           | (Throw t, w') => (Throw t, w')
           end.

Definition throw {A} (t : Thrown) : M A := fun w => (Throw t, w).

Definition throwErr {A} (e : JsError) : M A := throw (ThrowErr e).

(** [try { m } catch (t) { h t }] *)
Definition try_catch {A} (m : M A) (h : Thrown -> M A) : M A :=
  fun w => match m w with
           | (Ok a, w') => (Ok a, w')
           | (Throw t, w') => h t w'
           end.

Definition get {A} (f : World -> A) : M A := fun w => (Ok (f w), w).

Definition modify (f : World -> World) : M unit := fun w => (Ok tt, f w).

Declare Scope js_scope.
Delimit Scope js_scope with js.
Notation "x <- m ;; k" := (bind m (fun x => k))
  (at level 61, m at next level, right associativity) : js_scope.
Notation "m ;;; k" := (bind m (fun _ => k))
  (at level 61, right associativity) : js_scope.
Local Open Scope js_scope.

Definition emit (e : Event) : M unit :=
  modify (fun w => with_events (events w ++ [e]) w).

Definition log (m : LogMethod) (msg : string) : M unit := emit (EvLog m msg).

Definition notify (n : Notification) : M unit := emit (EvNotify n).

(** [e.message], for whatever was thrown: reading a property of [undefined]
    is a [TypeError]. *)
Definition message_of (t : Thrown) : M string :=
  match t with
  | ThrowErr e => ret (err_message e)
  | ThrowUndefined =>
      throwErr (TypeError_ "Cannot read properties of undefined (reading 'message')")
  end.

Definition code_of (t : Thrown) : M (option string) :=
  match t with
  | ThrowErr e => ret (err_code e)
  | ThrowUndefined =>
      throwErr (TypeError_ "Cannot read properties of undefined (reading 'code')")
  end.

(* ------------------------------------------------------------------ *)
(** *** File-system primitives on the cache directory

    A cache path is modelled by the name of the file inside the cache
    directory; [path_join] gives the text of the full path for messages. *)

Definition path_join (dir name : string) : string := dir ++ "/" ++ name.

Fixpoint dir_lookup (name : string) (d : Dir) : option File :=
  match d with
  | [] => None
  | (n, f) :: rest => if String.eqb name n then Some f else dir_lookup name rest
  end.

(** Replace the entry [name] where it stands, or add it at the end. *)
Fixpoint dir_set (name : string) (f : File) (d : Dir) : Dir :=
  match d with
  | [] => [(name, f)]
  | (n, g) :: rest =>
      if String.eqb name n then (n, f) :: rest else (n, g) :: dir_set name f rest
  end.

Fixpoint dir_remove (name : string) (d : Dir) : Dir :=
  match d with
  | [] => []
  | (n, g) :: rest =>
      if String.eqb name n then dir_remove name rest
      else (n, g) :: dir_remove name rest
  end.

Definition ENOENT (what path : string) : JsError :=
  FsError "ENOENT" ("ENOENT: no such file or directory, " ++ what ++ " '" ++ path ++ "'").

(** [JSON.parse(text)] *)
Definition JSON_parse (t : FileText) : M json :=
  match t with
  | JsonText v => ret v
  | Malformed _ => throwErr (SyntaxError_ "Unexpected token in JSON")
  end.

(** [v[k]] where [v] may be [null]. *)
Definition prop_of (v : json) (k : string) : M jsval :=
  match v with
  | JNull =>
      throwErr (TypeError_ ("Cannot read properties of null (reading '" ++ k ++ "')"))
  | _ => ret (prop v k)
  end.

(* ================================================================== *)
(** ** The program *)
(* ================================================================== *)

Section Program.

Variable pf : Platform.
Variable cfg : Config.

(* ------------------------------------------------------------------ *)
(** *** [src/config.js] *)

Definition getOidcEndpoint : string :=
  let byRegion := "https://oidc." ++ awsRegion cfg ++ ".amazonaws.com/token" in
  match oidcEndpoint cfg with
  | Some e => if String.eqb e EmptyString then byRegion else e
  | None => byRegion
  end.

Definition getLoginCommand : string :=
  "aws sso login --profile " ++ awsSsoProfile cfg.

Definition getReloginErrorMessage (message : string) : string :=
  message ++ Str.nl ++ "Please run: " ++ getLoginCommand.

Definition name_char_ok (c : ascii) : bool :=
  let n := nat_of_ascii c in
  (Nat.leb 97 n && Nat.leb n 122) || (Nat.leb 65 n && Nat.leb n 90)
  || (Nat.leb 48 n && Nat.leb n 57) || Nat.eqb n 95 || Nat.eqb n 45.

Fixpoint all_chars (p : ascii -> bool) (s : string) : bool :=
  match s with
  | EmptyString => true
  | String c s' => p c && all_chars p s'
  end.

(** The test [/^[a-zA-Z0-9_-]+$/] and the length limit shared by
    [validateProfileName] and [validateSessionName]: the list of complaints. *)
Definition validateName (var what : string) (name : string) : list string :=
  if negb (all_chars name_char_ok name) then
    ["Invalid " ++ var ++ " format: " ++ Str.dquote ++ name ++ Str.dquote ++ ". "
       ++ what ++ " names must contain only letters, numbers, hyphens, and underscores. "
       ++ "Special characters and spaces are not allowed."]
  else if Nat.ltb 128 (String.length name) then
    [var ++ " is too long (" ++ Str.of_nat (String.length name) ++ " characters). "
       ++ what ++ " names must be 128 characters or less."]
  else [].

(** The [errors] array [validateConfig] collects; it throws when the array is
    not empty. *)
Definition validateConfig_errors : list string :=
  (if String.eqb (awsSsoProfile cfg) EmptyString
   then ["AWS_SSO_PROFILE is required"]
   else validateName "AWS_SSO_PROFILE" "Profile" (awsSsoProfile cfg))
  ++ (if String.eqb (awsSsoSession cfg) EmptyString
      then ["AWS_SSO_SESSION is required"]
      else validateName "AWS_SSO_SESSION" "Session" (awsSsoSession cfg))
  ++ (if String.eqb (awsRegion cfg) EmptyString
      then ["AWS_REGION is required"] else [])
  ++ (if existsb (String.eqb (logLevel cfg)) ["debug"; "info"; "warn"; "error"]
      then [] else ["LOG_LEVEL must be one of: debug, info, warn, error"])
  ++ (if refreshCheckInterval cfg <=? 0
      then ["REFRESH_CHECK_INTERVAL must be greater than 0"] else [])
  ++ (if refreshThreshold cfg <=? 0
      then ["REFRESH_THRESHOLD must be greater than 0"] else []).

Definition validateConfig : M unit :=
  match validateConfig_errors with
  | [] => ret tt
  | errors =>
      throwErr (Error_ ("Configuration validation failed:" ++ Str.nl ++ "  - "
                          ++ Str.join (Str.nl ++ "  - ") errors ++ Str.nl ++ Str.nl
                          ++ "Please check your .env file or environment variables."))
  end.

(* ------------------------------------------------------------------ *)
(** *** [src/cache-manager.js] *)

Definition validateAndParseDate (dateString : jsval) : M Z :=
  match dateString with
  | Some (JStr s) =>
      if String.eqb s EmptyString then
        throwErr (Error_ "Date string is required and must be a string")
      else
        match Date_parse pf s with
        | None =>
            throwErr (Error_ ("Invalid date format: " ++ Str.dquote ++ s ++ Str.dquote
                                ++ ". Expected ISO 8601 format (e.g., "
                                ++ Str.dquote ++ "2026-01-24T14:30:00Z" ++ Str.dquote ++ ")."))
        | Some t => ret t
        end
  | _ => throwErr (Error_ "Date string is required and must be a string")
  end.

Definition configPath : string :=
  path_join (path_join (homedir pf) ".aws") "config".

(** The file is kept by its sections, so the line-by-line parse is the
    identity here; the cache keyed on the modification time is as in the
    source. *)
Definition readAwsConfig : M AwsConfig :=
  file <- get awsConfigFile ;;
  match file with
  | None => throwErr (Error_ ("AWS config file not found at " ++ configPath))
  | Some (currentMtime, sections) =>
      cached <- get cachedAwsConfig ;;
      mtime <- get configFileMtime ;;
      match cached, mtime with
      | Some c, Some m =>
          if m =? currentMtime then
            log LDebug "Using cached AWS config" ;;; ret c
          else
            log LDebug "Parsing AWS config file" ;;;
            modify (with_configCache (Some sections) (Some currentMtime)) ;;;
            ret sections
      | _, _ =>
          log LDebug "Parsing AWS config file" ;;;
          modify (with_configCache (Some sections) (Some currentMtime)) ;;;
          ret sections
      end
  end.

Fixpoint assoc {A} (k : string) (l : list (string * A)) : option A :=
  match l with
  | [] => None
  | (k', v) :: rest => if String.eqb k k' then Some v else assoc k rest
  end.

Definition getSsoStartUrl : M string :=
  awsConfig <- readAwsConfig ;;
  let ssoSessionKey := "sso-session " ++ awsSsoSession cfg in
  match assoc ssoSessionKey awsConfig with
  | None =>
      throwErr (Error_ ("SSO session " ++ Str.dquote ++ awsSsoSession cfg ++ Str.dquote
                          ++ " not found in ~/.aws/config" ++ Str.nl
                          ++ "Available sections: "
                          ++ Str.join ", " (List.map fst awsConfig)))
  | Some section =>
      match assoc "sso_start_url" section with
      | Some startUrl =>
          if String.eqb startUrl EmptyString then
            throwErr (Error_ ("sso_start_url not found in [sso-session "
                                ++ awsSsoSession cfg ++ "]"))
          else
            log LDebug "Found SSO start URL" ;;; ret startUrl
      | None =>
          throwErr (Error_ ("sso_start_url not found in [sso-session "
                              ++ awsSsoSession cfg ++ "]"))
      end
  end.

(** [fsPromises.access(path)] *)
Definition fs_access (name : string) : M unit :=
  d <- get cacheDir ;;
  match d with
  | None => throwErr (ENOENT "access" (path_join (awsSsoCacheDir cfg) name))
  | Some entries =>
      match dir_lookup name entries with
      | Some _ => ret tt
      | None => throwErr (ENOENT "access" (path_join (awsSsoCacheDir cfg) name))
      end
  end.

(** [fsPromises.readFile(path, 'utf8')] *)
Definition fs_readFile (name : string) : M FileText :=
  d <- get cacheDir ;;
  match d with
  | None => throwErr (ENOENT "open" (path_join (awsSsoCacheDir cfg) name))
  | Some entries =>
      match dir_lookup name entries with
      | Some f => ret (text f)
      | None => throwErr (ENOENT "open" (path_join (awsSsoCacheDir cfg) name))
      end
  end.

(** [fsPromises.readdir(cacheDir)] *)
Definition fs_readdir : M (list string) :=
  d <- get cacheDir ;;
  match d with
  | None => throwErr (ENOENT "scandir" (awsSsoCacheDir cfg))
  | Some entries => ret (List.map fst entries)
  end.

(** [fsPromises.chmod(path, mode)] *)
Definition fs_chmod (name : string) (m : Z) : M unit :=
  d <- get cacheDir ;;
  match d with
  | None => throwErr (ENOENT "chmod" (path_join (awsSsoCacheDir cfg) name))
  | Some entries =>
      match dir_lookup name entries with
      | Some f =>
          modify (with_cacheDir
                    (Some (dir_set name {| text := text f; mode := m |} entries)))
      | None => throwErr (ENOENT "chmod" (path_join (awsSsoCacheDir cfg) name))
      end
  end.

(** [data.startUrl === startUrl] *)
Definition startUrl_matches (v : jsval) (startUrl : string) : bool :=
  match v with
  | Some (JStr s) => String.eqb s startUrl
  | _ => false
  end.

(** The loop over [jsonFiles] in [getCacheFilePath]: the first file whose
    [startUrl] matches, if any. *)
Fixpoint scanCacheFiles (startUrl : string) (jsonFiles : list string)
  : M (option string) :=
  match jsonFiles with
  | [] => ret None
  | filename :: rest =>
      r <- try_catch
             (content <- fs_readFile filename ;;
              data <- JSON_parse content ;;
              su <- prop_of data "startUrl" ;;
              if startUrl_matches su startUrl then
                log LDebug "Found cache file with matching startUrl" ;;;
                ret (Some filename)
              else ret None)
             (fun err =>
                _m <- message_of err ;;
                log LDebug "Skipping invalid cache file" ;;; ret None) ;;
      match r with
      | Some found => ret (Some found)
      | None => scanCacheFiles startUrl rest
      end
  end.

Definition getCacheFilePath : M string :=
  let cacheDirName := awsSsoCacheDir cfg in
  startUrl <- getSsoStartUrl ;;
  let computedFilename := sha1_hex pf startUrl ++ ".json" in
  let computedPath := path_join cacheDirName computedFilename in
  log LDebug "Computed cache file path" ;;;
  try_catch
    (fs_access computedFilename ;;; ret computedFilename)
    (fun _ =>
       log LDebug "Computed cache path not found, searching directory for matching startUrl" ;;;
       try_catch
         (files <- fs_readdir ;;
          let jsonFiles := List.filter (fun f => Str.endsWith f ".json") files in
          found <- scanCacheFiles startUrl jsonFiles ;;
          match found with
          | Some filePath => ret filePath
          | None =>
              throwErr (Error_ (getReloginErrorMessage
                                  ("Cache file not found: " ++ computedPath ++ Str.nl
                                     ++ "No cache file in " ++ cacheDirName
                                     ++ " matches startUrl: " ++ startUrl)))
          end)
         (fun err =>
            code <- code_of err ;;
            match code with
            | Some c =>
                if String.eqb c "ENOENT" then
                  throwErr (Error_ (getReloginErrorMessage
                                      ("Cache directory not found: " ++ cacheDirName ++ Str.nl
                                         ++ "Please ensure AWS CLI is installed and run: aws sso login --profile "
                                         ++ awsSsoProfile cfg)))
                else throw err
            | None => throw err
            end)).

(** The five fields [readTokenCache] requires. *)
Definition required : list string :=
  ["accessToken"; "refreshToken"; "clientId"; "clientSecret"; "expiresAt"].

(** [required.filter(field => !cacheData[field])] *)
Fixpoint missing_fields (cacheData : json) (fields : list string)
  : M (list string) :=
  match fields with
  | [] => ret []
  | field :: rest =>
      v <- prop_of cacheData field ;;
      more <- missing_fields cacheData rest ;;
      ret (if truthy v then more else field :: more)
  end.

(** The [catch] block of [readTokenCache]. *)
Definition readTokenCache_onError (error : Thrown) : M json :=
  code <- code_of error ;;
  match code with
  | Some c =>
      if String.eqb c "ENOENT" then
        cachePath <- getCacheFilePath ;;
        throwErr (Error_ (getReloginErrorMessage
                            ("Cache file not found: "
                               ++ path_join (awsSsoCacheDir cfg) cachePath)))
      else throw error
  | None => throw error
  end.

Definition readTokenCache : M json :=
  try_catch
    (cachePath <- getCacheFilePath ;;
     cacheContent <- fs_readFile cachePath ;;
     cacheData <- JSON_parse cacheContent ;;
     missing <- missing_fields cacheData required ;;
     match missing with
     | _ :: _ =>
         throwErr (Error_ (getReloginErrorMessage
                             ("Cache file missing required fields: "
                                ++ Str.join ", " missing)))
     | [] =>
         expiresAt <- prop_of cacheData "expiresAt" ;;
         try_catch
           (validateAndParseDate expiresAt ;;; ret tt)
           (fun dateError =>
              m <- message_of dateError ;;
              throwErr (Error_ (getReloginErrorMessage
                                  ("Cache file has invalid expiry date: " ++ m)))) ;;;
         log LToken "Token cache read successfully" ;;;
         ret cacheData
     end)
    readTokenCache_onError.

(** Modelled from the spec: [writeFileAtomic] of the package
    [write-file-atomic], which the repository imports and does not contain.
    The specification and the comment at the call say what it does: the
    content is fully written to a temporary file created with the given mode,
    and only then is the temporary file renamed over the target.  The steps
    are kept apart so that an interruption between two of them can be
    stated. *)
Inductive FsStep : Type :=
| StCreate (name : string) (m : Z)        (** open a new, empty file *)
| StWrite (name : string) (t : FileText)  (** write the whole content *)
| StRename (src dst : string).            (** rename [src] over [dst] *)

Definition tmpname (target : string) : string :=
  target ++ "." ++ Str.of_nat (tmp_tag pf).

Definition fs_step (st : FsStep) (d : Dir) : Dir :=
  match st with
  | StCreate name m =>
      dir_set name {| text := Malformed EmptyString; mode := m |} d
  | StWrite name t =>
      match dir_lookup name d with
      | Some f => dir_set name {| text := t; mode := mode f |} d
      | None => d
      end
  | StRename src dst =>
      match dir_lookup src d with
      | Some f => dir_set dst f (dir_remove src d)
      | None => d
      end
  end.

Definition writeFileAtomic_steps (target : string) (content : FileText) (m : Z)
  : list FsStep :=
  [StCreate (tmpname target) m;
   StWrite (tmpname target) content;
   StRename (tmpname target) target].

Definition fs_steps (steps : list FsStep) (d : Dir) : Dir :=
  List.fold_left (fun acc st => fs_step st acc) steps d.

Definition writeFileAtomic (target : string) (content : FileText) (m : Z)
  : M unit :=
  d <- get cacheDir ;;
  match d with
  | None => throwErr (ENOENT "open" (path_join (awsSsoCacheDir cfg) (tmpname target)))
  | Some entries =>
      modify (with_cacheDir
                (Some (fs_steps (writeFileAtomic_steps target content m) entries)))
  end.

(** The object literal of [writeTokenCache]:
    [{ ...currentCache, accessToken, expiresAt,
       ...(newTokens.refreshToken && { refreshToken }) }],
    as [JSON.stringify] then writes it. *)
Definition mergeTokens (currentCache : json)
    (accessToken expiresAt refreshToken : jsval) : json :=
  let base := Obj.spread (Some currentCache) in
  let withAccess := Obj.set_js "accessToken" accessToken base in
  let withExpiry := Obj.set_js "expiresAt" expiresAt withAccess in
  JObj (if truthy refreshToken
        then Obj.set_js "refreshToken" refreshToken withExpiry
        else withExpiry).

(** The [catch] block of [writeTokenCache]. *)
Definition writeTokenCache_onError (error : Thrown) : M bool :=
  _m <- message_of error ;;
  log LFailure "Failed to write token cache" ;;;
  throw error.

Definition writeTokenCache (newTokens : json) : M bool :=
  try_catch
    (cachePath <- getCacheFilePath ;;
     content <- fs_readFile cachePath ;;
     currentCache <- JSON_parse content ;;
     accessToken <- prop_of newTokens "accessToken" ;;
     expiresAt <- prop_of newTokens "expiresAt" ;;
     refreshToken <- prop_of newTokens "refreshToken" ;;
     let updatedCache := mergeTokens currentCache accessToken expiresAt refreshToken in
     writeFileAtomic cachePath (JsonText updatedCache) 384 ;;;
     fs_chmod cachePath 384 ;;;
     log LSuccess "Token cache updated successfully" ;;;
     ret true)
    writeTokenCache_onError.

Definition getTimeUntilExpiry (expiresAt : jsval) : M Z :=
  expiryTime <- validateAndParseDate expiresAt ;;
  now <- get clock ;;
  ret (expiryTime - now).

(** [Math.round(ms / 60000)]: halves round up. *)
Definition round_minutes (ms : Z) : Z := (2 * ms + 60000) / 120000.

Definition shouldRefresh (expiresAt : jsval) : M bool :=
  timeUntilExpiry <- getTimeUntilExpiry expiresAt ;;
  let shouldRefreshNow := timeUntilExpiry <=? refreshThreshold cfg in
  (if shouldRefreshNow then
     log LRefresh ("Token expires in " ++ Str.of_Z (round_minutes timeUntilExpiry)
                     ++ " minutes - refresh needed")
   else ret tt) ;;;
  ret shouldRefreshNow.

Definition formatTimeRemaining (expiresAt : jsval) : M string :=
  timeUntilExpiry <- getTimeUntilExpiry expiresAt ;;
  let minutes := timeUntilExpiry / 60000 in
  let hours := minutes / 60 in
  if 0 <? hours then
    let remainingMinutes := Z.rem minutes 60 in
    ret (Str.of_Z hours ++ "h " ++ Str.of_Z remainingMinutes ++ "m")
  else ret (Str.of_Z minutes ++ "m").

(** The object [getTokenStatus] returns; a property it does not set is
    [None]. *)
Record TokenStatus : Type := {
  st_expiresAt : jsval;
  st_timeUntilExpiry : option Z;
  st_expired : bool;
  st_needsRefresh : bool;
  st_formattedTimeRemaining : option string;
  st_error : option string
}.

Definition getTokenStatus : M TokenStatus :=
  try_catch
    (cache <- readTokenCache ;;
     expiresAt <- prop_of cache "expiresAt" ;;
     timeUntilExpiry <- getTimeUntilExpiry expiresAt ;;
     let expired := timeUntilExpiry <=? 0 in
     needsRefresh <- shouldRefresh expiresAt ;;
     formatted <- formatTimeRemaining expiresAt ;;
     ret {| st_expiresAt := expiresAt;
            st_timeUntilExpiry := Some timeUntilExpiry;
            st_expired := expired;
            st_needsRefresh := needsRefresh;
            st_formattedTimeRemaining := Some formatted;
            st_error := None |})
    (fun error =>
       m <- message_of error ;;
       ret {| st_expiresAt := None;
              st_timeUntilExpiry := None;
              st_expired := true;
              st_needsRefresh := true;
              st_formattedTimeRemaining := None;
              st_error := Some m |}).

(* ------------------------------------------------------------------ *)
(** *** [src/token-refresher.js] *)

Definition MIN_REQUEST_INTERVAL_MS : Z := 5000.

(** [sleep(ms)]: a timer; the clock has moved on by [ms] when it resolves. *)
Definition sleep (site : SleepSite) (ms : Z) : M unit :=
  emit (EvSleep site ms) ;;;
  modify (fun w => with_clock (clock w + Z.max 0 ms) w).

Definition sensitiveFields : list string :=
  ["accessToken"; "access_token"; "refreshToken"; "refresh_token"; "token";
   "clientSecret"; "client_secret"; "secret"; "password"; "apiKey"; "api_key";
   "authorization"].

Definition REDACTED : json := JStr "[REDACTED]".

(** The body of the [forEach]: redact one field if the object has it. *)
Definition redact (sanitized : list (string * json)) (field : string)
  : list (string * json) :=
  if Obj.has field sanitized then Obj.set field REDACTED sanitized
  else sanitized.

Definition sanitizeApiResponse (data : jsval) : jsval :=
  if negb (truthy data) || negb (typeof_object data) then data
  else Some (JObj (List.fold_left redact sensitiveFields (Obj.spread data))).

(** [JSON.stringify(v)] inside a template literal. *)
Definition stringify_js (v : jsval) : string :=
  match v with
  | None => "undefined"
  | Some j => Json.stringify j
  end.

(** The object [refreshToken] resolves to. *)
Record RefreshedTokens : Type := {
  tk_accessToken : jsval;
  tk_refreshToken : jsval;
  tk_expiresAt : string;
  tk_expiresIn : jsval
}.

(** The same object as a JavaScript value, for the callee that reads its
    properties. *)
Definition tokens_json (t : RefreshedTokens) : json :=
  JObj (Obj.set_js "expiresIn" (tk_expiresIn t)
          (Obj.set_js "expiresAt" (Some (JStr (tk_expiresAt t)))
             (Obj.set_js "refreshToken" (tk_refreshToken t)
                (Obj.set_js "accessToken" (tk_accessToken t) [])))).

(** [await axios.post(endpoint, body, options)]: the request is sent, and
    when the reply is there the clock has moved on by the time the request
    took. *)
Definition axios_post (endpoint : string) (body : Credentials) : M jsval :=
  n <- get requests ;;
  script <- get oidc ;;
  took <- get latency ;;
  emit (EvPost endpoint body CONSTANTS.OIDC_REQUEST_TIMEOUT_MS) ;;;
  modify (with_requests (S n)) ;;;
  modify (fun w => with_clock (clock w + took n) w) ;;;
  match script n with
  | Resolved d => ret d
  | Rejected e => throwErr e
  end.

(** [Number(v)], as the multiplication in [expiresIn * 1000] applies it to
    its operand: [inl None] is a value that is not finite, [inr] the
    exception of an array or object that has no primitive value. *)
Definition ToNumber (v : jsval) : option Decimal + JsError :=
  match v with
  | None => inl None
  | Some JNull => inl (Some (integer 0))
  | Some (JBool b) => inl (Some (integer (if b then 1 else 0)))
  | Some (JNum n) => inl (Some (integer n))
  | Some (JStr s) => inl (Number_ofString pf s)
  | Some j =>
      match ToString j with
      | Some s => inl (Number_ofString pf s)
      | None => inr (TypeError_ "Cannot convert object to primitive value")
      end
  end.

(** [new Date(now + expiresIn * 1000).toISOString()], or the exception the
    expression throws: the [TypeError] of the conversion, or the
    [RangeError] of a date that is not valid. *)
Definition expiryDate (now : Z) (expiresIn : jsval) : string + JsError :=
  match ToNumber expiresIn with
  | inr e => inr e
  | inl None => inr (RangeError_ "Invalid time value")
  | inl (Some x) =>
      match Date_toISOString pf (Date_plus now (times_1000 x)) with
      | None => inr (RangeError_ "Invalid time value")
      | Some expiresAt => inl expiresAt
      end
  end.

Definition opt_eqb (o : option string) (s : string) : bool :=
  match o with
  | Some x => String.eqb x s
  | None => false
  end.

(** The [catch] block of [refreshToken]: the exception it throws for the
    exception it caught. *)
Definition refreshError (endpoint : string) (error : JsError) : JsError :=
  if String.eqb (err_name error) "CanceledError"
     || opt_eqb (err_code error) "ERR_CANCELED"
  then Error_ "Token refresh canceled due to shutdown"
  else
    match err_response error with
    | Some resp =>
        let other :=
          Error_ ("OIDC API error (" ++ Str.of_Z (status resp) ++ "): "
                    ++ stringify_js (sanitizeApiResponse (data resp))) in
        let unauthorized_or_other :=
          if status resp =? 401
          then Error_ (getReloginErrorMessage "Client credentials are invalid")
          else other in
        if status resp =? 400 then
          match data resp with
          | None =>
              TypeError_ "Cannot read properties of undefined (reading 'error')"
          | Some JNull =>
              TypeError_ "Cannot read properties of null (reading 'error')"
          | Some d =>
              match prop d "error" with
              | Some (JStr e) =>
                  if String.eqb e "invalid_grant"
                  then Error_ (getReloginErrorMessage
                                 "Refresh token is invalid or expired")
                  else unauthorized_or_other
              | _ => unauthorized_or_other
              end
          end
        else unauthorized_or_other
    | None =>
        if opt_eqb (err_code error) "ECONNREFUSED"
           || opt_eqb (err_code error) "ENOTFOUND"
        then Error_ ("Network error: Cannot reach OIDC endpoint at " ++ endpoint
                       ++ ". " ++ "Check your internet connection.")
        else if opt_eqb (err_code error) "ETIMEDOUT"
                || opt_eqb (err_code error) "ECONNABORTED"
        then Error_ ("Request timeout: OIDC endpoint at " ++ endpoint
                       ++ " did not respond in time.")
        else Error_ ("Token refresh failed: " ++ err_message error)
    end.

Definition refreshToken (credentials : Credentials) : M RefreshedTokens :=
  let endpoint := getOidcEndpoint in
  now <- get clock ;;
  last <- get lastRequestTime ;;
  let timeSinceLastRequest := now - last in
  (if timeSinceLastRequest <? MIN_REQUEST_INTERVAL_MS then
     let waitTime := MIN_REQUEST_INTERVAL_MS - timeSinceLastRequest in
     log LDebug ("Rate limiting: waiting " ++ Str.of_Z waitTime
                   ++ "ms before OIDC request to prevent hammering endpoint") ;;;
     sleep RateLimit waitTime
   else ret tt) ;;;
  now' <- get clock ;;
  modify (with_lastRequestTime now') ;;;
  log LRefresh "Attempting token refresh" ;;;
  modify (with_abortController true) ;;;
  try_catch
    (responseData <- axios_post endpoint credentials ;;
     match responseData with
     | None =>
         throwErr (TypeError_ "Cannot destructure property 'accessToken' of 'response.data' as it is undefined.")
     | Some JNull =>
         throwErr (TypeError_ "Cannot destructure property 'accessToken' of 'response.data' as it is null.")
     | Some d =>
         let accessToken := prop d "accessToken" in
         let newRefreshToken := prop d "refreshToken" in
         let expiresIn := prop d "expiresIn" in
         modify (with_abortController false) ;;;
         if negb (truthy accessToken) || negb (truthy expiresIn) then
           throwErr (Error_ "Invalid response from OIDC endpoint: missing accessToken or expiresIn")
         else
           now2 <- get clock ;;
           match expiryDate now2 expiresIn with
           | inr e => throwErr e
           | inl expiresAt =>
               log LSuccess "Token refresh successful" ;;;
               ret {| tk_accessToken := accessToken;
                      tk_refreshToken :=
                        if truthy newRefreshToken then newRefreshToken
                        else cred_refreshToken credentials;
                      tk_expiresAt := expiresAt;
                      tk_expiresIn := expiresIn |}
           end
     end)
    (fun error =>
       modify (with_abortController false) ;;;
       match error with
       | ThrowErr e => throwErr (refreshError endpoint e)
       | ThrowUndefined =>
           throwErr (TypeError_ "Cannot read properties of undefined (reading 'name')")
       end).

Definition nonRetryableErrors : list string :=
  ["invalid_grant"; "invalid or expired"; "credentials are invalid";
   "canceled due to shutdown"].

Definition isNonRetryable (message : string) : bool :=
  existsb (fun msg => Str.includes (Str.toLowerCase message) (Str.toLowerCase msg))
          nonRetryableErrors.

(** The [for] loop of [refreshTokenWithRetry], from the iteration [attempt]
    on; [fuel] bounds the iterations left.  An iteration either returns from
    the function, throws, or falls through to the next one with [lastError]
    set. *)
Fixpoint retryLoop (fuel : nat) (credentials : Credentials)
    (maxAttempts attempt : Z) (lastError : Thrown) : M RefreshedTokens :=
  match fuel with
  | O => throw lastError
  | S fuel' =>
      if attempt <=? maxAttempts then
        r <- try_catch
               (result <- refreshToken credentials ;;
                (if 1 <? attempt then
                   log LSuccess ("Token refresh succeeded on attempt "
                                   ++ Str.of_Z attempt ++ "/" ++ Str.of_Z maxAttempts)
                 else ret tt) ;;;
                ret (inl result))
               (fun error =>
                  message <- message_of error ;;
                  if isNonRetryable message then
                    (if negb (Str.includes message "canceled due to shutdown") then
                       log LFailure "Token refresh failed with non-retryable error"
                     else ret tt) ;;;
                    throw error
                  else
                    (if attempt <? maxAttempts then
                       let backoffSeconds := retryBackoffSeconds cfg * attempt in
                       log LWarning ("Token refresh attempt " ++ Str.of_Z attempt ++ "/"
                                       ++ Str.of_Z maxAttempts ++ " failed - retrying in "
                                       ++ Str.of_Z backoffSeconds ++ "s") ;;;
                       sleep Backoff (backoffSeconds * 1000)
                     else
                       log LFailure ("Token refresh failed after "
                                       ++ Str.of_Z maxAttempts ++ " attempts")) ;;;
                    ret (inr error)) ;;
        match r with
        | inl result => ret result
        | inr error => retryLoop fuel' credentials maxAttempts (attempt + 1) error
        end
      else throw lastError
  end.

Definition refreshTokenWithRetry (credentials : Credentials) (maxAttempts : Z)
  : M RefreshedTokens :=
  retryLoop (Z.to_nat maxAttempts) credentials maxAttempts 1 ThrowUndefined.

(** [cleanup()] *)
Definition cleanup : M unit :=
  ac <- get abortController ;;
  if ac then
    log LDebug "Aborting in-flight HTTP request for graceful shutdown" ;;;
    modify (with_abortController false)
  else ret tt.

(* ------------------------------------------------------------------ *)
(** *** [src/index.js] *)

Definition MAX_CONSECUTIVE_FAILURES : Z := CONSTANTS.MAX_CONSECUTIVE_FAILURES.

(** The warning of the failure counter reaching its maximum. *)
Definition failuresWarning : string :=
  Str.warningSign ++ "  "
    ++ Str.of_Z MAX_CONSECUTIVE_FAILURES ++ " consecutive failures detected. "
    ++ "Consider checking your configuration and network connection.".

(** The [catch] block of [refreshTokenIfNeeded]. *)
Definition onCycleError (error : Thrown) : M unit :=
  modify (fun w => with_consecutiveFailures (consecutiveFailures w + 1) w) ;;;
  failures <- get consecutiveFailures ;;
  message <- message_of error ;;
  log LFailure ("Token refresh failed (" ++ Str.of_Z failures ++ "/"
                  ++ Str.of_Z MAX_CONSECUTIVE_FAILURES ++ ")") ;;;
  (if Str.includes message "invalid or expired"
      || Str.includes message "invalid_grant"
   then
     notify NotifyReloginRequired ;;;
     log LError (getReloginErrorMessage "Refresh token is no longer valid")
   else notify (NotifyError message)) ;;;
  failures' <- get consecutiveFailures ;;
  if failures' =? MAX_CONSECUTIVE_FAILURES then log LWarning failuresWarning
  else ret tt.

Definition refreshTokenIfNeeded : M unit :=
  shuttingDown <- get isShuttingDown ;;
  if shuttingDown then ret tt
  else
    try_catch
      (cache <- readTokenCache ;;
       expiresAt <- prop_of cache "expiresAt" ;;
       due <- shouldRefresh expiresAt ;;
       if negb due then
         timeRemaining <- formatTimeRemaining expiresAt ;;
         log LDebug ("Token is valid for " ++ timeRemaining ++ " - no refresh needed") ;;;
         modify (with_consecutiveFailures 0)
       else
         timeUntilExpiry <- getTimeUntilExpiry expiresAt ;;
         let minutesRemaining := round_minutes timeUntilExpiry in
         log LRefresh ("Token expires in " ++ Str.of_Z minutesRemaining
                         ++ " minutes - refreshing now") ;;;
         (if minutesRemaining <=? CONSTANTS.EXPIRY_WARNING_THRESHOLD_MINUTES
          then notify (NotifyExpiringSoon minutesRemaining)
          else ret tt) ;;;
         cid <- prop_of cache "clientId" ;;
         csecret <- prop_of cache "clientSecret" ;;
         rtoken <- prop_of cache "refreshToken" ;;
         let credentials :=
           {| clientId := cid; clientSecret := csecret;
              cred_refreshToken := rtoken |} in
         newTokens <- refreshTokenWithRetry credentials (maxRetryAttempts cfg) ;;
         writeTokenCache (tokens_json newTokens) ;;;
         notify (NotifySuccess (tk_expiresAt newTokens) (tk_expiresIn newTokens)) ;;;
         modify (with_consecutiveFailures 0) ;;;
         log LSuccess "Token refresh cycle completed successfully")
      onCycleError.

(** The callback [startMonitoring] hands to [setInterval]. *)
Definition timerTick : M unit :=
  try_catch refreshTokenIfNeeded
    (fun error =>
       _m <- message_of error ;;
       log LError "Token refresh check failed").

Definition startMonitoring : M unit :=
  log LStartup "AWS SSO Token Refresh Daemon Starting" ;;;
  log LInfo "Configuration:" ;;;
  log LInfo "Performing initial token check..." ;;;
  try_catch refreshTokenIfNeeded
    (fun error =>
       _m <- message_of error ;;
       log LError "Initial token check failed") ;;;
  modify (with_monitorInterval true) ;;;
  log LSuccess ("Daemon started - checking tokens every "
                  ++ Str.of_Z (refreshCheckInterval cfg / 1000) ++ "s") ;;;
  notify NotifyStartup.

Definition stopMonitoring : M unit :=
  modify (with_isShuttingDown true) ;;;
  armed <- get monitorInterval ;;
  (if armed then
     modify (with_monitorInterval false) ;;;
     log LInfo "Token monitoring interval stopped"
   else ret tt) ;;;
  cleanup ;;;
  notify NotifyShutdown ;;;
  log LInfo "AWS SSO Token Refresh Daemon stopped".

(* ------------------------------------------------------------------ *)
(** *** The entry points at the edge of the daemon *)

(** [clearConfigCache()] of [src/cache-manager.js] *)
Definition clearConfigCache : M unit :=
  modify (with_configCache None None) ;;;
  log LDebug "AWS config cache cleared".

(** [main()]: the code it ends the process with, or [None] when it leaves
    the daemon running.  Registering the signal handlers changes nothing of
    the state kept here, and the lines printed on the console are left
    out. *)
Definition main : M (option Z) :=
  try_catch
    (validateConfig ;;;
     startMonitoring ;;;
     ret None)
    (fun error =>
       m <- message_of error ;;
       log LFailure "Failed to start daemon" ;;;
       notify (NotifyError ("Failed to start: " ++ m)) ;;;
       ret (Some 1)).

End Program.


(* ================================================================== *)
(** ** A platform instance and sample worlds, for the examples *)
(* ================================================================== *)

Module Iso8601.

(** Days since 1970-01-01 of a civil date (proleptic Gregorian calendar). *)
Definition days_from_civil (y m d : Z) : Z :=
  let y' := if m <=? 2 then y - 1 else y in
  let era := y' / 400 in
  let yoe := y' - era * 400 in
  let mp := if 2 <? m then m - 3 else m + 9 in
  let doy := (153 * mp + 2) / 5 + d - 1 in
  let doe := yoe * 365 + yoe / 4 - yoe / 100 + doy in
  era * 146097 + doe - 719468.

Definition civil_from_days (days : Z) : Z * Z * Z :=
  let z := days + 719468 in
  let era := z / 146097 in
  let doe := z - era * 146097 in
  let yoe := (doe - doe / 1460 + doe / 36524 - doe / 146096) / 365 in
  let doy := doe - (365 * yoe + yoe / 4 - yoe / 100) in
  let mp := (5 * doy + 2) / 153 in
  let d := doy - (153 * mp + 2) / 5 + 1 in
  let m := if mp <? 10 then mp + 3 else mp - 9 in
  let y := yoe + era * 400 in
  (if m <=? 2 then y + 1 else y, m, d).

Definition digit_val (c : ascii) : option Z :=
  let n := nat_of_ascii c in
  if andb (Nat.leb 48 n) (Nat.leb n 57) then Some (Z.of_nat (n - 48)) else None.

(** The number written by the [len] digits at the head of [s], and the rest. *)
Fixpoint digits (len : nat) (s : string) (acc : Z) : option (Z * string) :=
  match len with
  | O => Some (acc, s)
  | S len' =>
      match s with
      | String c s' =>
          match digit_val c with
          | Some v => digits len' s' (10 * acc + v)
          | None => None
          end
      | EmptyString => None
      end
  end.

Definition expect (c : string) (s : string) : option string :=
  match c, s with
  | String a EmptyString, String b s' => if Ascii.eqb a b then Some s' else None
  | _, _ => None
  end.

Definition obind {A B} (o : option A) (k : A -> option B) : option B :=
  match o with Some a => k a | None => None end.

Notation "' p <-? o ; k" := (obind o (fun p => k))
  (at level 10, p pattern, o at level 100, k at level 200, only parsing).

(** [YYYY-MM-DDTHH:mm:ssZ] and [YYYY-MM-DDTHH:mm:ss.sssZ], in milliseconds
    since the epoch. *)
Definition parse (s : string) : option Z :=
  ' (y, s) <-? digits 4 s 0 ;
  ' s <-? expect "-" s ;
  ' (mo, s) <-? digits 2 s 0 ;
  ' s <-? expect "-" s ;
  ' (d, s) <-? digits 2 s 0 ;
  ' s <-? expect "T" s ;
  ' (h, s) <-? digits 2 s 0 ;
  ' s <-? expect ":" s ;
  ' (mi, s) <-? digits 2 s 0 ;
  ' s <-? expect ":" s ;
  ' (sec, s) <-? digits 2 s 0 ;
  let base :=
    ((days_from_civil y mo d * 24 + h) * 60 + mi) * 60 + sec in
  let ok := (1 <=? mo) && (mo <=? 12) && (1 <=? d) && (d <=? 31)
            && (h <=? 23) && (mi <=? 59) && (sec <=? 59) in
  if negb ok then None
  else if String.eqb s "Z" then Some (base * 1000)
  else
    ' s <-? expect "." s ;
    ' (ms, s) <-? digits 3 s 0 ;
    if String.eqb s "Z" then Some (base * 1000 + ms) else None.

Definition pad (width : nat) (z : Z) : string :=
  let s := Str.of_Z z in
  String.concat EmptyString (List.repeat "0" (width - String.length s)) ++ s.

(** [toISOString] for the years 0000 to 9999. *)
Definition format (ms : Z) : option string :=
  let sec := ms / 1000 in
  let days := sec / 86400 in
  let sod := sec mod 86400 in
  let '(y, m, d) := civil_from_days days in
  if (0 <=? y) && (y <=? 9999) then
    Some (pad 4 y ++ "-" ++ pad 2 m ++ "-" ++ pad 2 d ++ "T"
            ++ pad 2 (sod / 3600) ++ ":" ++ pad 2 ((sod / 60) mod 60) ++ ":"
            ++ pad 2 (sod mod 60) ++ "." ++ pad 3 (ms mod 1000) ++ "Z")
  else None.

End Iso8601.

Module Numeric.

Definition is_space (c : ascii) : bool :=
  let n := nat_of_ascii c in
  (Nat.leb 9 n && Nat.leb n 13) || Nat.eqb n 32.

Fixpoint trim_left (s : string) : string :=
  match s with
  | EmptyString => EmptyString
  | String c s' => if is_space c then trim_left s' else s
  end.

Definition trim (s : string) : string :=
  Str.rev (trim_left (Str.rev (trim_left s))).

(** The digits at the head of [s]: the number they continue [acc] to, how
    many they are, and the rest. *)
Fixpoint digits (s : string) (acc count : Z) : Z * Z * string :=
  match s with
  | EmptyString => (acc, count, s)
  | String c s' =>
      match Iso8601.digit_val c with
      | Some v => digits s' (10 * acc + v) (count + 1)
      | None => (acc, count, s)
      end
  end.

(** [Number(s)] on the decimal literals without exponent: ASCII white
    space around, a sign, digits and a fraction; the empty string reads
    as 0.  Every other string reads as not-a-number here; the language also
    reads exponents and the forms [0x], [0o] and [0b]. *)
Definition parse (s : string) : option Decimal :=
  let s := trim s in
  if String.eqb s EmptyString then Some (integer 0)
  else
    let '(sign, s) :=
      match s with
      | String c r =>
          if Ascii.eqb c "-"%char then (-1, r)
          else if Ascii.eqb c "+"%char then (1, r)
          else (1, s)
      | EmptyString => (1, s)
      end in
    let '(whole, nw, s) := digits s 0 0 in
    match s with
    | EmptyString => if 0 <? nw then Some (integer (sign * whole)) else None
    | String c r =>
        if Ascii.eqb c "."%char then
          let '(all, nf, rest) := digits r whole 0 in
          if String.eqb rest EmptyString && (0 <? nw + nf)
          then Some {| mantissa := sign * all; exponent := - nf |}
          else None
        else None
    end.

End Numeric.


Module Sample.

Definition startUrl : string := "https://test-sso.awsapps.com/start/#".

Definition platform : Platform :=
  {| Date_parse := Iso8601.parse;
     Date_toISOString := Iso8601.format;
     Number_ofString := Numeric.parse;
     (* SHA-1 on the one string the samples hash *)
     sha1_hex := fun s =>
       if String.eqb s startUrl
       then "684a1a38341aa20aca5f8b07017b80d1538697d9"
       else "da39a3ee5e6b4b0d3255bfef95601890afd80709";
     homedir := "/home/user";
     tmp_tag := 4711 |}.

Definition config : Config :=
  {| awsSsoProfile := "test-profile";
     awsSsoSession := "test-session";
     awsSsoCacheDir := "/home/user/.aws/sso/cache";
     awsRegion := "ca-central-1";
     oidcEndpoint := None;
     refreshCheckInterval := 60000;
     refreshThreshold := 300000;
     maxRetryAttempts := 3;
     retryBackoffSeconds := 10;
     logLevel := "info" |}.

(** The same configuration with [MAX_RETRY_ATTEMPTS=0]. *)
Definition config_noRetry : Config :=
  {| awsSsoProfile := "test-profile";
     awsSsoSession := "test-session";
     awsSsoCacheDir := "/home/user/.aws/sso/cache";
     awsRegion := "ca-central-1";
     oidcEndpoint := None;
     refreshCheckInterval := 60000;
     refreshThreshold := 300000;
     maxRetryAttempts := 0;
     retryBackoffSeconds := 10;
     logLevel := "info" |}.

Definition awsConfig : AwsConfig :=
  [("profile test-profile",
    [("sso_session", "test-session"); ("sso_account_id", "123456789012")]);
   ("sso-session test-session",
    [("sso_start_url", startUrl); ("sso_region", "ca-central-1")])].

(** 2026-01-27T08:00:00Z *)
Definition now : Z := 1769500800000.

Definition cacheRecord (expiresAt : string) : json :=
  JObj [("startUrl", JStr startUrl);
        ("region", JStr "ca-central-1");
        ("accessToken", JStr "old-token");
        ("expiresAt", JStr expiresAt);
        ("clientId", JStr "test-client");
        ("clientSecret", JStr "test-secret");
        ("registrationExpiresAt", JStr "2026-04-01T00:00:00Z");
        ("refreshToken", JStr "old-refresh")].

Definition cacheFileName : string :=
  "684a1a38341aa20aca5f8b07017b80d1538697d9.json".

Definition world (expiresAt : string) (script : nat -> AxiosReply)
    (failures : Z) : World :=
  {| clock := now;
     events := [];
     oidc := script;
     requests := 0;
     latency := fun _ => 250;
     awsConfigFile := Some (1769000000000, awsConfig);
     cacheDir :=
       Some [(cacheFileName,
              {| text := JsonText (cacheRecord expiresAt); mode := 384 |})];
     cachedAwsConfig := None;
     configFileMtime := None;
     abortController := false;
     lastRequestTime := 0;
     monitorInterval := true;
     isShuttingDown := false;
     consecutiveFailures := failures |}.

(** Expiry four minutes, and one hour, after [now]. *)
Definition in4min : string := "2026-01-27T08:04:00Z".
Definition in1hour : string := "2026-01-27T09:00:00Z".

Definition okReply : AxiosReply :=
  Resolved (Some (JObj [("accessToken", JStr "new-access-token");
                        ("refreshToken", JStr "new-refresh-token");
                        ("expiresIn", JNum 3600)])).

Definition httpError (st : Z) (d : json) : AxiosReply :=
  Rejected {| err_name := "AxiosError";
              err_message := "Request failed with status code " ++ Str.of_Z st;
              err_code := Some "ERR_BAD_REQUEST";
              err_response := Some {| status := st; data := Some d |} |}.

Definition invalidGrant : AxiosReply :=
  httpError 400 (JObj [("error", JStr "invalid_grant");
                       ("error_description", JStr "Token expired")]).

Definition unauthorized : AxiosReply :=
  httpError 401 (JObj [("error", JStr "invalid_client")]).

Definition timeout : AxiosReply :=
  Rejected {| err_name := "AxiosError";
              err_message := "timeout of 30000ms exceeded";
              err_code := Some "ETIMEDOUT";
              err_response := None |}.

(** A 200 response whose [expiresIn] is a string. *)
Definition okReply_string : AxiosReply :=
  Resolved (Some (JObj [("accessToken", JStr "new-access-token");
                        ("expiresIn", JStr "3600")])).

(** A 200 response without [accessToken]. *)
Definition noAccessToken : AxiosReply :=
  Resolved (Some (JObj [("refreshToken", JStr "new-refresh-token");
                        ("expiresIn", JNum 3600)])).

Definition credentials : Credentials :=
  {| clientId := Some (JStr "test-client");
     clientSecret := Some (JStr "test-secret");
     cred_refreshToken := Some (JStr "old-refresh") |}.

End Sample.

(* ================================================================== *)
(** ** Properties *)
(* ================================================================== *)

(** Unfolding of the monad operations, for running a computation by hand. *)
Ltac unfold_monad :=
  unfold bind, ret, get, modify, try_catch, throw, throwErr, log, notify,
    emit in *.

Ltac run := unfold_monad; cbn.

(** Arithmetic and string building stay folded when a computation is run
    symbolically. *)
#[local] Arguments Z.add : simpl never.
#[local] Arguments Z.sub : simpl never.
#[local] Arguments Z.mul : simpl never.
#[local] Arguments Z.div : simpl never.
#[local] Arguments Z.max : simpl never.
#[local] Arguments Z.ltb : simpl never.
#[local] Arguments Z.leb : simpl never.
#[local] Arguments Z.eqb : simpl never.
#[local] Arguments Z.of_nat : simpl never.
#[local] Arguments String.append : simpl never.
#[local] Arguments String.eqb : simpl never.
#[local] Arguments Str.of_Z : simpl never.
#[local] Arguments Str.of_nat : simpl never.
#[local] Arguments Str.includes : simpl never.
#[local] Arguments Str.endsWith : simpl never.
#[local] Arguments Str.toLowerCase : simpl never.
#[local] Arguments Str.join : simpl never.
#[local] Arguments Json.stringify : simpl never.

(** The functions of the program are unfolded on request only. *)
#[local] Arguments validateAndParseDate : simpl never.
#[local] Arguments readAwsConfig : simpl never.
#[local] Arguments getSsoStartUrl : simpl never.
#[local] Arguments getCacheFilePath : simpl never.
#[local] Arguments readTokenCache : simpl never.
#[local] Arguments writeTokenCache : simpl never.
#[local] Arguments writeFileAtomic : simpl never.
#[local] Arguments getTimeUntilExpiry : simpl never.
#[local] Arguments shouldRefresh : simpl never.
#[local] Arguments formatTimeRemaining : simpl never.
#[local] Arguments getTokenStatus : simpl never.
#[local] Arguments refreshToken : simpl never.
#[local] Arguments refreshTokenWithRetry : simpl never.
#[local] Arguments refreshTokenIfNeeded : simpl never.
#[local] Arguments refreshError : simpl never.
#[local] Arguments sanitizeApiResponse : simpl never.
#[local] Arguments getOidcEndpoint : simpl never.
#[local] Arguments getReloginErrorMessage : simpl never.
#[local] Arguments isNonRetryable : simpl never.

Section ExpiryProperties.

Variable pf : Platform.
Variable cfg : Config.

Lemma validateAndParseDate_valid (s : string) (t : Z) (w : World) :
  s <> EmptyString ->
  Date_parse pf s = Some t ->
  validateAndParseDate pf (Some (JStr s)) w = (Ok t, w).
Proof.
  intros Hs Ht. unfold validateAndParseDate.
  destruct (String.eqb s EmptyString) eqn:E.
  - apply String.eqb_eq in E. contradiction.
  - rewrite Ht. reflexivity.
Qed.

(** A date [validateAndParseDate] accepts is a non-empty string the platform
    parses; the world is not touched. *)
Lemma validateAndParseDate_ok_inv (v : jsval) (t : Z) (w w' : World) :
  validateAndParseDate pf v w = (Ok t, w') ->
  w' = w /\ exists s, v = Some (JStr s) /\ s <> EmptyString
                      /\ Date_parse pf s = Some t.
Proof.
  unfold validateAndParseDate. intros H.
  destruct v as [[| | |s| |]|]; try discriminate.
  destruct (String.eqb s EmptyString) eqn:E; try discriminate.
  destruct (Date_parse pf s) eqn:D; try discriminate.
  inversion H; subst. split; [reflexivity|].
  exists s. repeat split; auto.
  intros ->. discriminate.
Qed.

Lemma getTimeUntilExpiry_valid (s : string) (t : Z) (w : World) :
  s <> EmptyString ->
  Date_parse pf s = Some t ->
  getTimeUntilExpiry pf (Some (JStr s)) w = (Ok (t - clock w), w).
Proof.
  intros Hs Ht. unfold getTimeUntilExpiry, bind.
  rewrite (validateAndParseDate_valid s t w Hs Ht). reflexivity.
Qed.

Lemma shouldRefresh_valid (s : string) (t : Z) (w : World) :
  s <> EmptyString ->
  Date_parse pf s = Some t ->
  exists w',
    shouldRefresh pf cfg (Some (JStr s)) w
    = (Ok (t - clock w <=? refreshThreshold cfg), w')
    /\ clock w' = clock w /\ cacheDir w' = cacheDir w
    /\ consecutiveFailures w' = consecutiveFailures w.
Proof.
  intros Hs Ht. unfold shouldRefresh, bind.
  rewrite (getTimeUntilExpiry_valid s t w Hs Ht).
  destruct (t - clock w <=? refreshThreshold cfg); cbn;
    eexists; (split; [reflexivity|]); cbn; auto.
Qed.

(** A configuration [validateConfig] accepts has a positive threshold. *)
Lemma validated_threshold_pos :
  validateConfig_errors cfg = [] -> 0 < refreshThreshold cfg.
Proof.
  unfold validateConfig_errors. intros H.
  repeat (apply app_eq_nil in H; destruct H as [? H]).
  destruct (refreshThreshold cfg <=? 0) eqn:E; [discriminate|].
  apply Z.leb_gt in E. exact E.
Qed.

(** C7.  For a valid [expiresAt] (a non-empty string the platform parses as
    a date) and a validated configuration: [getTimeUntilExpiry] returns the
    expiry time minus the clock; [shouldRefresh] returns [true] if and only
    if that difference is at most [refreshThreshold]; an expiry exactly
    [refreshThreshold] ahead yields [true]; and an expiry already past yields
    a negative [getTimeUntilExpiry] and [shouldRefresh] [true]. *)
Theorem C7_shouldRefresh_threshold (s : string) (t : Z) (w : World) :
  s <> EmptyString ->
  Date_parse pf s = Some t ->
  validateConfig_errors cfg = [] ->
  exists (remaining : Z) (due : bool) (w' : World),
    getTimeUntilExpiry pf (Some (JStr s)) w = (Ok remaining, w)
    /\ shouldRefresh pf cfg (Some (JStr s)) w = (Ok due, w')
    /\ remaining = t - clock w
    /\ (due = true <-> remaining <= refreshThreshold cfg)
    /\ (t = clock w + refreshThreshold cfg -> due = true)
    /\ (t < clock w -> remaining < 0 /\ due = true).
Proof.
  intros Hs Ht Hcfg.
  destruct (shouldRefresh_valid s t w Hs Ht) as (w' & Hrun & _).
  pose proof validated_threshold_pos Hcfg as Hpos.
  exists (t - clock w), (t - clock w <=? refreshThreshold cfg), w'.
  split; [apply getTimeUntilExpiry_valid; assumption|].
  split; [exact Hrun|].
  split; [reflexivity|].
  split; [apply Z.leb_le|].
  split.
  - intros ->. apply Z.leb_le. lia.
  - intros Hpast. split; [lia|]. apply Z.leb_le. lia.
Qed.

End ExpiryProperties.

(** C7 at a sample: expiry four minutes ahead, threshold five minutes. *)
Lemma C7_shouldRefresh_threshold_witness :
  exists (remaining : Z) (due : bool) (w' : World),
    let w := Sample.world Sample.in4min (fun _ => Sample.okReply) 0 in
    getTimeUntilExpiry Sample.platform (Some (JStr Sample.in4min)) w
    = (Ok remaining, w)
    /\ shouldRefresh Sample.platform Sample.config (Some (JStr Sample.in4min)) w
       = (Ok due, w')
    /\ remaining = 1769501040000 - clock w
    /\ (due = true <-> remaining <= refreshThreshold Sample.config)
    /\ (1769501040000 = clock w + refreshThreshold Sample.config -> due = true)
    /\ (1769501040000 < clock w -> remaining < 0 /\ due = true).
Proof.
  apply (C7_shouldRefresh_threshold Sample.platform Sample.config
           Sample.in4min 1769501040000
           (Sample.world Sample.in4min (fun _ => Sample.okReply) 0)).
  - discriminate.
  - vm_compute. reflexivity.
  - vm_compute. reflexivity.
Defined.

(* ------------------------------------------------------------------ *)
(** *** The exchange and its retry loop *)

(** The delays of the back-off sleeps among some events, in order. *)
Fixpoint backoffs (evs : list Event) : list Z :=
  match evs with
  | [] => []
  | EvSleep Backoff ms :: rest => ms :: backoffs rest
  | _ :: rest => backoffs rest
  end.

Lemma backoffs_app (a b : list Event) :
  backoffs (a ++ b) = (backoffs a ++ backoffs b)%list.
Proof.
  induction a as [|e a IH]; [reflexivity|].
  destruct e as [| |[] ms|]; cbn; rewrite IH; reflexivity.
Qed.

(** The parts of the world the token refresher leaves alone. *)
Definition same_outside_refresher (w w' : World) : Prop :=
  oidc w' = oidc w
  /\ awsConfigFile w' = awsConfigFile w
  /\ cacheDir w' = cacheDir w
  /\ cachedAwsConfig w' = cachedAwsConfig w
  /\ configFileMtime w' = configFileMtime w
  /\ monitorInterval w' = monitorInterval w
  /\ isShuttingDown w' = isShuttingDown w
  /\ consecutiveFailures w' = consecutiveFailures w.

Lemma same_outside_refresher_refl (w : World) : same_outside_refresher w w.
Proof. repeat split. Qed.

Lemma same_outside_refresher_trans (a b c : World) :
  same_outside_refresher a b -> same_outside_refresher b c ->
  same_outside_refresher a c.
Proof.
  unfold same_outside_refresher.
  intros (?&?&?&?&?&?&?&?) (?&?&?&?&?&?&?&?).
  repeat split; etransitivity; eauto.
Qed.

Section RefresherProperties.

Variable pf : Platform.
Variable cfg : Config.

#[local] Arguments expiryDate : simpl never.

(** What one call of [refreshToken] yields for the reply it gets, [now]
    being the clock when the reply is there. *)
Definition attemptResult (now : Z) (credentials : Credentials)
    (reply : AxiosReply) : RefreshedTokens + JsError :=
  let endpoint := getOidcEndpoint cfg in
  match reply with
  | Rejected e => inr (refreshError cfg endpoint e)
  | Resolved None =>
      inr (refreshError cfg endpoint
             (TypeError_ "Cannot destructure property 'accessToken' of 'response.data' as it is undefined."))
  | Resolved (Some JNull) =>
      inr (refreshError cfg endpoint
             (TypeError_ "Cannot destructure property 'accessToken' of 'response.data' as it is null."))
  | Resolved (Some d) =>
      if negb (truthy (prop d "accessToken")) || negb (truthy (prop d "expiresIn"))
      then inr (refreshError cfg endpoint
                  (Error_ "Invalid response from OIDC endpoint: missing accessToken or expiresIn"))
      else
        match expiryDate pf now (prop d "expiresIn") with
        | inr e => inr (refreshError cfg endpoint e)
        | inl expiresAt =>
            inl {| tk_accessToken := prop d "accessToken";
                   tk_refreshToken :=
                     if truthy (prop d "refreshToken")
                     then prop d "refreshToken"
                     else cred_refreshToken credentials;
                   tk_expiresAt := expiresAt;
                   tk_expiresIn := prop d "expiresIn" |}
        end
  end.

Definition outcome_of (r : RefreshedTokens + JsError) : Outcome RefreshedTokens :=
  match r with
  | inl t => Ok t
  | inr e => Throw (ThrowErr e)
  end.

(** One call of [refreshToken]: it makes exactly one request, takes the
    reply the endpoint gives to it, sleeps no back-off, and touches nothing
    outside its own module. *)
Lemma refreshToken_run (credentials : Credentials) (w : World) :
  exists (w' : World) (evs : list Event),
    refreshToken pf cfg credentials w
    = (outcome_of (attemptResult (clock w') credentials (oidc w (requests w))), w')
    /\ requests w' = S (requests w)
    /\ events w' = (events w ++ evs)%list
    /\ backoffs evs = []
    /\ same_outside_refresher w w'.
Proof.
  unfold refreshToken, sleep, axios_post. unfold_monad. cbn.
  destruct (clock w - lastRequestTime w <? MIN_REQUEST_INTERVAL_MS); cbn.
  all: destruct (oidc w (requests w)) as [[d|]|e] eqn:Hreply; cbn.
  all: try (destruct d; cbn).
  all: repeat match goal with
         | |- context [if ?b then _ else _] => destruct b eqn:?; cbn
         | |- context [match expiryDate ?p ?n ?x with _ => _ end] =>
             destruct (expiryDate p n x) eqn:?; cbn
         end.
  all: unfold_monad; cbn.
  all: lazymatch goal with
       | |- exists w' evs, (_, ?X) = _ /\ _ => exists X
       end.
  all: eexists; split;
    [cbn; rewrite ?Hreply; cbn;
     repeat match goal with
       | H : negb _ || negb _ = _ |- _ => cbn in H; rewrite H; clear H
       | H : expiryDate _ _ _ = _ |- _ => rewrite H; clear H
       | H : truthy _ = _ |- _ => rewrite H; clear H
       end; reflexivity|].
  all: cbn; split; [reflexivity|].
  all: split; [rewrite <- ?app_assoc; reflexivity|].
  all: split; [reflexivity|].
  all: repeat split.
Qed.

(** The reply the endpoint gives to the [i]-th request from now on
    ([i = 0] is the next request). *)
Definition replyOf (w : World) (i : nat) : AxiosReply :=
  oidc w (requests w + i)%nat.

(** An attempt on this reply fails with [e], whatever the clock reads. *)
Definition failsWith (credentials : Credentials) (reply : AxiosReply)
    (e : JsError) : Prop :=
  forall now, attemptResult now credentials reply = inr e.

Definition retryable (e : JsError) : Prop :=
  isNonRetryable (err_message e) = false.

Definition fatal (e : JsError) : Prop :=
  isNonRetryable (err_message e) = true.

(** An attempt on this reply fails with an error that is retried, whatever
    the clock reads. *)
Definition retriedOn (credentials : Credentials) (reply : AxiosReply) : Prop :=
  forall now, exists e,
    attemptResult now credentials reply = inr e /\ retryable e.

(** The waits of linear back-off after the attempts [a], [a+1], ...,
    [a+k-1], in milliseconds. *)
Definition backoffSchedule (a k : nat) : list Z :=
  List.map (fun i => retryBackoffSeconds cfg * Z.of_nat i * 1000) (List.seq a k).

(** What a part of a run did: requests made, back-off sleeps taken, and
    nothing outside the refresher touched. *)
Definition ran (w w' : World) (attempts : nat) (waits : list Z) : Prop :=
  requests w' = (requests w + attempts)%nat
  /\ (exists evs, events w' = (events w ++ evs)%list /\ backoffs evs = waits)
  /\ same_outside_refresher w w'.

Lemma ran_trans (a b c : World) (n m : nat) (u v : list Z) :
  ran a b n u -> ran b c m v -> ran a c (n + m) (u ++ v).
Proof.
  intros (Hr1 & (e1 & He1 & Hb1) & Hs1) (Hr2 & (e2 & He2 & Hb2) & Hs2).
  split; [rewrite Hr2, Hr1; lia|].
  split.
  - exists (e1 ++ e2)%list. rewrite He2, He1, app_assoc, backoffs_app.
    split; [reflexivity|congruence].
  - eapply same_outside_refresher_trans; eauto.
Qed.

Lemma refreshToken_ran (credentials : Credentials) (w : World) :
  exists w',
    refreshToken pf cfg credentials w
    = (outcome_of (attemptResult (clock w') credentials (replyOf w 0)), w')
    /\ ran w w' 1 [].
Proof.
  destruct (refreshToken_run credentials w) as (w' & evs & H & Hr & He & Hb & Hs).
  exists w'. unfold replyOf. rewrite Nat.add_0_r.
  split; [exact H|].
  split; [lia|]. split; [exists evs; auto|exact Hs].
Qed.

Lemma replyOf_shift (w w' : World) (k i : nat) (waits : list Z) :
  ran w w' k waits -> replyOf w' i = replyOf w (k + i).
Proof.
  intros (Hr & _ & Hs). unfold replyOf.
  destruct Hs as (Ho & _). rewrite Ho, Hr. f_equal. lia.
Qed.

(** A retryable failure on an attempt that is not the last: the loop waits
    [retryBackoffSeconds * attempt] seconds and goes to the next attempt. *)
Lemma retryLoop_retry (fuel : nat) (credentials : Credentials) (n a : nat)
    (lastError : Thrown) (w : World) :
  (a < n)%nat ->
  retriedOn credentials (replyOf w 0) ->
  exists w' e,
    retryLoop pf cfg (S fuel) credentials (Z.of_nat n) (Z.of_nat a) lastError w
    = retryLoop pf cfg fuel credentials (Z.of_nat n) (Z.of_nat (S a)) (ThrowErr e) w'
    /\ ran w w' 1 [retryBackoffSeconds cfg * Z.of_nat a * 1000].
Proof.
  intros Han Hfail.
  destruct (refreshToken_ran credentials w) as (w1 & Hrun & Hran).
  destruct (Hfail (clock w1)) as (e & Hres & Hretry).
  rewrite Hres in Hrun. cbn in Hrun.
  cbn [retryLoop].
  replace (Z.of_nat a <=? Z.of_nat n) with true by (symmetry; apply Z.leb_le; lia).
  unfold bind at 1. unfold try_catch at 1. unfold bind at 1.
  rewrite Hrun. unfold message_of, bind, ret. cbn.
  unfold retryable in Hretry. rewrite Hretry.
  replace (Z.of_nat a <? Z.of_nat n) with true by (symmetry; apply Z.ltb_lt; lia).
  unfold sleep, log, emit, modify, bind. cbn.
  rewrite Nat2Z.inj_succ, <- Z.add_1_r.
  eexists. exists e. split; [reflexivity|].
  destruct Hran as (Hr & (evs & He & Hb) & Hs).
  split; [cbn; exact Hr|].
  split.
  - eexists. cbn. rewrite He, <- !app_assoc. split; [reflexivity|].
    rewrite backoffs_app, Hb. reflexivity.
  - destruct Hs as (?&?&?&?&?&?&?&?). repeat split; cbn; assumption.
Qed.

(** [k] retryable failures in a row, none of them on the last attempt. *)
Lemma retryLoop_retries (credentials : Credentials) (n : nat) :
  forall (k : nat) (fuel a : nat) (lastError : Thrown) (w : World),
    (a + k <= n)%nat ->
    (forall i, (i < k)%nat -> retriedOn credentials (replyOf w i)) ->
    exists w' lastError',
      retryLoop pf cfg (k + fuel) credentials (Z.of_nat n) (Z.of_nat a) lastError w
      = retryLoop pf cfg fuel credentials (Z.of_nat n) (Z.of_nat (a + k)) lastError' w'
      /\ ran w w' k (backoffSchedule a k).
Proof.
  induction k as [|k IH]; intros fuel a lastError w Hle Hfails.
  - exists w, lastError. rewrite Nat.add_0_r. split; [reflexivity|].
    split; [lia|]. split; [exists []; rewrite app_nil_r; auto|].
    apply same_outside_refresher_refl.
  - destruct (retryLoop_retry (k + fuel) credentials n a lastError w
                ltac:(lia) (Hfails 0%nat ltac:(lia))) as (w1 & e0 & Hstep & Hran1).
    destruct (IH fuel (S a) (ThrowErr e0) w1 ltac:(lia))
      as (w2 & l2 & Hrest & Hran2).
    + intros i Hi. rewrite (replyOf_shift w w1 1 i _ Hran1).
      apply (Hfails (S i)). lia.
    + exists w2, l2. cbn [Nat.add]. rewrite Hstep, Hrest.
      replace (S a + k)%nat with (a + S k)%nat by lia.
      split; [reflexivity|].
      pose proof (ran_trans _ _ _ _ _ _ _ Hran1 Hran2) as H.
      exact H.
Qed.

(** The attempt succeeds: the loop returns its result. *)
Lemma retryLoop_success (fuel : nat) (credentials : Credentials) (n a : nat)
    (lastError : Thrown) (w w2 : World) (t : RefreshedTokens) :
  (a <= n)%nat ->
  refreshToken pf cfg credentials w = (Ok t, w2) ->
  exists w',
    retryLoop pf cfg (S fuel) credentials (Z.of_nat n) (Z.of_nat a) lastError w
    = (Ok t, w')
    /\ ran w w' 1 [].
Proof.
  intros Han Hrun.
  destruct (refreshToken_ran credentials w) as (w1 & Hrun1 & Hran).
  rewrite Hrun in Hrun1. inversion Hrun1 as [[Hres Hw]]. subst w2. clear Hrun1.
  cbn [retryLoop].
  replace (Z.of_nat a <=? Z.of_nat n) with true by (symmetry; apply Z.leb_le; lia).
  unfold bind at 1. unfold try_catch at 1. unfold bind at 1.
  rewrite Hrun.
  destruct Hran as (Hr & (evs & He & Hb) & Hs).
  destruct (1 <? Z.of_nat a); unfold_monad; cbn.
  - eexists. split; [reflexivity|].
    split; [cbn; exact Hr|]. split.
    + eexists. cbn. rewrite He, <- app_assoc. split; [reflexivity|].
      rewrite backoffs_app, Hb. reflexivity.
    + destruct Hs as (?&?&?&?&?&?&?&?). repeat split; cbn; assumption.
  - exists w1. split; [reflexivity|].
    split; [exact Hr|]. split; [exists evs; auto|exact Hs].
Qed.

(** The attempt fails with a non-retryable error: the loop throws it at
    once. *)
Lemma retryLoop_fatal (fuel : nat) (credentials : Credentials) (n a : nat)
    (lastError : Thrown) (w w2 : World) (e : JsError) :
  (a <= n)%nat ->
  refreshToken pf cfg credentials w = (Throw (ThrowErr e), w2) -> fatal e ->
  exists w',
    retryLoop pf cfg (S fuel) credentials (Z.of_nat n) (Z.of_nat a) lastError w
    = (Throw (ThrowErr e), w')
    /\ ran w w' 1 [].
Proof.
  intros Han Hrun Hfatal.
  destruct (refreshToken_ran credentials w) as (w1 & Hrun1 & Hran).
  rewrite Hrun in Hrun1. inversion Hrun1 as [[Hres Hw]]. subst w2. clear Hrun1.
  cbn [retryLoop].
  replace (Z.of_nat a <=? Z.of_nat n) with true by (symmetry; apply Z.leb_le; lia).
  unfold bind at 1. unfold try_catch at 1. unfold bind at 1.
  rewrite Hrun. unfold message_of, bind, ret. cbn.
  unfold fatal in Hfatal. rewrite Hfatal.
  destruct Hran as (Hr & (evs & He & Hb) & Hs).
  destruct (negb (Str.includes (err_message e) "canceled due to shutdown"));
    unfold_monad; cbn.
  - eexists. split; [reflexivity|].
    split; [cbn; exact Hr|]. split.
    + eexists. cbn. rewrite He, <- app_assoc. split; [reflexivity|].
      rewrite backoffs_app, Hb. reflexivity.
    + destruct Hs as (?&?&?&?&?&?&?&?). repeat split; cbn; assumption.
  - exists w1. split; [reflexivity|].
    split; [exact Hr|]. split; [exists evs; auto|exact Hs].
Qed.

(** A retryable failure on the last attempt: the loop ends and the function
    throws that error. *)
Lemma retryLoop_exhausted (fuel : nat) (credentials : Credentials) (n : nat)
    (lastError : Thrown) (w w2 : World) (e : JsError) :
  refreshToken pf cfg credentials w = (Throw (ThrowErr e), w2) -> retryable e ->
  exists w',
    retryLoop pf cfg (S fuel) credentials (Z.of_nat n) (Z.of_nat n) lastError w
    = (Throw (ThrowErr e), w')
    /\ ran w w' 1 [].
Proof.
  intros Hrun Hretry.
  destruct (refreshToken_ran credentials w) as (w1 & Hrun1 & Hran).
  rewrite Hrun in Hrun1. inversion Hrun1 as [[Hres Hw]]. subst w2. clear Hrun1.
  cbn [retryLoop].
  rewrite Z.leb_refl.
  unfold bind at 1. unfold try_catch at 1. unfold bind at 1.
  rewrite Hrun. unfold message_of, bind, ret. cbn.
  unfold retryable in Hretry. rewrite Hretry.
  rewrite Z.ltb_irrefl.
  unfold log, emit, modify, bind. cbn.
  assert (Hend : forall w2,
             retryLoop pf cfg fuel credentials (Z.of_nat n) (Z.of_nat n + 1)
               (ThrowErr e) w2 = (Throw (ThrowErr e), w2)).
  { intros w2. destruct fuel; cbn [retryLoop]; [reflexivity|].
    replace (Z.of_nat n + 1 <=? Z.of_nat n) with false
      by (symmetry; apply Z.leb_gt; lia).
    reflexivity. }
  rewrite Hend.
  eexists. split; [reflexivity|].
  destruct Hran as (Hr & (evs & He & Hb) & Hs).
  split; [cbn; exact Hr|]. split.
  - eexists. cbn. rewrite He, <- app_assoc. split; [reflexivity|].
    rewrite backoffs_app, Hb. reflexivity.
  - destruct Hs as (?&?&?&?&?&?&?&?). repeat split; cbn; assumption.
Qed.

(** The attempt that ends the loop: it succeeds, or fails with an error that
    is not retried, or it is the last one allowed.  The function returns or
    throws what the attempt yields, at the time the attempt is over. *)
Lemma retryLoop_decided (fuel : nat) (credentials : Credentials) (n a : nat)
    (lastError : Thrown) (w w1 : World) (res : RefreshedTokens + JsError) :
  (a <= n)%nat ->
  refreshToken pf cfg credentials w = (outcome_of res, w1) ->
  match res with
  | inl _ => True
  | inr e => fatal e \/ a = n
  end ->
  exists w',
    retryLoop pf cfg (S fuel) credentials (Z.of_nat n) (Z.of_nat a) lastError w
    = (outcome_of res, w')
    /\ ran w w' 1 []
    /\ clock w' = clock w1.
Proof.
  intros Han Hrun Hdec.
  destruct res as [t|e]; cbn [outcome_of] in *.
  - destruct (retryLoop_success fuel credentials n a lastError w w1 t Han Hrun)
      as (w' & Hloop & Hran').
    exists w'. split; [exact Hloop|]. split; [exact Hran'|].
    revert Hloop. cbn [retryLoop].
    replace (Z.of_nat a <=? Z.of_nat n) with true
      by (symmetry; apply Z.leb_le; lia).
    unfold bind at 1. unfold try_catch at 1. unfold bind at 1.
    rewrite Hrun.
    destruct (1 <? Z.of_nat a); unfold_monad; cbn;
      intros H; inversion H; reflexivity.
  - assert (Hcase : fatal e \/ (retryable e /\ a = n)).
    { destruct (isNonRetryable (err_message e)) eqn:Hf; [left; exact Hf|].
      right. split; [exact Hf|].
      destruct Hdec as [Hfatal|Heq]; [|exact Heq].
      unfold fatal in Hfatal. congruence. }
    destruct Hcase as [Hfatal|[Hretry ->]].
    + destruct (retryLoop_fatal fuel credentials n a lastError w w1 e Han Hrun Hfatal)
        as (w' & Hloop & Hran').
      exists w'. split; [exact Hloop|]. split; [exact Hran'|].
      revert Hloop. cbn [retryLoop].
      replace (Z.of_nat a <=? Z.of_nat n) with true
        by (symmetry; apply Z.leb_le; lia).
      unfold bind at 1. unfold try_catch at 1. unfold bind at 1.
      rewrite Hrun. unfold message_of, bind, ret. cbn.
      unfold fatal in Hfatal. rewrite Hfatal.
      destruct (negb (Str.includes (err_message e) "canceled due to shutdown"));
        unfold_monad; cbn; intros H; inversion H; reflexivity.
    + destruct (retryLoop_exhausted fuel credentials n lastError w w1 e Hrun Hretry)
        as (w' & Hloop & Hran').
      exists w'. split; [exact Hloop|]. split; [exact Hran'|].
      revert Hloop. cbn [retryLoop].
      rewrite Z.leb_refl.
      unfold bind at 1. unfold try_catch at 1. unfold bind at 1.
      rewrite Hrun. unfold message_of, bind, ret. cbn.
      unfold retryable in Hretry. rewrite Hretry.
      rewrite Z.ltb_irrefl.
      unfold log, emit, modify, bind. cbn.
      destruct fuel; cbn [retryLoop].
      * intros H; inversion H; reflexivity.
      * replace (Z.of_nat n + 1 <=? Z.of_nat n) with false
          by (symmetry; apply Z.leb_gt; lia).
        intros H; inversion H; reflexivity.
Qed.

(** Replies that are retried up to the last attempt allowed: the function
    makes [maxAttempts] requests, sleeps the back-off [1 * b], ...,
    [(maxAttempts - 1) * b] seconds between them, and throws what the last
    attempt yields. *)
Lemma retry_exhausted (credentials : Credentials) (maxAttempts : Z) (k : nat)
    (w : World) :
  Z.of_nat (S k) = maxAttempts ->
  (forall i, (i < k)%nat -> retriedOn credentials (replyOf w i)) ->
  exists w',
    refreshTokenWithRetry pf cfg credentials maxAttempts w
    = (outcome_of (attemptResult (clock w') credentials (replyOf w k)), w')
    /\ ran w w' (S k) (backoffSchedule 1 k).
Proof.
  intros Hk Hfails.
  set (n := Z.to_nat maxAttempts).
  assert (HN : maxAttempts = Z.of_nat n) by (unfold n; lia).
  assert (Hkn : (k < n)%nat) by lia.
  destruct (retryLoop_retries credentials n k (n - k) 1 ThrowUndefined w
              ltac:(lia) Hfails) as (w1 & l1 & Hloop & Hran1).
  replace (k + (n - k))%nat with n in Hloop by lia.
  change (Z.of_nat 1) with 1 in Hloop.
  assert (Hreply : replyOf w1 0 = replyOf w k).
  { rewrite (replyOf_shift w w1 k 0 _ Hran1). f_equal. lia. }
  unfold refreshTokenWithRetry. fold n. rewrite HN, Hloop.
  destruct (n - k)%nat as [|fuel] eqn:Hfuel; [lia|].
  destruct (refreshToken_ran credentials w1) as (w2 & Hrun2 & _).
  destruct (retryLoop_decided fuel credentials n (1 + k) l1 w1 w2 _
              ltac:(lia) Hrun2) as (w' & Hlast & Hran2 & Hclock).
  { destruct (attemptResult _ _ _); [exact I|right; lia]. }
  exists w'. rewrite Hlast, Hclock, Hreply. split; [reflexivity|].
  pose proof (ran_trans _ _ _ _ _ _ _ Hran1 Hran2) as H.
  rewrite app_nil_r in H. replace (k + 1)%nat with (S k) in H by lia. exact H.
Qed.

(** C10.  With [maxAttempts] below 1 the loop body never runs:
    [refreshTokenWithRetry] makes no request, emits nothing, and rejects with
    the never-assigned [lastError], that is with [undefined] and not with an
    [Error]. *)
Theorem C10_no_attempts_rejects_undefined (credentials : Credentials)
    (maxAttempts : Z) (w : World) :
  maxAttempts < 1 ->
  refreshTokenWithRetry pf cfg credentials maxAttempts w
  = (Throw ThrowUndefined, w).
Proof.
  intros H. unfold refreshTokenWithRetry.
  replace (Z.to_nat maxAttempts) with 0%nat by lia.
  reflexivity.
Qed.

(** A response body without a usable [accessToken] or [expiresIn]. *)
Definition lacksTokenOrExpiry (d : json) : Prop :=
  d <> JNull
  /\ (truthy (prop d "accessToken") = false \/ truthy (prop d "expiresIn") = false).

(** The error [refreshToken] rejects with for such a body: the validation
    error is thrown inside the [try] block, so the [catch] block wraps it as
    an unknown error. *)
Definition invalidResponseError : JsError :=
  Error_ "Token refresh failed: Invalid response from OIDC endpoint: missing accessToken or expiresIn".

Lemma invalidResponse_failsWith (credentials : Credentials) (d : json) :
  lacksTokenOrExpiry d ->
  failsWith credentials (Resolved (Some d)) invalidResponseError.
Proof.
  intros (Hnull & Hlack) now. unfold attemptResult.
  assert (Hb : negb (truthy (prop d "accessToken"))
               || negb (truthy (prop d "expiresIn")) = true).
  { destruct Hlack as [H|H]; rewrite H; cbn; auto using orb_true_r. }
  destruct d; try contradiction; rewrite Hb; reflexivity.
Qed.

Lemma invalidResponse_retryable : retryable invalidResponseError.
Proof. reflexivity. Qed.

(** After a run of [n] requests from [w], the failures to come are the ones
    that were to come [n] requests later. *)
Lemma refreshToken_failsWith (credentials : Credentials) (w : World)
    (e : JsError) :
  failsWith credentials (replyOf w 0) e ->
  exists w', refreshToken pf cfg credentials w = (Throw (ThrowErr e), w').
Proof.
  intros Hfail.
  destruct (refreshToken_ran credentials w) as (w1 & Hrun & _).
  rewrite Hfail in Hrun. exists w1. exact Hrun.
Qed.

(** C4, as the code has it.  A successful HTTP response whose body lacks
    [accessToken] or [expiresIn] makes [refreshToken] reject with the error
    [invalidResponseError]; this error matches none of the non-retryable
    patterns, so it is retried: when every response is of that kind,
    [refreshTokenWithRetry] makes [maxAttempts] attempts, with the back-off
    waits between them, and rejects with that error. *)
Theorem C4_invalid_response_is_retried (credentials : Credentials)
    (maxAttempts : Z) (w : World) :
  1 <= maxAttempts ->
  (forall i, (i < Z.to_nat maxAttempts)%nat ->
             exists d, replyOf w i = Resolved (Some d) /\ lacksTokenOrExpiry d) ->
  (exists w1,
      refreshToken pf cfg credentials w
      = (Throw (ThrowErr invalidResponseError), w1))
  /\ isNonRetryable (err_message invalidResponseError) = false
  /\ (exists w',
         refreshTokenWithRetry pf cfg credentials maxAttempts w
         = (Throw (ThrowErr invalidResponseError), w')
         /\ ran w w' (Z.to_nat maxAttempts)
              (backoffSchedule 1 (Z.to_nat maxAttempts - 1))).
Proof.
  intros HN Hall.
  set (n := Z.to_nat maxAttempts) in *.
  assert (Hfails : forall i, (i < n)%nat ->
                     failsWith credentials (replyOf w i) invalidResponseError).
  { intros i Hi. destruct (Hall i Hi) as (d & Hd & Hlack). rewrite Hd.
    apply invalidResponse_failsWith. exact Hlack. }
  split; [apply refreshToken_failsWith, Hfails; lia|].
  split; [reflexivity|].
  destruct (retry_exhausted credentials maxAttempts (n - 1) w ltac:(lia))
    as (w' & Hrun & Hran).
  { intros i Hi now. exists invalidResponseError.
    split; [apply Hfails; lia|apply invalidResponse_retryable]. }
  exists w'. rewrite Hrun, (Hfails (n - 1)%nat ltac:(lia)).
  split; [reflexivity|].
  replace (S (n - 1)) with n in Hran by lia. exact Hran.
Qed.

End RefresherProperties.

(** A sample endpoint: two timeouts, then a success. *)
Definition sample_script_2timeouts (i : nat) : AxiosReply :=
  match i with
  | 0%nat | 1%nat => Sample.timeout
  | _ => Sample.okReply
  end.


Lemma C10_no_attempts_rejects_undefined_witness :
  let w := Sample.world Sample.in4min (fun _ => Sample.okReply) 0 in
  refreshTokenWithRetry Sample.platform Sample.config Sample.credentials 0 w
  = (Throw ThrowUndefined, w).
Proof.
  apply (C10_no_attempts_rejects_undefined Sample.platform Sample.config
           Sample.credentials 0).
  lia.
Defined.

Lemma C4_invalid_response_is_retried_witness :
  let w := Sample.world Sample.in4min (fun _ => Sample.noAccessToken) 0 in
  (exists w1,
      refreshToken Sample.platform Sample.config Sample.credentials w
      = (Throw (ThrowErr invalidResponseError), w1))
  /\ isNonRetryable (err_message invalidResponseError) = false
  /\ (exists w',
         refreshTokenWithRetry Sample.platform Sample.config Sample.credentials 3 w
         = (Throw (ThrowErr invalidResponseError), w')
         /\ ran w w' (Z.to_nat 3)
              (backoffSchedule Sample.config 1 (Z.to_nat 3 - 1))).
Proof.
  apply (C4_invalid_response_is_retried Sample.platform Sample.config
           Sample.credentials 3).
  - lia.
  - intros i _. eexists. split; [reflexivity|].
    split; [discriminate|left; reflexivity].
Defined.

(** C4 as stated fails: a 200 response without [accessToken], three attempts
    allowed.  The function does not stop after one attempt: it makes three
    requests and sleeps the two back-off waits before it rejects. *)
Lemma C4_counterexample :
  let w := Sample.world Sample.in4min (fun _ => Sample.noAccessToken) 0 in
  let r := refreshTokenWithRetry Sample.platform Sample.config
             Sample.credentials 3 w in
  fst r = Throw (ThrowErr invalidResponseError)
  /\ requests (snd r) = 3%nat
  /\ requests (snd r) <> 1%nat
  /\ backoffs (events (snd r)) = [10000; 20000].
Proof.
  vm_compute. repeat split. discriminate.
Qed.

(* ------------------------------------------------------------------ *)
(** *** Redaction of API error payloads *)

Lemma startsWith_app (p s : string) : Str.startsWith (p ++ s) p = true.
Proof.
  induction p as [|c p IH]; [reflexivity|].
  change (String c p ++ s) with (String c (p ++ s)).
  cbn. rewrite Ascii.eqb_refl. exact IH.
Qed.

Lemma startsWith_app_l (s p b : string) :
  Str.startsWith s p = true -> Str.startsWith (s ++ b) p = true.
Proof.
  revert s. induction p as [|c p IH]; intros s H; [reflexivity|].
  destruct s as [|d s]; [discriminate|].
  change (String d s ++ b) with (String d (s ++ b)).
  cbn in *. destruct (Ascii.eqb c d); [auto|discriminate].
Qed.

Lemma includes_unfold (s p : string) :
  Str.includes s p
  = if Str.startsWith s p then true
    else match s with
         | EmptyString => false
         | String _ s' => Str.includes s' p
         end.
Proof. destruct s; reflexivity. Qed.

Lemma includes_app_r (a s p : string) :
  Str.includes s p = true -> Str.includes (a ++ s) p = true.
Proof.
  intros H. induction a as [|c a IH]; [exact H|].
  change (String c a ++ s) with (String c (a ++ s)).
  rewrite includes_unfold. rewrite IH.
  destruct (Str.startsWith (String c (a ++ s)) p); reflexivity.
Qed.

Lemma includes_app_l (s b p : string) :
  Str.includes s p = true -> Str.includes (s ++ b) p = true.
Proof.
  induction s as [|c s IH]; intros H.
  - rewrite includes_unfold in H.
    destruct (Str.startsWith EmptyString p) eqn:E; [|discriminate].
    rewrite includes_unfold.
    rewrite (startsWith_app_l EmptyString p b E). reflexivity.
  - rewrite includes_unfold in H.
    change (String c s ++ b) with (String c (s ++ b)).
    rewrite includes_unfold.
    destruct (Str.startsWith (String c s) p) eqn:E.
    + change (String c (s ++ b)) with (String c s ++ b).
      rewrite (startsWith_app_l _ _ b E). reflexivity.
    + rewrite (IH H).
      destruct (Str.startsWith (String c (s ++ b)) p); reflexivity.
Qed.

Lemma includes_self_app (p s : string) : Str.includes (p ++ s) p = true.
Proof. rewrite includes_unfold, startsWith_app. reflexivity. Qed.

Lemma includes_join (sep p x : string) (l : list string) :
  In x l -> Str.includes x p = true -> Str.includes (Str.join sep l) p = true.
Proof.
  intros Hin Hx. induction l as [|y l IH]; [contradiction|].
  destruct Hin as [->|Hin].
  - destruct l; [exact Hx|].
    change (Str.includes (x ++ sep ++ Str.join sep (s :: l)) p = true).
    apply includes_app_l. exact Hx.
  - destruct l as [|z l]; [contradiction|].
    change (Str.includes (y ++ sep ++ Str.join sep (z :: l)) p = true).
    apply includes_app_r, includes_app_r. auto.
Qed.

(** A field name on the list of sensitive names. *)
Definition is_sensitive (k : string) : bool :=
  existsb (fun f => String.eqb f k) sensitiveFields.

#[local] Arguments is_sensitive : simpl never.

(** What [sanitizeApiResponse] makes of one property. *)
Definition redactEntry (kv : string * json) : string * json :=
  if is_sensitive (fst kv) then (fst kv, REDACTED) else kv.

Definition redactIn (l : list string) (kv : string * json) : string * json :=
  if existsb (fun f => String.eqb f (fst kv)) l then (fst kv, REDACTED) else kv.

Lemma lookup_None_not_key (f : string) (fs : list (string * json)) :
  Obj.lookup f fs = None -> forall kv, In kv fs -> String.eqb f (fst kv) = false.
Proof.
  induction fs as [|[k v] fs IH]; intros H kv Hin; [contradiction|].
  cbn in H. destruct (String.eqb f k) eqn:E; [discriminate|].
  destruct Hin as [<-|Hin]; [exact E|auto].
Qed.

Lemma set_as_map (f : string) (v : json) (fs : list (string * json)) :
  NoDup (List.map fst fs) ->
  Obj.has f fs = true ->
  Obj.set f v fs
  = List.map (fun kv => if String.eqb f (fst kv) then (fst kv, v) else kv) fs.
Proof.
  unfold Obj.has.
  induction fs as [|[k x] fs IH]; intros Hnd Hhas; [discriminate|].
  cbn in *. inversion Hnd as [|? ? Hnotin Hnd']; subst.
  destruct (String.eqb f k) eqn:E.
  - apply String.eqb_eq in E. subst k. f_equal.
    rewrite <- (map_id fs) at 1. apply map_ext_in. intros [k' x'] Hin.
    cbn. destruct (String.eqb f k') eqn:E'; [|reflexivity].
    apply String.eqb_eq in E'. subst k'. exfalso. apply Hnotin.
    change f with (fst (f, x')). apply in_map. exact Hin.
  - f_equal. apply IH; assumption.
Qed.

Lemma redact_as_map (f : string) (fs : list (string * json)) :
  NoDup (List.map fst fs) ->
  redact fs f = List.map (redactIn [f]) fs.
Proof.
  intros Hnd. unfold redact.
  destruct (Obj.has f fs) eqn:Hhas.
  - rewrite (set_as_map f REDACTED fs Hnd Hhas). apply map_ext. intros kv.
    unfold redactIn. cbn. rewrite orb_false_r. reflexivity.
  - unfold Obj.has in Hhas.
    destruct (Obj.lookup f fs) eqn:Hl; [discriminate|].
    rewrite <- (map_id fs) at 1. apply map_ext_in. intros kv Hin.
    unfold redactIn. cbn. rewrite (lookup_None_not_key f fs Hl kv Hin). reflexivity.
Qed.

Lemma redactIn_keys (l : list string) (fs : list (string * json)) :
  List.map fst (List.map (redactIn l) fs) = List.map fst fs.
Proof.
  rewrite map_map. apply map_ext. intros kv. unfold redactIn.
  destruct (existsb _ l); reflexivity.
Qed.

Lemma redact_fold_as_map (l : list string) :
  forall fs, NoDup (List.map fst fs) ->
             List.fold_left redact l fs = List.map (redactIn l) fs.
Proof.
  induction l as [|f l IH]; intros fs Hnd.
  - cbn. rewrite <- (map_id fs) at 1. reflexivity.
  - cbn [fold_left]. rewrite (redact_as_map f fs Hnd).
    rewrite IH by (rewrite redactIn_keys; exact Hnd).
    rewrite map_map. apply map_ext. intros [k v].
    unfold redactIn. cbn.
    destruct (String.eqb f k); cbn; [|reflexivity].
    destruct (existsb _ l); reflexivity.
Qed.

(** [sanitizeApiResponse] on an object: every property whose name is on the
    list gets the marker, every other property is kept as it is. *)
Lemma sanitize_object (fs : list (string * json)) :
  NoDup (List.map fst fs) ->
  sanitizeApiResponse (Some (JObj fs)) = Some (JObj (List.map redactEntry fs)).
Proof.
  intros Hnd. unfold sanitizeApiResponse.
  cbn [truthy typeof_object negb orb Obj.spread].
  rewrite (redact_fold_as_map sensitiveFields fs Hnd). reflexivity.
Qed.

(** Two payloads that differ at most in the values of sensitive properties. *)
Definition sameButSensitive (fs fs' : list (string * json)) : Prop :=
  Forall2 (fun a b => fst a = fst b
                      /\ (is_sensitive (fst a) = false -> snd a = snd b))
          fs fs'.

Lemma sameButSensitive_redact (fs fs' : list (string * json)) :
  sameButSensitive fs fs' ->
  List.map redactEntry fs = List.map redactEntry fs'.
Proof.
  induction 1 as [|[k v] [k' v'] fs fs' [Hk Hv] _ IH]; [reflexivity|].
  cbn in *. subst k'. f_equal; [|exact IH].
  unfold redactEntry. cbn. destruct (is_sensitive k); [reflexivity|].
  rewrite (Hv eq_refl). reflexivity.
Qed.

Lemma sameButSensitive_keys (fs fs' : list (string * json)) :
  sameButSensitive fs fs' -> List.map fst fs' = List.map fst fs.
Proof.
  induction 1 as [|a b fs fs' [Hk _] _ IH]; [reflexivity|].
  cbn. rewrite Hk, IH. reflexivity.
Qed.

Lemma sameButSensitive_lookup (k : string) (fs fs' : list (string * json)) :
  is_sensitive k = false ->
  sameButSensitive fs fs' -> Obj.lookup k fs' = Obj.lookup k fs.
Proof.
  intros Hk. induction 1 as [|[a v] [b v'] fs fs' [Hab Hv] _ IH]; [reflexivity|].
  cbn in *. subst b. destruct (String.eqb k a) eqn:E; [|exact IH].
  apply String.eqb_eq in E. subst a. rewrite (Hv Hk). reflexivity.
Qed.

Lemma stringify_object_includes_marker (fs : list (string * json)) (k : string) :
  In k (List.map fst fs) -> is_sensitive k = true ->
  Str.includes (Json.stringify (JObj (List.map redactEntry fs))) "[REDACTED]" = true.
Proof.
  intros Hin Hk.
  change (Json.stringify (JObj (List.map redactEntry fs)))
    with ("{" ++ Str.join ","
                   (List.map (fun kv => Json.quote (fst kv) ++ ":" ++ Json.stringify (snd kv))
                      (List.map redactEntry fs)) ++ "}").
  apply (includes_app_r "{"), includes_app_l.
  apply in_map_iff in Hin. destruct Hin as ([k' v] & Hfst & Hin). cbn in Hfst. subst k'.
  apply (includes_join "," "[REDACTED]"
           (Json.quote k ++ ":" ++ Json.stringify REDACTED)).
  - apply in_map_iff. exists (k, REDACTED). split; [reflexivity|].
    apply in_map_iff. exists (k, v). split; [|exact Hin].
    unfold redactEntry. cbn. rewrite Hk. reflexivity.
  - apply includes_app_r, includes_app_r. reflexivity.
Qed.

Section RedactionProperties.

Variable pf : Platform.
Variable cfg : Config.

(** The request was not aborted. *)
Definition notCanceled (e : JsError) : Prop :=
  String.eqb (err_name e) "CanceledError" = false
  /\ opt_eqb (err_code e) "ERR_CANCELED" = false.

(** The response is neither of the two that ask for a new login: 400 with
    [invalid_grant], and 401. *)
Definition notRelogin (st : Z) (fs : list (string * json)) : Prop :=
  st <> 401
  /\ (st = 400 -> Obj.lookup "error" fs <> Some (JStr "invalid_grant")).

(** The message for an HTTP error that carries the object [fs]. *)
Definition apiErrorMessage (st : Z) (fs : list (string * json)) : string :=
  "OIDC API error (" ++ Str.of_Z st ++ "): "
    ++ Json.stringify (JObj (List.map redactEntry fs)).

Lemma refreshError_api (endpoint : string) (e : JsError) (st : Z)
    (fs : list (string * json)) :
  err_response e = Some {| status := st; data := Some (JObj fs) |} ->
  notCanceled e -> notRelogin st fs -> NoDup (List.map fst fs) ->
  refreshError cfg endpoint e = Error_ (apiErrorMessage st fs).
Proof.
  intros Hresp (Hname & Hcode) (H401 & H400) Hnd.
  unfold refreshError. rewrite Hname, Hcode, Hresp.
  cbn [orb status data prop].
  replace (st =? 401) with false by (symmetry; apply Z.eqb_neq; exact H401).
  rewrite (sanitize_object fs Hnd).
  destruct (st =? 400) eqn:E400; [|reflexivity].
  apply Z.eqb_eq in E400. specialize (H400 E400).
  destruct (Obj.lookup "error" fs) as [[| | |s| |]|]; try reflexivity.
  destruct (String.eqb s "invalid_grant") eqn:Es; [|reflexivity].
  apply String.eqb_eq in Es. subst s. contradiction.
Qed.

Lemma notRelogin_same (st : Z) (fs fs' : list (string * json)) :
  sameButSensitive fs fs' -> notRelogin st fs -> notRelogin st fs'.
Proof.
  intros Hsame (H401 & H400). split; [exact H401|].
  intros E. rewrite (sameButSensitive_lookup "error" fs fs' eq_refl Hsame). auto.
Qed.

Lemma refreshToken_rejected (credentials : Credentials) (w : World) (e : JsError) :
  oidc w (requests w) = Rejected e ->
  exists w',
    refreshToken pf cfg credentials w
    = (Throw (ThrowErr (refreshError cfg (getOidcEndpoint cfg) e)), w').
Proof.
  intros Hreply.
  destruct (refreshToken_run pf cfg credentials w) as (w' & _ & Hrun & _).
  rewrite Hreply in Hrun. exists w'. exact Hrun.
Qed.

(** C5, as the code has it.  When the endpoint answers with an HTTP error
    other than 400 [invalid_grant] and 401 and the payload is an object,
    [refreshToken] rejects with the message [OIDC API error (status): ]
    followed by the JSON text of the payload in which every top-level
    property named on [sensitiveFields] has the value [[REDACTED]] and every
    other property is unchanged.  The message contains the marker when such
    a property is present, and it does not depend on the values those
    properties had: two payloads that differ only there give the same
    error. *)
Theorem C5_api_error_redacted (credentials : Credentials) (w : World)
    (e : JsError) (st : Z) (fs : list (string * json)) :
  oidc w (requests w) = Rejected e ->
  err_response e = Some {| status := st; data := Some (JObj fs) |} ->
  notCanceled e -> notRelogin st fs -> NoDup (List.map fst fs) ->
  exists err w',
    refreshToken pf cfg credentials w = (Throw (ThrowErr err), w')
    /\ err_message err = apiErrorMessage st fs
    /\ ((exists k, In k (List.map fst fs) /\ is_sensitive k = true) ->
        Str.includes (err_message err) "[REDACTED]" = true)
    /\ (forall (w2 : World) (e2 : JsError) (fs2 : list (string * json)),
           oidc w2 (requests w2) = Rejected e2 ->
           err_response e2 = Some {| status := st; data := Some (JObj fs2) |} ->
           notCanceled e2 ->
           sameButSensitive fs fs2 ->
           exists w2',
             refreshToken pf cfg credentials w2 = (Throw (ThrowErr err), w2')).
Proof.
  intros Hreply Hresp Hnc Hnr Hnd.
  destruct (refreshToken_rejected credentials w e Hreply) as (w' & Hrun).
  rewrite (refreshError_api _ e st fs Hresp Hnc Hnr Hnd) in Hrun.
  exists (Error_ (apiErrorMessage st fs)), w'.
  split; [exact Hrun|]. split; [reflexivity|]. split.
  - intros (k & Hin & Hk). cbn [err_message Error_]. unfold apiErrorMessage.
    apply includes_app_r, includes_app_r, includes_app_r.
    apply (stringify_object_includes_marker fs k Hin Hk).
  - intros w2 e2 fs2 Hreply2 Hresp2 Hnc2 Hsame.
    destruct (refreshToken_rejected credentials w2 e2 Hreply2) as (w2' & Hrun2).
    exists w2'. rewrite Hrun2. do 3 f_equal.
    rewrite (refreshError_api _ e2 st fs2 Hresp2 Hnc2).
    + unfold apiErrorMessage.
      rewrite (sameButSensitive_redact fs fs2 Hsame). reflexivity.
    + apply (notRelogin_same st fs fs2 Hsame Hnr).
    + rewrite (sameButSensitive_keys fs fs2 Hsame). exact Hnd.
Qed.

End RedactionProperties.

(** The payload of the unit test of the sanitizer. *)
Definition sample_leaky_payload : list (string * json) :=
  [("error", JStr "server_error");
   ("accessToken", JStr "should-be-redacted");
   ("clientSecret", JStr "should-be-redacted");
   ("password", JStr "should-be-redacted")].

Definition sample_serverError : JsError :=
  {| err_name := "AxiosError";
     err_message := "Request failed with status code 500";
     err_code := Some "ERR_BAD_RESPONSE";
     err_response :=
       Some {| status := 500; data := Some (JObj sample_leaky_payload) |} |}.

Lemma C5_api_error_redacted_witness :
  let w := Sample.world Sample.in4min (fun _ => Rejected sample_serverError) 0 in
  exists err w',
    refreshToken Sample.platform Sample.config Sample.credentials w
    = (Throw (ThrowErr err), w')
    /\ err_message err = apiErrorMessage 500 sample_leaky_payload
    /\ ((exists k, In k (List.map fst sample_leaky_payload) /\ is_sensitive k = true) ->
        Str.includes (err_message err) "[REDACTED]" = true)
    /\ (forall (w2 : World) (e2 : JsError) (fs2 : list (string * json)),
           oidc w2 (requests w2) = Rejected e2 ->
           err_response e2 = Some {| status := 500; data := Some (JObj fs2) |} ->
           notCanceled e2 ->
           sameButSensitive sample_leaky_payload fs2 ->
           exists w2',
             refreshToken Sample.platform Sample.config Sample.credentials w2
             = (Throw (ThrowErr err), w2')).
Proof.
  apply (C5_api_error_redacted Sample.platform Sample.config Sample.credentials
           (Sample.world Sample.in4min (fun _ => Rejected sample_serverError) 0)
           sample_serverError 500 sample_leaky_payload).
  - reflexivity.
  - reflexivity.
  - split; reflexivity.
  - split; [lia|intros H; discriminate H].
  - repeat constructor; cbn; intuition discriminate.
Defined.

(** C5 as stated fails.  First, a 401 response whose payload has an
    [accessToken]: the error message has no marker (the payload is dropped
    altogether).  Second, a 500 response whose payload has an [accessToken]
    one level down: the message contains its value. *)
Definition sample_unauthorizedWithToken : AxiosReply :=
  Sample.httpError 401 (JObj [("error", JStr "invalid_client");
                              ("accessToken", JStr "tok-123")]).

Definition sample_nestedToken : AxiosReply :=
  Sample.httpError 500
    (JObj [("error", JStr "server_error");
           ("details", JObj [("accessToken", JStr "tok-123")])]).

Definition thrown_message {A} (r : Outcome A * World) : string :=
  match fst r with
  | Throw (ThrowErr e) => err_message e
  | _ => EmptyString
  end.

Lemma C5_counterexample :
  let run reply :=
    refreshToken Sample.platform Sample.config Sample.credentials
      (Sample.world Sample.in4min (fun _ => reply) 0) in
  (thrown_message (run sample_unauthorizedWithToken)
   = "Client credentials are invalid" ++ Str.nl
       ++ "Please run: aws sso login --profile test-profile"
   /\ Str.includes (thrown_message (run sample_unauthorizedWithToken))
        "[REDACTED]" = false)
  /\ Str.includes (thrown_message (run sample_nestedToken)) "tok-123" = true.
Proof.
  vm_compute. repeat split.
Qed.

(* ------------------------------------------------------------------ *)
(** *** The scheduler cycle at fatal exchange failures *)

(** The cycle called [notifier.notifyReloginRequired()]. *)
Definition reloginReported (evs : list Event) : bool :=
  existsb (fun ev => match ev with
                     | EvNotify NotifyReloginRequired => true
                     | _ => false
                     end) evs.

(** The cycle called [notifier.notifyError(message)]. *)
Definition errorReported (message : string) (evs : list Event) : bool :=
  existsb (fun ev => match ev with
                     | EvNotify (NotifyError m) => String.eqb m message
                     | _ => false
                     end) evs.

(** The cycle logged the warning of the failure counter at its maximum. *)
Definition failuresWarned (evs : list Event) : bool :=
  existsb (fun ev => match ev with
                     | EvLog LWarning m => String.eqb m failuresWarning
                     | _ => false
                     end) evs.

(** C6 at the failing input.  The token is due and the endpoint answers
    HTTP 401.  The cycle makes one request, leaves the cache file as it was
    and adds one to the failure counter, but it reports the failure through
    [notifyError] and not through [notifyReloginRequired].  With 400
    [invalid_grant] in place of 401 the same cycle does report
    [notifyReloginRequired]. *)
Theorem C6_unauthorized_not_reported_as_relogin :
  let w401 := Sample.world Sample.in4min (fun _ => Sample.unauthorized) 2 in
  let w400 := Sample.world Sample.in4min (fun _ => Sample.invalidGrant) 2 in
  let r401 := refreshTokenIfNeeded Sample.platform Sample.config w401 in
  let r400 := refreshTokenIfNeeded Sample.platform Sample.config w400 in
  (fst r401 = Ok tt
   /\ requests (snd r401) = 1%nat
   /\ cacheDir (snd r401) = cacheDir w401
   /\ consecutiveFailures (snd r401) = 3
   /\ reloginReported (events (snd r401)) = false
   /\ errorReported ("Client credentials are invalid" ++ Str.nl
                       ++ "Please run: aws sso login --profile test-profile")
        (events (snd r401)) = true)
  /\ (fst r400 = Ok tt
      /\ requests (snd r400) = 1%nat
      /\ cacheDir (snd r400) = cacheDir w400
      /\ consecutiveFailures (snd r400) = 3
      /\ reloginReported (events (snd r400)) = true).
Proof.
  vm_compute. repeat split.
Qed.

(** C8 at the failing input.  With [MAX_RETRY_ATTEMPTS=0], four failures so
    far and a token that is due, [refreshTokenWithRetry] rejects with
    [undefined]; the [catch] block of the cycle adds one to the counter,
    which reaches the maximum of five, and then fails on [error.message]
    before it logs the warning: the cycle itself rejects with a [TypeError]
    and no warning is emitted.  The timer stays armed.  With three attempts
    allowed and an endpoint that times out, the same cycle does emit the
    warning. *)
Theorem C8_no_warning_when_retry_rejects_undefined :
  let w0 := Sample.world Sample.in4min (fun _ => Sample.okReply) 4 in
  let r0 := refreshTokenIfNeeded Sample.platform Sample.config_noRetry w0 in
  let w3 := Sample.world Sample.in4min (fun _ => Sample.timeout) 4 in
  let r3 := refreshTokenIfNeeded Sample.platform Sample.config w3 in
  (fst r0 = Throw (ThrowErr (TypeError_
                     "Cannot read properties of undefined (reading 'message')"))
   /\ consecutiveFailures (snd r0) = MAX_CONSECUTIVE_FAILURES
   /\ failuresWarned (events (snd r0)) = false
   /\ requests (snd r0) = 0%nat
   /\ monitorInterval (snd r0) = true)
  /\ (fst r3 = Ok tt
      /\ consecutiveFailures (snd r3) = MAX_CONSECUTIVE_FAILURES
      /\ failuresWarned (events (snd r3)) = true
      /\ monitorInterval (snd r3) = true).
Proof.
  vm_compute. repeat split.
Qed.

(* ------------------------------------------------------------------ *)
(** *** Exceptions are always [Error] objects in the cache manager *)

(** The computation never throws [undefined]. *)
Definition throwsErrors {A} (m : M A) : Prop :=
  forall w t w', m w = (Throw t, w') -> exists e, t = ThrowErr e.

Lemma te_ret {A} (a : A) : throwsErrors (ret a).
Proof. intros w t w' H. discriminate H. Qed.

Lemma te_get {A} (f : World -> A) : throwsErrors (get f).
Proof. intros w t w' H. discriminate H. Qed.

Lemma te_modify (f : World -> World) : throwsErrors (modify f).
Proof. intros w t w' H. discriminate H. Qed.

Lemma te_log (m : LogMethod) (s : string) : throwsErrors (log m s).
Proof. intros w t w' H. discriminate H. Qed.

Lemma te_throwErr {A} (e : JsError) : throwsErrors (@throwErr A e).
Proof. intros w t w' H. inversion H. eauto. Qed.

Lemma te_throw {A} (e : JsError) : throwsErrors (@throw A (ThrowErr e)).
Proof. intros w t w' H. inversion H. eauto. Qed.

Lemma te_bind {A B} (m : M A) (k : A -> M B) :
  throwsErrors m -> (forall a, throwsErrors (k a)) -> throwsErrors (bind m k).
Proof.
  intros Hm Hk w t w' H. unfold bind in H.
  destruct (m w) as [[a|t0] w0] eqn:E.
  - eapply Hk; eauto.
  - inversion H; subst. eapply Hm; eauto.
Qed.

Lemma te_try_catch {A} (m : M A) (h : Thrown -> M A) :
  throwsErrors m -> (forall e, throwsErrors (h (ThrowErr e))) ->
  throwsErrors (try_catch m h).
Proof.
  intros Hm Hh w t w' H. unfold try_catch in H.
  destruct (m w) as [[a|t0] w0] eqn:E; [discriminate|].
  destruct (Hm _ _ _ E) as (e & ->). eapply Hh; eauto.
Qed.

Lemma te_message_of (e : JsError) : throwsErrors (message_of (ThrowErr e)).
Proof. apply te_ret. Qed.

Lemma te_code_of (e : JsError) : throwsErrors (code_of (ThrowErr e)).
Proof. apply te_ret. Qed.

Lemma te_JSON_parse (t : FileText) : throwsErrors (JSON_parse t).
Proof. destruct t; [apply te_ret|apply te_throwErr]. Qed.

Lemma te_prop_of (v : json) (k : string) : throwsErrors (prop_of v k).
Proof. destruct v; first [apply te_ret|apply te_throwErr]. Qed.

(** One step of the proof that a computation throws only [Error] objects:
    split along the monad operations and the case distinctions. *)
Ltac te_step :=
  match goal with
  | |- throwsErrors (bind _ _) => apply te_bind; [|intros]
  | |- throwsErrors (try_catch _ _) => apply te_try_catch; [|intros]
  | |- throwsErrors (ret _) => apply te_ret
  | |- throwsErrors (get _) => apply te_get
  | |- throwsErrors (modify _) => apply te_modify
  | |- throwsErrors (log _ _) => apply te_log
  | |- throwsErrors (throwErr _) => apply te_throwErr
  | |- throwsErrors (throw (ThrowErr _)) => apply te_throw
  | |- throwsErrors (message_of (ThrowErr _)) => apply te_message_of
  | |- throwsErrors (code_of (ThrowErr _)) => apply te_code_of
  | |- throwsErrors (JSON_parse _) => apply te_JSON_parse
  | |- throwsErrors (prop_of _ _) => apply te_prop_of
  | H : throwsErrors ?m |- throwsErrors ?m => exact H
  | |- throwsErrors (if ?b then _ else _) => destruct b
  | |- throwsErrors (match ?x with _ => _ end) => destruct x
  | |- throwsErrors (let _ := _ in _) => cbv zeta
  end.

Ltac te := repeat te_step.

Section CacheErrors.

Variable pf : Platform.
Variable cfg : Config.

Lemma te_validateAndParseDate (v : jsval) :
  throwsErrors (validateAndParseDate pf v).
Proof. unfold validateAndParseDate. te. Qed.

Lemma te_readAwsConfig : throwsErrors (readAwsConfig pf).
Proof. unfold readAwsConfig. te. Qed.

Lemma te_getSsoStartUrl : throwsErrors (getSsoStartUrl pf cfg).
Proof. unfold getSsoStartUrl. pose proof te_readAwsConfig. te. Qed.

Lemma te_fs_access (n : string) : throwsErrors (fs_access cfg n).
Proof. unfold fs_access. te. Qed.

Lemma te_fs_readFile (n : string) : throwsErrors (fs_readFile cfg n).
Proof. unfold fs_readFile. te. Qed.

Lemma te_fs_readdir : throwsErrors (fs_readdir cfg).
Proof. unfold fs_readdir. te. Qed.

Lemma te_scanCacheFiles (url : string) (names : list string) :
  throwsErrors (scanCacheFiles cfg url names).
Proof.
  induction names as [|n names IH]; cbn [scanCacheFiles]; [apply te_ret|].
  pose proof (te_fs_readFile n). te.
Qed.

Lemma te_getCacheFilePath : throwsErrors (getCacheFilePath pf cfg).
Proof.
  unfold getCacheFilePath.
  pose proof te_getSsoStartUrl. pose proof te_fs_readdir.
  cbv zeta. apply te_bind; [assumption|intros url].
  apply te_bind; [apply te_log|intros _].
  apply te_try_catch.
  - apply te_bind; [apply te_fs_access|intros; apply te_ret].
  - intros e. apply te_bind; [apply te_log|intros _].
    apply te_try_catch.
    + apply te_bind; [assumption|intros files].
      apply te_bind; [apply te_scanCacheFiles|intros found].
      destruct found; [apply te_ret|apply te_throwErr].
    + intros e'. te.
Qed.

Lemma te_missing_fields (v : json) (fields : list string) :
  throwsErrors (missing_fields v fields).
Proof.
  induction fields as [|f fields IH]; cbn [missing_fields]; te.
Qed.

Lemma te_readTokenCache : throwsErrors (readTokenCache pf cfg).
Proof.
  unfold readTokenCache.
  pose proof te_getCacheFilePath.
  apply te_try_catch.
  - apply te_bind; [assumption|intros p].
    apply te_bind; [apply te_fs_readFile|intros c].
    apply te_bind; [apply te_JSON_parse|intros d].
    apply te_bind; [apply te_missing_fields|intros missing].
    destruct missing; [|apply te_throwErr].
    apply te_bind; [apply te_prop_of|intros e].
    apply te_bind; [|intros; te].
    apply te_try_catch; [|intros; te].
    apply te_bind; [apply te_validateAndParseDate|intros; apply te_ret].
  - intros e. unfold readTokenCache_onError. te.
Qed.

End CacheErrors.

(* ------------------------------------------------------------------ *)
(** *** Resolving the cache file *)

(** The parsed configuration is cached for the file as it is now. *)
Definition cfg_ready (c : AwsConfig) (w : World) : Prop :=
  exists m secs,
    awsConfigFile w = Some (m, secs)
    /\ cachedAwsConfig w = Some c
    /\ configFileMtime w = Some m.

(** What the cache manager reads: the cached configuration and the cache
    directory. *)
Definition cacheState (c : AwsConfig) (d : Dir) (w : World) : Prop :=
  cfg_ready c w /\ cacheDir w = Some d.

Lemma cacheState_with_events (c : AwsConfig) (d : Dir) (l : list Event) (w : World) :
  cacheState c d w -> cacheState c d (with_events l w).
Proof. intros H. exact H. Qed.

Lemma cacheState_with_cacheDir (c : AwsConfig) (d d' : Dir) (w : World) :
  cacheState c d w -> cacheState c d' (with_cacheDir (Some d') w).
Proof. intros (H & _). split; [exact H|reflexivity]. Qed.

Section CacheResolution.

Variable pf : Platform.
Variable cfg : Config.

(** The start URL [getSsoStartUrl] finds in a parsed configuration. *)
Definition sessionStartUrl (c : AwsConfig) : option string :=
  match assoc ("sso-session " ++ awsSsoSession cfg) c with
  | Some section =>
      match assoc "sso_start_url" section with
      | Some u => if String.eqb u EmptyString then None else Some u
      | None => None
      end
  | None => None
  end.

Lemma readAwsConfig_inv (w w' : World) (c : AwsConfig) :
  readAwsConfig pf w = (Ok c, w') ->
  cfg_ready c w' /\ cacheDir w' = cacheDir w.
Proof.
  unfold readAwsConfig. unfold_monad. cbn.
  destruct (awsConfigFile w) as [[m secs]|] eqn:Hf; [|discriminate].
  destruct (cachedAwsConfig w) as [c0|] eqn:Hc;
    [destruct (configFileMtime w) as [m0|] eqn:Hm;
       [destruct (m0 =? m) eqn:E|]|].
  all: cbn; intros H; inversion H; subst; clear H.
  all: split; [|reflexivity].
  all: try (apply Z.eqb_eq in E; subst m0).
  all: do 2 eexists; cbn; repeat split; eauto.
Qed.

Lemma readAwsConfig_ready (w : World) (c : AwsConfig) :
  cfg_ready c w ->
  exists l, readAwsConfig pf w = (Ok c, with_events l w).
Proof.
  intros (m & secs & Hf & Hc & Hm).
  unfold readAwsConfig. unfold_monad. cbn.
  rewrite Hf, Hc, Hm, Z.eqb_refl. cbn. eexists. reflexivity.
Qed.

Lemma getSsoStartUrl_inv (w w' : World) (url : string) :
  getSsoStartUrl pf cfg w = (Ok url, w') ->
  exists c, cfg_ready c w' /\ sessionStartUrl c = Some url
            /\ cacheDir w' = cacheDir w.
Proof.
  unfold getSsoStartUrl, bind at 1. intros H.
  destruct (readAwsConfig pf w) as [[c|t] w0] eqn:Hr; [|discriminate].
  apply readAwsConfig_inv in Hr. destruct Hr as (Hready & Hdir).
  exists c. unfold sessionStartUrl.
  destruct (assoc ("sso-session " ++ awsSsoSession cfg) c) as [section|];
    [|discriminate].
  destruct (assoc "sso_start_url" section) as [u|]; [|discriminate].
  destruct (String.eqb u EmptyString); [discriminate|].
  unfold_monad. cbn in H. inversion H; subst; clear H.
  repeat split; auto.
Qed.

Lemma getSsoStartUrl_ready (w : World) (c : AwsConfig) (url : string) :
  cfg_ready c w -> sessionStartUrl c = Some url ->
  exists l, getSsoStartUrl pf cfg w = (Ok url, with_events l w).
Proof.
  intros Hready Hurl.
  destruct (readAwsConfig_ready w c Hready) as (l & Hr).
  unfold getSsoStartUrl, bind at 1. rewrite Hr.
  unfold sessionStartUrl in Hurl.
  destruct (assoc ("sso-session " ++ awsSsoSession cfg) c) as [section|];
    [|discriminate].
  destruct (assoc "sso_start_url" section) as [u|]; [|discriminate].
  destruct (String.eqb u EmptyString); [discriminate|].
  inversion Hurl; subst. unfold_monad. cbn. eexists. reflexivity.
Qed.

(** The file [name] of the directory holds a record for this start URL. *)
Definition fileMatches (url : string) (d : Dir) (name : string) : bool :=
  match dir_lookup name d with
  | Some f =>
      match text f with
      | JsonText JNull => false
      | JsonText v => startUrl_matches (prop v "startUrl") url
      | Malformed _ => false
      end
  | None => false
  end.

Lemma scanCacheFiles_run (url : string) (d : Dir) (names : list string) :
  forall w, cacheDir w = Some d ->
            exists l, scanCacheFiles cfg url names w
                      = (Ok (List.find (fileMatches url d) names), with_events l w).
Proof.
  induction names as [|n names IH]; intros w Hd.
  - exists (events w). cbn. unfold ret. destruct w; reflexivity.
  - cbn [scanCacheFiles List.find]. unfold fileMatches at 1.
    unfold bind at 1. unfold try_catch, fs_readFile, bind at 1. unfold get at 1.
    unfold bind at 1. rewrite Hd.
    destruct (dir_lookup n d) as [f|].
    + unfold ret at 1. unfold bind at 1.
      destruct (text f) as [v|s]; cbn [JSON_parse].
      * unfold ret at 1. unfold bind at 1.
        destruct v; cbn [prop_of prop].
        2-6: unfold ret at 1;
          match goal with
          | |- context [startUrl_matches ?x ?u] =>
              destruct (startUrl_matches x u)
          end.
        all: unfold_monad; cbn.
        all: try (eexists; reflexivity).
        all: match goal with
             | |- context [scanCacheFiles _ _ _ ?w0] =>
                 destruct (IH w0 Hd) as (l & Hl); rewrite Hl
             end.
        all: eexists; reflexivity.
      * unfold_monad. cbn.
        match goal with
        | |- context [scanCacheFiles _ _ _ ?w0] =>
            destruct (IH w0 Hd) as (l & Hl); rewrite Hl
        end.
        eexists; reflexivity.
    + unfold_monad. cbn.
      match goal with
      | |- context [scanCacheFiles _ _ _ ?w0] =>
          destruct (IH w0 Hd) as (l & Hl); rewrite Hl
      end.
      eexists; reflexivity.
Qed.

Definition computedName (url : string) : string :=
  sha1_hex pf url ++ ".json".

(** The file [getCacheFilePath] settles on: the file of the computed name if
    it exists, else the first [.json] file of the directory whose record has
    the start URL. *)
Definition resolve (url : string) (d : Dir) : option string :=
  match dir_lookup (computedName url) d with
  | Some _ => Some (computedName url)
  | None =>
      List.find (fileMatches url d)
        (List.filter (fun f => Str.endsWith f ".json") (List.map fst d))
  end.

Definition notFoundError (url : string) : JsError :=
  Error_ (getReloginErrorMessage cfg
            ("Cache file not found: "
               ++ path_join (awsSsoCacheDir cfg) (computedName url) ++ Str.nl
               ++ "No cache file in " ++ awsSsoCacheDir cfg
               ++ " matches startUrl: " ++ url)).

Definition resolveOutcome (url : string) (d : Dir) : Outcome string :=
  match resolve url d with
  | Some p => Ok p
  | None => Throw (ThrowErr (notFoundError url))
  end.

(** [getCacheFilePath] once the start URL is known. *)
Definition locate (startUrl : string) : M string :=
  let cacheDirName := awsSsoCacheDir cfg in
  let computedFilename := sha1_hex pf startUrl ++ ".json" in
  let computedPath := path_join cacheDirName computedFilename in
  log LDebug "Computed cache file path" ;;;
  try_catch
    (fs_access cfg computedFilename ;;; ret computedFilename)
    (fun _ =>
       log LDebug "Computed cache path not found, searching directory for matching startUrl" ;;;
       try_catch
         (files <- fs_readdir cfg ;;
          let jsonFiles := List.filter (fun f => Str.endsWith f ".json") files in
          found <- scanCacheFiles cfg startUrl jsonFiles ;;
          match found with
          | Some filePath => ret filePath
          | None =>
              throwErr (Error_ (getReloginErrorMessage cfg
                                  ("Cache file not found: " ++ computedPath ++ Str.nl
                                     ++ "No cache file in " ++ cacheDirName
                                     ++ " matches startUrl: " ++ startUrl)))
          end)
         (fun err =>
            code <- code_of err ;;
            match code with
            | Some c =>
                if String.eqb c "ENOENT" then
                  throwErr (Error_ (getReloginErrorMessage cfg
                                      ("Cache directory not found: " ++ cacheDirName ++ Str.nl
                                         ++ "Please ensure AWS CLI is installed and run: aws sso login --profile "
                                         ++ awsSsoProfile cfg)))
                else throw err
            | None => throw err
            end)).

Lemma getCacheFilePath_locate :
  getCacheFilePath pf cfg = bind (getSsoStartUrl pf cfg) locate.
Proof. reflexivity. Qed.

Lemma locate_run (url : string) (d : Dir) (w : World) :
  cacheDir w = Some d ->
  exists l, locate url w = (resolveOutcome url d, with_events l w).
Proof.
  intros Hd. unfold locate, resolveOutcome, resolve, computedName.
  cbv zeta. unfold bind at 1. unfold log at 1, emit, modify.
  unfold try_catch at 1. unfold bind at 1. unfold fs_access, bind at 1, get at 1.
  cbn [cacheDir with_events]. rewrite Hd.
  destruct (dir_lookup (sha1_hex pf url ++ ".json") d) as [f|].
  - unfold_monad. cbn. eexists. reflexivity.
  - unfold throwErr at 1, throw at 1. unfold bind at 1.
    unfold log at 1, emit, modify.
    unfold try_catch at 1. unfold bind at 1. unfold fs_readdir, bind at 1, get at 1.
    cbn [cacheDir with_events]. rewrite Hd. unfold ret at 1. unfold bind at 1.
    match goal with
    | |- context [scanCacheFiles _ _ ?names ?w0] =>
        destruct (scanCacheFiles_run url d names w0 Hd) as (l & Hl); rewrite Hl
    end.
    destruct (List.find _ _) as [p|].
    + unfold_monad. cbn. eexists. reflexivity.
    + unfold_monad. cbn. unfold notFoundError, computedName. eexists. reflexivity.
Qed.

Lemma locate_nodir (url : string) (w : World) :
  cacheDir w = None -> exists t w', locate url w = (Throw t, w').
Proof.
  intros Hd. unfold locate. cbv zeta.
  unfold fs_access, fs_readdir, code_of, ENOENT, FsError. unfold_monad. cbn.
  repeat (rewrite Hd; cbn). rewrite String.eqb_refl.
  do 2 eexists. reflexivity.
Qed.

Lemma getCacheFilePath_run (c : AwsConfig) (d : Dir) (url : string) (w : World) :
  cacheState c d w -> sessionStartUrl c = Some url ->
  exists l, getCacheFilePath pf cfg w = (resolveOutcome url d, with_events l w).
Proof.
  intros (Hready & Hd) Hurl.
  destruct (getSsoStartUrl_ready w c url Hready Hurl) as (l & Hl).
  rewrite getCacheFilePath_locate. unfold bind. rewrite Hl.
  destruct (locate_run url d (with_events l w) Hd) as (l' & Hl').
  rewrite Hl'. exists l'. reflexivity.
Qed.

Lemma getCacheFilePath_inv (w w' : World) (p : string) :
  getCacheFilePath pf cfg w = (Ok p, w') ->
  exists c url d,
    cacheState c d w' /\ sessionStartUrl c = Some url /\ resolve url d = Some p.
Proof.
  rewrite getCacheFilePath_locate. unfold bind. intros H.
  destruct (getSsoStartUrl pf cfg w) as [[url|t] w0] eqn:Hs; [|discriminate].
  apply getSsoStartUrl_inv in Hs. destruct Hs as (c & Hready & Hurl & Hdir).
  destruct (cacheDir w0) as [d|] eqn:Hd.
  - destruct (locate_run url d w0 Hd) as (l & Hl). rewrite Hl in H.
    unfold resolveOutcome in H.
    destruct (resolve url d) as [p'|] eqn:Hres; [|discriminate].
    inversion H; subst; clear H.
    exists c, url, d. repeat split; auto.
  - destruct (locate_nodir url w0 Hd) as (t & w1 & Hl). rewrite Hl in H.
    discriminate.
Qed.

End CacheResolution.

(* ------------------------------------------------------------------ *)
(** *** Reading and writing the cache file *)

Lemma prop_of_nonnull (v : json) (k : string) :
  v <> JNull -> prop_of v k = ret (prop v k).
Proof. destruct v; intros H; [contradiction| | | | |]; reflexivity. Qed.

Lemma missing_fields_run (v : json) (fields : list string) (w : World) :
  v <> JNull ->
  missing_fields v fields w
  = (Ok (List.filter (fun f => negb (truthy (prop v f))) fields), w).
Proof.
  intros Hv. induction fields as [|f fields IH]; [reflexivity|].
  cbn [missing_fields List.filter]. rewrite (prop_of_nonnull v f Hv).
  unfold bind, ret in *. rewrite IH.
  destruct (truthy (prop v f)); reflexivity.
Qed.

Lemma filter_nil_Forall {A} (p : A -> bool) (l : list A) :
  List.filter (fun x => negb (p x)) l = [] -> Forall (fun x => p x = true) l.
Proof.
  induction l as [|x l IH]; intros H; [constructor|].
  cbn in H. destruct (p x) eqn:E; cbn in H; [|discriminate].
  constructor; auto.
Qed.

Lemma Forall_filter_nil {A} (p : A -> bool) (l : list A) :
  Forall (fun x => p x = true) l -> List.filter (fun x => negb (p x)) l = [].
Proof.
  induction 1 as [|x l Hx _ IH]; [reflexivity|].
  cbn. rewrite Hx. cbn. exact IH.
Qed.

#[local] Arguments readTokenCache_onError : simpl never.
#[local] Arguments writeTokenCache_onError : simpl never.

(** The branch ends in the [catch] block, which cannot return. *)
Ltac read_fails Hfail :=
  unfold throwErr, throw, bind, try_catch, ret, message_of; cbn;
  let H := fresh "H" in
  intros H; exfalso; eapply Hfail; exact H.

Section CacheReadWrite.

Variable pf : Platform.
Variable cfg : Config.

(** A record [readTokenCache] accepts: the five required fields are there
    and [expiresAt] is a date. *)
Definition usable (rec : json) : Prop :=
  rec <> JNull
  /\ Forall (fun f => truthy (prop rec f) = true) required
  /\ exists s t, prop rec "expiresAt" = Some (JStr s)
                 /\ s <> EmptyString /\ Date_parse pf s = Some t.

Lemma readTokenCache_onError_throws (error : Thrown) (w : World) :
  exists t w', readTokenCache_onError pf cfg error w = (Throw t, w').
Proof.
  unfold readTokenCache_onError. destruct error as [e|]; unfold_monad; cbn.
  - destruct (err_code e) as [c|]; [|eauto].
    destruct (String.eqb c "ENOENT"); [|eauto].
    destruct (getCacheFilePath pf cfg w) as [[p|t] w0]; unfold_monad; eauto.
  - eauto.
Qed.

(** A successful read tells where the record came from and that it is
    usable. *)
Lemma readTokenCache_inv (w w1 : World) (rec : json) :
  readTokenCache pf cfg w = (Ok rec, w1) ->
  exists c url d p f,
    cacheState c d w1 /\ sessionStartUrl cfg c = Some url
    /\ resolve pf url d = Some p
    /\ dir_lookup p d = Some f /\ text f = JsonText rec
    /\ usable rec.
Proof.
  assert (Hfail : forall t w0, readTokenCache_onError pf cfg t w0 <> (Ok rec, w1)).
  { intros t w0 H. destruct (readTokenCache_onError_throws t w0) as (t' & w' & Ht).
    rewrite Ht in H. discriminate. }
  unfold readTokenCache, try_catch. unfold bind at 1.
  destruct (getCacheFilePath pf cfg w) as [[p|t] w0] eqn:Hp;
    [|read_fails Hfail].
  apply getCacheFilePath_inv in Hp.
  destruct Hp as (c & url & d & (Hready & Hd) & Hurl & Hres).
  unfold fs_readFile, bind at 1, get at 1. unfold bind at 1. rewrite Hd.
  destruct (dir_lookup p d) as [f|] eqn:Hf;
    [|read_fails Hfail].
  unfold ret at 1. unfold bind at 1.
  destruct (text f) as [v|s] eqn:Ht; cbn [JSON_parse];
    [|read_fails Hfail].
  unfold ret at 1. unfold bind at 1.
  assert (Hv : v = JNull \/ v <> JNull)
    by (destruct v; [left; reflexivity|right; discriminate..]).
  destruct Hv as [->|Hv];
    [unfold required; cbn [missing_fields prop_of]; read_fails Hfail|].
  rewrite (missing_fields_run v required w0 Hv).
  destruct (List.filter _ required) as [|m ms] eqn:Hmiss;
    [|read_fails Hfail].
  apply filter_nil_Forall in Hmiss.
  rewrite (prop_of_nonnull v "expiresAt" Hv).
  unfold bind, ret. cbv beta iota.
  destruct (validateAndParseDate pf (prop v "expiresAt") w0) as [[t|t] w2] eqn:Hdate.
  - apply validateAndParseDate_ok_inv in Hdate.
    destruct Hdate as (-> & s & Hs & Hne & Hparse).
    unfold_monad. cbn. intros H. inversion H; subst; clear H.
    exists c, url, d, p, f. repeat split; auto.
    exists s, t. auto.
  - destruct (te_validateAndParseDate pf _ _ _ _ Hdate) as (e & ->).
    read_fails Hfail.
Qed.

(** In a state where the path resolves to a file with a usable record, the
    read returns that record. *)
Lemma readTokenCache_run (c : AwsConfig) (d : Dir) (url p : string) (f : File)
    (rec : json) (w : World) :
  cacheState c d w -> sessionStartUrl cfg c = Some url ->
  resolve pf url d = Some p ->
  dir_lookup p d = Some f -> text f = JsonText rec -> usable rec ->
  exists l, readTokenCache pf cfg w = (Ok rec, with_events l w).
Proof.
  intros Hst Hurl Hres Hf Ht (Hv & Hreq & s & t & Hs & Hne & Hparse).
  destruct (getCacheFilePath_run pf cfg c d url w Hst Hurl) as (l & Hl).
  unfold resolveOutcome in Hl. rewrite Hres in Hl.
  destruct Hst as (Hready & Hd).
  unfold readTokenCache, try_catch. unfold bind at 1. rewrite Hl.
  unfold fs_readFile, bind at 1, get at 1. unfold bind at 1.
  cbn [cacheDir with_events]. rewrite Hd, Hf.
  unfold ret at 1. unfold bind at 1. rewrite Ht. cbn [JSON_parse].
  unfold ret at 1. unfold bind at 1.
  rewrite (missing_fields_run rec required _ Hv).
  rewrite (Forall_filter_nil _ _ Hreq).
  rewrite (prop_of_nonnull rec "expiresAt" Hv).
  unfold bind, ret. cbv beta iota.
  rewrite Hs. rewrite (validateAndParseDate_valid pf s t _ Hne Hparse).
  unfold_monad. cbn. eexists. reflexivity.
Qed.

End CacheReadWrite.

(* ------------------------------------------------------------------ *)
(** *** The status summary *)

(** The text [formatTimeRemaining] renders for a remaining time in
    milliseconds. *)
Definition formatRemaining (ms : Z) : string :=
  let minutes := ms / 60000 in
  let hours := minutes / 60 in
  if 0 <? hours
  then Str.of_Z hours ++ "h " ++ Str.of_Z (Z.rem minutes 60) ++ "m"
  else Str.of_Z minutes ++ "m".

(** The object [getTokenStatus] returns when the read fails. *)
Definition errorStatus (message : string) : TokenStatus :=
  {| st_expiresAt := None;
     st_timeUntilExpiry := None;
     st_expired := true;
     st_needsRefresh := true;
     st_formattedTimeRemaining := None;
     st_error := Some message |}.

Section StatusProperties.

Variable pf : Platform.
Variable cfg : Config.

Lemma formatTimeRemaining_valid (s : string) (t : Z) (w : World) :
  s <> EmptyString ->
  Date_parse pf s = Some t ->
  formatTimeRemaining pf (Some (JStr s)) w = (Ok (formatRemaining (t - clock w)), w).
Proof.
  intros Hs Ht. unfold formatTimeRemaining, bind.
  rewrite (getTimeUntilExpiry_valid pf s t w Hs Ht).
  unfold formatRemaining. cbv zeta.
  destruct (0 <? (t - clock w) / 60000 / 60); reflexivity.
Qed.

End StatusProperties.

(* ------------------------------------------------------------------ *)
(** *** Directories and object properties *)

Lemma dir_lookup_set_eq (n : string) (f : File) (d : Dir) :
  dir_lookup n (dir_set n f d) = Some f.
Proof.
  induction d as [|[m g] d IH]; cbn.
  - rewrite String.eqb_refl. reflexivity.
  - destruct (String.eqb n m) eqn:E; cbn; rewrite E; auto.
Qed.

Lemma dir_lookup_set_neq (n m : string) (f : File) (d : Dir) :
  n <> m -> dir_lookup n (dir_set m f d) = dir_lookup n d.
Proof.
  intros Hne. apply String.eqb_neq in Hne.
  induction d as [|[k g] d IH]; cbn.
  - rewrite Hne. reflexivity.
  - destruct (String.eqb m k) eqn:E; cbn.
    + apply String.eqb_eq in E. subst k. rewrite Hne. reflexivity.
    + destruct (String.eqb n k); auto.
Qed.

Lemma dir_lookup_remove_neq (n m : string) (d : Dir) :
  n <> m -> dir_lookup n (dir_remove m d) = dir_lookup n d.
Proof.
  intros Hne. apply String.eqb_neq in Hne.
  induction d as [|[k g] d IH]; cbn; [reflexivity|].
  destruct (String.eqb m k) eqn:E; cbn.
  - apply String.eqb_eq in E. subst k. rewrite Hne. exact IH.
  - destruct (String.eqb n k); auto.
Qed.

Lemma keys_set_present (n : string) (f g : File) (d : Dir) :
  dir_lookup n d = Some g -> List.map fst (dir_set n f d) = List.map fst d.
Proof.
  induction d as [|[k h] d IH]; cbn; [discriminate|].
  destruct (String.eqb n k) eqn:E; cbn; intros H.
  - apply String.eqb_eq in E. subst k. reflexivity.
  - f_equal. auto.
Qed.

Lemma keys_set_absent (n : string) (f : File) (d : Dir) :
  dir_lookup n d = None -> List.map fst (dir_set n f d) = (List.map fst d ++ [n])%list.
Proof.
  induction d as [|[k h] d IH]; cbn; [reflexivity|].
  destruct (String.eqb n k) eqn:E; cbn; intros H; [discriminate|].
  f_equal. auto.
Qed.

Lemma keys_remove (n : string) (d : Dir) :
  List.map fst (dir_remove n d)
  = List.filter (fun k => negb (String.eqb n k)) (List.map fst d).
Proof.
  induction d as [|[k h] d IH]; cbn; [reflexivity|].
  destruct (String.eqb n k); cbn; rewrite IH; reflexivity.
Qed.

Lemma obj_lookup_set_eq (k : string) (v : json) (fs : list (string * json)) :
  Obj.lookup k (Obj.set k v fs) = Some v.
Proof.
  induction fs as [|[m x] fs IH]; cbn.
  - rewrite String.eqb_refl. reflexivity.
  - destruct (String.eqb k m) eqn:E; cbn; [rewrite String.eqb_refl|rewrite E]; auto.
Qed.

Lemma obj_lookup_set_neq (k m : string) (v : json) (fs : list (string * json)) :
  k <> m -> Obj.lookup k (Obj.set m v fs) = Obj.lookup k fs.
Proof.
  intros Hne. apply String.eqb_neq in Hne.
  induction fs as [|[n x] fs IH]; cbn.
  - rewrite Hne. reflexivity.
  - destruct (String.eqb m n) eqn:E; cbn.
    + apply String.eqb_eq in E. subst n. rewrite Hne. reflexivity.
    + destruct (String.eqb k n); auto.
Qed.

(** *** The name of the temporary file *)

Lemma append_assoc (a b c : string) : (a ++ b) ++ c = a ++ (b ++ c).
Proof.
  induction a as [|x a IH]; [reflexivity|].
  change ((String x a ++ b) ++ c) with (String x ((a ++ b) ++ c)).
  rewrite IH. reflexivity.
Qed.

Lemma append_nil_r (a : string) : a ++ EmptyString = a.
Proof.
  induction a as [|x a IH]; [reflexivity|].
  change (String x a ++ EmptyString) with (String x (a ++ EmptyString)).
  rewrite IH. reflexivity.
Qed.

Lemma rev_onto_app (s acc : string) : Str.rev_onto s acc = Str.rev s ++ acc.
Proof.
  unfold Str.rev. revert acc.
  induction s as [|c s IH]; intros acc; [reflexivity|].
  cbn [Str.rev_onto]. rewrite (IH (String c acc)), (IH (String c EmptyString)).
  rewrite append_assoc. reflexivity.
Qed.

Lemma rev_cons (c : ascii) (s : string) :
  Str.rev (String c s) = Str.rev s ++ String c EmptyString.
Proof. unfold Str.rev at 1. cbn [Str.rev_onto]. apply rev_onto_app. Qed.

Lemma rev_app (a b : string) : Str.rev (a ++ b) = Str.rev b ++ Str.rev a.
Proof.
  induction a as [|c a IH].
  - change (EmptyString ++ b) with b.
    change (Str.rev EmptyString) with EmptyString.
    rewrite append_nil_r. reflexivity.
  - change (String c a ++ b) with (String c (a ++ b)).
    rewrite !rev_cons, IH, append_assoc. reflexivity.
Qed.

Lemma endsWith_app (a b : string) : Str.endsWith (a ++ b) b = true.
Proof. unfold Str.endsWith. rewrite rev_app. apply startsWith_app. Qed.

Lemma of_pos_fuel_suffix (fuel n : nat) (acc : string) :
  exists pre, Str.of_pos_fuel fuel n acc = pre ++ acc.
Proof.
  revert n acc. induction fuel as [|fuel IH]; intros n acc.
  - exists EmptyString. reflexivity.
  - cbn [Str.of_pos_fuel]. cbv zeta. destruct (Nat.ltb n 10).
    + exists (String (Str.digit (Nat.modulo n 10)) EmptyString). reflexivity.
    + destruct (IH (Nat.div n 10) (String (Str.digit (Nat.modulo n 10)) acc))
        as (pre & Hpre).
      exists (pre ++ String (Str.digit (Nat.modulo n 10)) EmptyString).
      rewrite Hpre, append_assoc. reflexivity.
Qed.

(** A decimal numeral ends with a digit. *)
Lemma of_nat_last_digit (n : nat) :
  exists pre, Str.of_nat n = pre ++ String (Str.digit (Nat.modulo n 10)) EmptyString.
Proof.
  unfold Str.of_nat. cbn [Str.of_pos_fuel]. cbv zeta. destruct (Nat.ltb n 10).
  - exists EmptyString. reflexivity.
  - apply of_pos_fuel_suffix.
Qed.

Lemma digit_not_n (k : nat) : (k < 10)%nat -> Ascii.eqb "n"%char (Str.digit k) = false.
Proof.
  intros H. do 10 (destruct k as [|k]; [reflexivity|]). lia.
Qed.

Section TmpName.

Variable pf : Platform.

(** The temporary file is not a [.json] file: the directory scan skips it. *)
Lemma tmpname_not_json (p : string) : Str.endsWith (tmpname pf p) ".json" = false.
Proof.
  unfold tmpname, Str.endsWith.
  destruct (of_nat_last_digit (tmp_tag pf)) as (pre & Hpre). rewrite Hpre.
  rewrite !rev_app.
  change (Str.rev (String (Str.digit (Nat.modulo (tmp_tag pf) 10)) EmptyString))
    with (String (Str.digit (Nat.modulo (tmp_tag pf) 10)) EmptyString).
  change (Str.rev ".json") with "nosj.".
  change (String ?c EmptyString ++ ?r) with (String c r).
  change ((String ?c ?r ++ ?x) ++ ?y) with (String c ((r ++ x) ++ y)).
  cbn [Str.startsWith].
  rewrite digit_not_n; [reflexivity|].
  apply Nat.mod_upper_bound. discriminate.
Qed.

Lemma tmpname_neq (p : string) : Str.endsWith p ".json" = true -> p <> tmpname pf p.
Proof.
  intros H E. rewrite E in H. rewrite tmpname_not_json in H. discriminate.
Qed.

End TmpName.

(* ------------------------------------------------------------------ *)
(** *** The atomic write and the path it leaves resolvable *)

Lemma find_ext_in {A} (f g : A -> bool) (l : list A) :
  (forall x, In x l -> f x = g x) -> List.find f l = List.find g l.
Proof.
  induction l as [|x l IH]; intros H; [reflexivity|].
  cbn. rewrite <- (H x (or_introl eq_refl)).
  destruct (f x); [reflexivity|]. apply IH. intros y Hy. apply H. right. exact Hy.
Qed.

Definition isJsonName (f : string) : bool := Str.endsWith f ".json".

Section AtomicWrite.

Variable pf : Platform.
Variable cfg : Config.

Lemma resolve_json (url p : string) (d : Dir) :
  resolve pf url d = Some p -> isJsonName p = true.
Proof.
  unfold resolve, computedName, isJsonName.
  destruct (dir_lookup (sha1_hex pf url ++ ".json") d).
  - intros H. inversion H. apply endsWith_app.
  - intros H. apply find_some in H. destruct H as (Hin & _).
    apply filter_In in Hin. apply Hin.
Qed.

Lemma resolve_present (url p : string) (d : Dir) :
  resolve pf url d = Some p -> exists f, dir_lookup p d = Some f.
Proof.
  unfold resolve.
  destruct (dir_lookup (computedName pf url) d) as [f|] eqn:Hc.
  - intros H. inversion H; subst. eauto.
  - intros H. apply find_some in H. destruct H as (_ & Hm).
    unfold fileMatches in Hm. destruct (dir_lookup p d); [eauto|discriminate].
Qed.

(** The path keeps resolving to [p] in a directory that differs from [d]
    only in files that are not [.json] files and in the file [p] itself, as
    long as [p] is still there and carries the same start URL. *)
Lemma resolve_stable (url p : string) (d d' : Dir) :
  (forall n, isJsonName n = true -> n <> p -> dir_lookup n d' = dir_lookup n d) ->
  List.filter isJsonName (List.map fst d') = List.filter isJsonName (List.map fst d) ->
  (exists f', dir_lookup p d' = Some f') ->
  fileMatches url d' p = fileMatches url d p ->
  resolve pf url d = Some p -> resolve pf url d' = Some p.
Proof.
  intros Hother Hkeys (f' & Hp') Hmatch Hres.
  pose proof (resolve_present url p d Hres) as (f & Hp).
  unfold resolve in *.
  destruct (dir_lookup (computedName pf url) d) as [g|] eqn:Hc.
  - inversion Hres; subst. rewrite Hp'. reflexivity.
  - assert (Hne : computedName pf url <> p) by (intros E; congruence).
    rewrite (Hother (computedName pf url)); [|apply endsWith_app|exact Hne].
    rewrite Hc. fold isJsonName in *. rewrite Hkeys, <- Hres.
    apply find_ext_in. intros n Hn. apply filter_In in Hn. destruct Hn as (_ & Hj).
    destruct (String.eqb n p) eqn:E.
    + apply String.eqb_eq in E. subst n. exact Hmatch.
    + apply String.eqb_neq in E. unfold fileMatches. rewrite (Hother n Hj E).
      reflexivity.
Qed.

Lemma filter_json_set_tmp (p : string) (f : File) (d : Dir) :
  List.filter isJsonName (List.map fst (dir_set (tmpname pf p) f d))
  = List.filter isJsonName (List.map fst d).
Proof.
  destruct (dir_lookup (tmpname pf p) d) as [g|] eqn:E.
  - rewrite (keys_set_present _ f g d E). reflexivity.
  - rewrite (keys_set_absent _ f d E), filter_app. cbn.
    unfold isJsonName at 2. rewrite tmpname_not_json. apply app_nil_r.
Qed.

Lemma filter_json_remove_tmp (p : string) (d : Dir) :
  List.filter isJsonName (List.map fst (dir_remove (tmpname pf p) d))
  = List.filter isJsonName (List.map fst d).
Proof.
  rewrite keys_remove.
  induction (List.map fst d) as [|k l IH]; [reflexivity|].
  cbn. destruct (String.eqb (tmpname pf p) k) eqn:E; cbn.
  - apply String.eqb_eq in E. subst k.
    unfold isJsonName at 2. rewrite tmpname_not_json. exact IH.
  - rewrite IH. reflexivity.
Qed.

(** The directory after the first [k] steps of the atomic write of
    [content] to [p]: [k = 0] nothing done, [k = 1] temporary file created,
    [k = 2] temporary file written, [k = 3] renamed. *)
Definition interrupted (k : nat) (p : string) (content : FileText) (d : Dir) : Dir :=
  fs_steps (List.firstn k (writeFileAtomic_steps pf p content 384)) d.

Lemma interrupted_full (p : string) (content : FileText) (d : Dir) :
  interrupted 3 p content d = fs_steps (writeFileAtomic_steps pf p content 384) d.
Proof. reflexivity. Qed.

Lemma interrupted_cases (k : nat) (p : string) (content : FileText) (d : Dir) :
  (k < 3)%nat ->
  interrupted k p content d = d
  \/ interrupted k p content d
     = dir_set (tmpname pf p) {| text := Malformed EmptyString; mode := 384 |} d
  \/ interrupted k p content d
     = dir_set (tmpname pf p) {| text := content; mode := 384 |}
         (dir_set (tmpname pf p) {| text := Malformed EmptyString; mode := 384 |} d).
Proof.
  intros Hk. destruct k as [|[|[|k]]]; [| | |lia].
  - left. reflexivity.
  - right. left. reflexivity.
  - right. right. unfold interrupted, fs_steps, writeFileAtomic_steps.
    cbn [List.firstn List.fold_left fs_step].
    rewrite dir_lookup_set_eq. reflexivity.
Qed.

Lemma interrupted_3 (p : string) (content : FileText) (d : Dir) :
  interrupted 3 p content d
  = dir_set p {| text := content; mode := 384 |}
      (dir_remove (tmpname pf p)
         (dir_set (tmpname pf p) {| text := content; mode := 384 |}
            (dir_set (tmpname pf p)
               {| text := Malformed EmptyString; mode := 384 |} d))).
Proof.
  unfold interrupted, fs_steps, writeFileAtomic_steps.
  cbn [List.firstn List.fold_left fs_step].
  rewrite dir_lookup_set_eq. cbn [mode]. rewrite dir_lookup_set_eq. reflexivity.
Qed.

Lemma interrupted_3_lookup (p : string) (content : FileText) (d : Dir) :
  dir_lookup p (interrupted 3 p content d)
  = Some {| text := content; mode := 384 |}.
Proof. rewrite interrupted_3. apply dir_lookup_set_eq. Qed.

(** Before the rename, every file but the temporary one is as it was, and
    the [.json] files listed are the same. *)
Lemma interrupted_before_rename (k : nat) (p : string) (content : FileText) (d : Dir) :
  (k < 3)%nat ->
  (forall n, n <> tmpname pf p ->
             dir_lookup n (interrupted k p content d) = dir_lookup n d)
  /\ List.filter isJsonName (List.map fst (interrupted k p content d))
     = List.filter isJsonName (List.map fst d).
Proof.
  intros Hk.
  destruct (interrupted_cases k p content d Hk) as [E|[E|E]]; rewrite E.
  - auto.
  - split; [intros n Hn; apply dir_lookup_set_neq; exact Hn|].
    apply filter_json_set_tmp.
  - split; [intros n Hn; rewrite !dir_lookup_set_neq; auto|].
    rewrite !filter_json_set_tmp. reflexivity.
Qed.

(** The directory once [writeTokenCache] is done: renamed, then [chmod]. *)
Definition written (p : string) (content : FileText) (d : Dir) : Dir :=
  dir_set p {| text := content; mode := 384 |} (interrupted 3 p content d).

Lemma written_lookup (p : string) (content : FileText) (d : Dir) :
  dir_lookup p (written p content d) = Some {| text := content; mode := 384 |}.
Proof. apply dir_lookup_set_eq. Qed.

Lemma written_other (p n : string) (content : FileText) (d : Dir) :
  n <> p -> n <> tmpname pf p ->
  dir_lookup n (written p content d) = dir_lookup n d.
Proof.
  intros Hp Ht. unfold written. rewrite interrupted_3.
  rewrite !dir_lookup_set_neq by exact Hp.
  rewrite dir_lookup_remove_neq by exact Ht.
  rewrite !dir_lookup_set_neq by exact Ht. reflexivity.
Qed.

Lemma written_keys (p : string) (content : FileText) (d : Dir) (f : File) :
  dir_lookup p d = Some f -> p <> tmpname pf p ->
  List.filter isJsonName (List.map fst (written p content d))
  = List.filter isJsonName (List.map fst d).
Proof.
  intros Hf Hne. unfold written.
  rewrite (keys_set_present p _ {| text := content; mode := 384 |});
    [|rewrite interrupted_3; apply dir_lookup_set_eq].
  rewrite interrupted_3.
  erewrite keys_set_present;
    [|rewrite dir_lookup_remove_neq by exact Hne;
      rewrite !dir_lookup_set_neq by exact Hne; exact Hf].
  rewrite filter_json_remove_tmp, !filter_json_set_tmp. reflexivity.
Qed.

End AtomicWrite.

(* ------------------------------------------------------------------ *)
(** *** Write, then read *)

Lemma usable_object (pf : Platform) (rec : json) :
  usable pf rec -> exists fs, rec = JObj fs.
Proof.
  intros (_ & Hreq & _). inversion Hreq as [|x l Hx _]; subst.
  destruct rec; try discriminate. eauto.
Qed.

(** The fields of the merged record. *)
Lemma mergeTokens_fields (fs : list (string * json)) (a e : json) (r : jsval) :
  let rec' := mergeTokens (JObj fs) (Some a) (Some e) r in
  prop rec' "accessToken" = Some a
  /\ prop rec' "expiresAt" = Some e
  /\ prop rec' "refreshToken"
     = (if truthy r then r else Obj.lookup "refreshToken" fs)
  /\ (forall k, k <> "accessToken" -> k <> "expiresAt" -> k <> "refreshToken" ->
                prop rec' k = Obj.lookup k fs).
Proof.
  unfold mergeTokens. cbn [Obj.spread Obj.set_js prop].
  destruct (truthy r) eqn:Hr.
  - destruct r as [j|]; [|discriminate]. cbn [Obj.set_js].
    repeat split.
    + rewrite !obj_lookup_set_neq by discriminate. apply obj_lookup_set_eq.
    + rewrite obj_lookup_set_neq by discriminate. apply obj_lookup_set_eq.
    + apply obj_lookup_set_eq.
    + intros k H1 H2 H3. rewrite !obj_lookup_set_neq by assumption. reflexivity.
  - repeat split.
    + rewrite obj_lookup_set_neq by discriminate. apply obj_lookup_set_eq.
    + apply obj_lookup_set_eq.
    + rewrite !obj_lookup_set_neq by discriminate. reflexivity.
    + intros k H1 H2 H3. rewrite !obj_lookup_set_neq by assumption. reflexivity.
Qed.

Lemma mergeTokens_startUrl (cur : json) (a e r : jsval) :
  prop (mergeTokens cur a e r) "startUrl" = Obj.lookup "startUrl" (Obj.spread (Some cur)).
Proof.
  assert (Hset : forall k v fs, k <> "startUrl" ->
                   Obj.lookup "startUrl" (Obj.set_js k v fs) = Obj.lookup "startUrl" fs).
  { intros k v fs Hk. destruct v as [j|]; cbn [Obj.set_js].
    - apply obj_lookup_set_neq. congruence.
    - induction fs as [|[m x] fs IH]; [reflexivity|]. cbn.
      destruct (String.eqb k m) eqn:E.
      + apply String.eqb_eq in E. subst m.
        replace (String.eqb "startUrl" k) with false
          by (symmetry; apply String.eqb_neq; congruence).
        exact IH.
      + cbn. rewrite IH. reflexivity. }
  unfold mergeTokens. cbn [prop].
  destruct (truthy r); rewrite ?Hset by discriminate; reflexivity.
Qed.

#[local] Arguments fs_steps : simpl never.
#[local] Arguments writeFileAtomic_steps : simpl never.
#[local] Arguments mergeTokens : simpl never.

(** An array index is not the property name [startUrl]. *)
Lemma index_not_startUrl (i : nat) : String.eqb "startUrl" (Str.of_nat i) = false.
Proof.
  apply String.eqb_neq. intros E.
  destruct (of_nat_last_digit i) as (pre & Hpre). rewrite Hpre in E.
  assert (Hrev : Str.rev "startUrl"
                 = Str.rev (pre ++ String (Str.digit (i mod 10)) EmptyString))
    by (f_equal; exact E).
  rewrite rev_app in Hrev.
  change (Str.rev (String ?c EmptyString) ++ ?r) with (String c r) in Hrev.
  change (Str.rev "startUrl") with "lrUtrats" in Hrev.
  inversion Hrev as [[Hc _]].
  assert (Hd : (i mod 10 < 10)%nat) by (apply Nat.mod_upper_bound; discriminate).
  revert Hc. generalize (i mod 10)%nat Hd. intros k Hk.
  do 10 (destruct k as [|k]; [discriminate|]). lia.
Qed.

Section WriteRead.

Variable pf : Platform.
Variable cfg : Config.

(** The record [writeTokenCache] writes for the argument [nt] over the
    record [cur]. *)
Definition merged (cur nt : json) : json :=
  mergeTokens cur (prop nt "accessToken") (prop nt "expiresAt")
    (prop nt "refreshToken").

(** In a state where the path resolves to a file that parses, the write
    succeeds and leaves the merged record at that path. *)
Lemma writeTokenCache_run (c : AwsConfig) (d : Dir) (url p : string) (f : File)
    (cur nt : json) (w : World) :
  cacheState c d w -> sessionStartUrl cfg c = Some url ->
  resolve pf url d = Some p ->
  dir_lookup p d = Some f -> text f = JsonText cur -> nt <> JNull ->
  exists l,
    writeTokenCache pf cfg nt w
    = (Ok true,
       with_events l
         (with_cacheDir (Some (written pf p (JsonText (merged cur nt)) d)) w)).
Proof.
  intros Hst Hurl Hres Hf Ht Hnt.
  destruct (getCacheFilePath_run pf cfg c d url w Hst Hurl) as (l & Hl).
  unfold resolveOutcome in Hl. rewrite Hres in Hl.
  destruct Hst as (Hready & Hd).
  unfold writeTokenCache, try_catch. unfold bind at 1. rewrite Hl.
  unfold fs_readFile, bind at 1, get at 1. unfold bind at 1.
  cbn [cacheDir with_events]. rewrite Hd, Hf.
  unfold ret at 1. unfold bind at 1. rewrite Ht. cbn [JSON_parse].
  unfold ret at 1. unfold bind at 1.
  rewrite !(prop_of_nonnull nt _ Hnt).
  unfold writeFileAtomic, fs_chmod. unfold_monad. cbn. rewrite Hd. cbn.
  change (fs_steps (writeFileAtomic_steps pf p ?t 384) d)
    with (interrupted pf 3 p t d).
  rewrite interrupted_3_lookup. cbn.
  eexists. reflexivity.
Qed.

Lemma merged_matches (url p : string) (d : Dir) (f : File) (cur nt : json) :
  dir_lookup p d = Some f -> text f = JsonText cur -> cur <> JNull ->
  fileMatches url (written pf p (JsonText (merged cur nt)) d) p
  = fileMatches url d p.
Proof.
  intros Hf Ht Hcur. unfold fileMatches.
  rewrite written_lookup, Hf, Ht. cbn [text].
  pose proof (mergeTokens_startUrl cur (prop nt "accessToken")
                (prop nt "expiresAt") (prop nt "refreshToken")) as Hs.
  fold (merged cur nt) in Hs.
  assert (Hm : exists X, merged cur nt = JObj X)
    by (unfold merged, mergeTokens; eauto).
  destruct Hm as (X & HX). rewrite HX in *. rewrite Hs. clear Hs HX.
  destruct cur; try contradiction; try reflexivity.
  - cbn [Obj.spread prop]. clear Ht Hcur. generalize 0%nat.
    induction s as [|ch s IH]; intros i; [reflexivity|].
    cbn [Obj.chars Obj.lookup]. rewrite index_not_startUrl. apply IH.
  - cbn [Obj.spread prop]. clear Ht Hcur. generalize 0%nat.
    induction items as [|x items IH]; intros i; [reflexivity|].
    cbn [Obj.indexed Obj.lookup]. rewrite index_not_startUrl. apply IH.
Qed.

End WriteRead.

Section CacheTheorems.

Variable pf : Platform.
Variable cfg : Config.

Lemma required_truthy (rec : json) (k : string) :
  usable pf rec -> In k required -> truthy (prop rec k) = true.
Proof.
  intros (_ & Hreq & _) Hin. rewrite Forall_forall in Hreq. auto.
Qed.

(** After the write the path still resolves to the same file. *)
Lemma resolve_after_write (url p : string) (d : Dir) (f : File) (cur nt : json) :
  resolve pf url d = Some p ->
  dir_lookup p d = Some f -> text f = JsonText cur -> cur <> JNull ->
  resolve pf url (written pf p (JsonText (merged cur nt)) d) = Some p.
Proof.
  intros Hres Hf Ht Hcur.
  pose proof (resolve_json pf url p d Hres) as Hjson.
  pose proof (tmpname_neq pf p Hjson) as Hne.
  apply (resolve_stable pf url p d); [| | | |exact Hres].
  - intros n Hn Hnp. apply written_other; [exact Hnp|].
    intros E. subst n. unfold isJsonName in Hn.
    rewrite tmpname_not_json in Hn. discriminate.
  - apply (written_keys pf p _ d f Hf Hne).
  - eexists. apply written_lookup.
  - apply (merged_matches pf url p d f cur nt Hf Ht Hcur).
Qed.

(** While the atomic write is interrupted before the rename, the path still
    resolves to the same file. *)
Lemma resolve_while_interrupted (k : nat) (url p : string) (d : Dir)
    (content : FileText) :
  (k < 3)%nat ->
  resolve pf url d = Some p ->
  resolve pf url (interrupted pf k p content d) = Some p
  /\ dir_lookup p (interrupted pf k p content d) = dir_lookup p d.
Proof.
  intros Hk Hres.
  pose proof (resolve_json pf url p d Hres) as Hjson.
  pose proof (tmpname_neq pf p Hjson) as Hne.
  destruct (interrupted_before_rename pf k p content d Hk) as (Hother & Hkeys).
  pose proof (resolve_present pf url p d Hres) as (f & Hf).
  split; [|apply Hother; exact Hne].
  apply (resolve_stable pf url p d); [| | | |exact Hres].
  - intros n Hn _. apply Hother. intros E. subst n. unfold isJsonName in Hn.
    rewrite tmpname_not_json in Hn. discriminate.
  - exact Hkeys.
  - exists f. rewrite (Hother p Hne). exact Hf.
  - unfold fileMatches. rewrite (Hother p Hne). reflexivity.
Qed.

(** C1, as the code has it.  After a successful read of the record [rec],
    for an argument whose [accessToken] is truthy and whose [expiresAt] is a
    non-empty string that parses as a date, [writeTokenCache] succeeds and a
    following [readTokenCache] returns a record in which [accessToken] and
    [expiresAt] are the new values, [refreshToken] is the new value when the
    argument has a truthy (for a string: non-empty) one and the old value
    otherwise, and every other field has its value of before the write. *)
Theorem C1_write_then_read_merges (w w1 : World) (rec nt a : json)
    (s : string) (t : Z) :
  readTokenCache pf cfg w = (Ok rec, w1) ->
  prop nt "accessToken" = Some a -> truthy (Some a) = true ->
  prop nt "expiresAt" = Some (JStr s) ->
  s <> EmptyString -> Date_parse pf s = Some t ->
  exists w2 w3 rec',
    writeTokenCache pf cfg nt w1 = (Ok true, w2)
    /\ readTokenCache pf cfg w2 = (Ok rec', w3)
    /\ prop rec' "accessToken" = Some a
    /\ prop rec' "expiresAt" = Some (JStr s)
    /\ prop rec' "refreshToken"
       = (if truthy (prop nt "refreshToken") then prop nt "refreshToken"
          else prop rec "refreshToken")
    /\ (forall k, k <> "accessToken" -> k <> "expiresAt" -> k <> "refreshToken" ->
                  prop rec' k = prop rec k).
Proof.
  intros Hread Ha Hta He Hs Hparse.
  destruct (readTokenCache_inv pf cfg w w1 rec Hread)
    as (c & url & d & p & f & Hst & Hurl & Hres & Hf & Ht & Huse).
  assert (Hnt : nt <> JNull) by (intros ->; discriminate Ha).
  destruct (writeTokenCache_run pf cfg c d url p f rec nt w1 Hst Hurl Hres Hf Ht Hnt)
    as (l & Hwrite).
  destruct (usable_object pf rec Huse) as (fs & Hrec).
  pose proof (mergeTokens_fields fs a (JStr s) (prop nt "refreshToken")) as Hfields.
  cbv zeta in Hfields.
  assert (Hmerged : merged rec nt
                    = mergeTokens (JObj fs) (Some a) (Some (JStr s))
                        (prop nt "refreshToken"))
    by (unfold merged; rewrite Ha, He, Hrec; reflexivity).
  rewrite <- Hmerged in Hfields.
  destruct Hfields as (Hfa & Hfe & Hfr & Hfo).
  assert (Hlook : forall k, Obj.lookup k fs = prop rec k) by (rewrite Hrec; reflexivity).
  assert (Huse' : usable pf (merged rec nt)).
  { split; [rewrite Hmerged; unfold mergeTokens; discriminate|]. split.
    - unfold required. repeat constructor.
      + rewrite Hfa. exact Hta.
      + rewrite Hfr. destruct (truthy (prop nt "refreshToken")) eqn:Hr; [exact Hr|].
        rewrite Hlook. apply (required_truthy rec _ Huse). cbn. auto.
      + rewrite Hfo by discriminate. rewrite Hlook.
        apply (required_truthy rec _ Huse). cbn. auto.
      + rewrite Hfo by discriminate. rewrite Hlook.
        apply (required_truthy rec _ Huse). cbn. auto.
      + rewrite Hfe. cbn. apply String.eqb_neq in Hs. rewrite Hs. reflexivity.
    - exists s, t. auto. }
  destruct Huse as (Hnull & _).
  pose proof (resolve_after_write url p d f rec nt Hres Hf Ht Hnull) as Hres'.
  set (d' := written pf p (JsonText (merged rec nt)) d) in *.
  set (w2 := with_events l (with_cacheDir (Some d') w1)) in *.
  assert (Hst' : cacheState c d' w2)
    by (apply cacheState_with_events, (cacheState_with_cacheDir c d d' w1 Hst)).
  destruct (readTokenCache_run pf cfg c d' url p
              {| text := JsonText (merged rec nt); mode := 384 |}
              (merged rec nt) w2 Hst' Hurl Hres')
    as (l' & Hread'); [apply written_lookup|reflexivity|exact Huse'|].
  exists w2, (with_events l' w2), (merged rec nt).
  split; [exact Hwrite|]. split; [exact Hread'|].
  split; [exact Hfa|]. split; [exact Hfe|].
  split; [rewrite Hfr, Hlook; reflexivity|].
  intros k H1 H2 H3. rewrite (Hfo k H1 H2 H3). apply Hlook.
Qed.

(** C2.  [writeTokenCache] replaces the cache file by the three steps of
    the atomic write, in this order: create the temporary file, write the
    whole content to it, rename it over the cache path; then it sets the
    mode again.  Whatever the number of steps done when the write is
    interrupted, the cache path holds a complete file: the previous one, or,
    once renamed, the new one.  Before the rename it is the previous file,
    and [readTokenCache] still returns its record. *)
Theorem C2_write_is_atomic (w w1 : World) (rec nt : json) :
  readTokenCache pf cfg w = (Ok rec, w1) ->
  nt <> JNull ->
  exists p d old w2,
    let content := JsonText (merged rec nt) in
    let new := {| text := content; mode := 384 |} in
    cacheDir w1 = Some d
    /\ dir_lookup p d = Some old /\ text old = JsonText rec
    /\ writeTokenCache pf cfg nt w1 = (Ok true, w2)
    /\ cacheDir w2 = Some (written pf p content d)
    /\ dir_lookup p (written pf p content d) = Some new
    /\ (forall k, (k <= 3)%nat ->
                  dir_lookup p (interrupted pf k p content d) = Some old
                  \/ dir_lookup p (interrupted pf k p content d) = Some new)
    /\ (forall k, (k < 3)%nat ->
                  dir_lookup p (interrupted pf k p content d) = Some old
                  /\ exists w',
                       readTokenCache pf cfg
                         (with_cacheDir (Some (interrupted pf k p content d)) w1)
                       = (Ok rec, w')).
Proof.
  intros Hread Hnt.
  destruct (readTokenCache_inv pf cfg w w1 rec Hread)
    as (c & url & d & p & f & Hst & Hurl & Hres & Hf & Ht & Huse).
  destruct (writeTokenCache_run pf cfg c d url p f rec nt w1 Hst Hurl Hres Hf Ht Hnt)
    as (l & Hwrite).
  exists p, d, f. eexists. cbv zeta.
  split; [apply Hst|]. split; [exact Hf|]. split; [exact Ht|].
  split; [exact Hwrite|]. split; [reflexivity|].
  split; [apply written_lookup|].
  assert (Hbefore : forall k, (k < 3)%nat ->
            dir_lookup p (interrupted pf k p (JsonText (merged rec nt)) d) = Some f
            /\ exists w',
                 readTokenCache pf cfg
                   (with_cacheDir
                      (Some (interrupted pf k p (JsonText (merged rec nt)) d)) w1)
                 = (Ok rec, w')).
  { intros k Hk.
    destruct (resolve_while_interrupted k url p d (JsonText (merged rec nt)) Hk Hres)
      as (Hres' & Hsame).
    rewrite Hsame. split; [exact Hf|].
    destruct (readTokenCache_run pf cfg c _ url p f rec
                (with_cacheDir
                   (Some (interrupted pf k p (JsonText (merged rec nt)) d)) w1)
                (cacheState_with_cacheDir c d _ w1 Hst) Hurl Hres')
      as (l' & Hread'); [rewrite Hsame; exact Hf|exact Ht|exact Huse|].
    eexists. exact Hread'. }
  split; [|exact Hbefore].
  intros k Hk. destruct (Nat.eq_dec k 3) as [->|Hne].
  - right. apply interrupted_3_lookup.
  - left. apply Hbefore. lia.
Qed.

End CacheTheorems.

(** C1 at a sample: the tokens of a refresh written over the sample
    record. *)
Definition sample_newTokens (refreshToken : string) (expiresAt : string) : json :=
  JObj [("accessToken", JStr "new-access-token");
        ("expiresAt", JStr expiresAt);
        ("refreshToken", JStr refreshToken)].

Definition sample_afterRead : World :=
  snd (readTokenCache Sample.platform Sample.config
         (Sample.world Sample.in4min (fun _ => Sample.okReply) 0)).

Lemma C1_write_then_read_merges_witness :
  let nt := sample_newTokens "new-refresh-token" "2026-01-27T09:00:00Z" in
  let rec := Sample.cacheRecord Sample.in4min in
  exists w2 w3 rec',
    writeTokenCache Sample.platform Sample.config nt sample_afterRead = (Ok true, w2)
    /\ readTokenCache Sample.platform Sample.config w2 = (Ok rec', w3)
    /\ prop rec' "accessToken" = Some (JStr "new-access-token")
    /\ prop rec' "expiresAt" = Some (JStr "2026-01-27T09:00:00Z")
    /\ prop rec' "refreshToken"
       = (if truthy (prop nt "refreshToken") then prop nt "refreshToken"
          else prop rec "refreshToken")
    /\ (forall k, k <> "accessToken" -> k <> "expiresAt" -> k <> "refreshToken" ->
                  prop rec' k = prop rec k).
Proof.
  apply (C1_write_then_read_merges Sample.platform Sample.config
           (Sample.world Sample.in4min (fun _ => Sample.okReply) 0)
           sample_afterRead
           (Sample.cacheRecord Sample.in4min)
           (sample_newTokens "new-refresh-token" "2026-01-27T09:00:00Z")
           (JStr "new-access-token") "2026-01-27T09:00:00Z" 1769504400000).
  - vm_compute. reflexivity.
  - reflexivity.
  - reflexivity.
  - reflexivity.
  - discriminate.
  - vm_compute. reflexivity.
Defined.

Lemma C2_write_is_atomic_witness :
  let nt := sample_newTokens "new-refresh-token" "2026-01-27T09:00:00Z" in
  let rec := Sample.cacheRecord Sample.in4min in
  let w1 := sample_afterRead in
  exists p d old w2,
    let content := JsonText (merged rec nt) in
    let new := {| text := content; mode := 384 |} in
    cacheDir w1 = Some d
    /\ dir_lookup p d = Some old /\ text old = JsonText rec
    /\ writeTokenCache Sample.platform Sample.config nt w1 = (Ok true, w2)
    /\ cacheDir w2 = Some (written Sample.platform p content d)
    /\ dir_lookup p (written Sample.platform p content d) = Some new
    /\ (forall k, (k <= 3)%nat ->
                  dir_lookup p (interrupted Sample.platform k p content d) = Some old
                  \/ dir_lookup p (interrupted Sample.platform k p content d) = Some new)
    /\ (forall k, (k < 3)%nat ->
                  dir_lookup p (interrupted Sample.platform k p content d) = Some old
                  /\ exists w',
                       readTokenCache Sample.platform Sample.config
                         (with_cacheDir
                            (Some (interrupted Sample.platform k p content d)) w1)
                       = (Ok rec, w')).
Proof.
  apply (C2_write_is_atomic Sample.platform Sample.config
           (Sample.world Sample.in4min (fun _ => Sample.okReply) 0)
           sample_afterRead
           (Sample.cacheRecord Sample.in4min)
           (sample_newTokens "new-refresh-token" "2026-01-27T09:00:00Z")).
  - vm_compute. reflexivity.
  - discriminate.
Defined.

(** C1 as stated fails.  First, an argument whose [refreshToken] is present
    and empty: the write keeps the old refresh token, so the field read back
    is not the one of the argument.  Second, an argument whose [expiresAt] is
    present and not a date: the write succeeds and the read that follows
    fails. *)
Lemma C1_counterexample :
  let run nt :=
    let w2 := snd (writeTokenCache Sample.platform Sample.config nt sample_afterRead) in
    fst (readTokenCache Sample.platform Sample.config w2) in
  let emptyRefresh := sample_newTokens EmptyString "2026-01-27T09:00:00Z" in
  let badDate := sample_newTokens "new-refresh-token" "tomorrow" in
  (prop emptyRefresh "refreshToken" = Some (JStr EmptyString)
   /\ exists rec',
        run emptyRefresh = Ok rec'
        /\ prop rec' "refreshToken" = Some (JStr "old-refresh")
        /\ prop rec' "refreshToken" <> prop emptyRefresh "refreshToken")
  /\ (prop badDate "expiresAt" = Some (JStr "tomorrow")
      /\ fst (writeTokenCache Sample.platform Sample.config badDate sample_afterRead)
         = Ok true
      /\ exists e, run badDate = Throw (ThrowErr e)).
Proof.
  split.
  - split; [reflexivity|]. eexists. split; [vm_compute; reflexivity|].
    split; [reflexivity|discriminate].
  - split; [reflexivity|]. split; [vm_compute; reflexivity|].
    eexists. vm_compute. reflexivity.
Qed.

(* ================================================================== *)
(** ** The configuration check *)
(* ================================================================== *)

Lemma includes_refl (x : string) : Str.includes x x = true.
Proof.
  rewrite <- (append_nil_r x) at 1. apply includes_self_app.
Qed.

Lemma startsWith_app2 (a b r x : string) :
  Str.startsWith (a ++ b) x = true -> Str.startsWith (a ++ b ++ r) x = true.
Proof.
  intros H. rewrite <- append_assoc. apply startsWith_app_l. exact H.
Qed.

Lemma startsWith_app3 (a b c r x : string) :
  Str.startsWith (a ++ b ++ c) x = true ->
  Str.startsWith (a ++ b ++ c ++ r) x = true.
Proof.
  intros H. rewrite <- (append_assoc b c r), <- (append_assoc a (b ++ c) r).
  apply startsWith_app_l. exact H.
Qed.

Lemma app_nil_iff {A} (l l' : list A) :
  (l ++ l')%list = [] <-> l = [] /\ l' = [].
Proof.
  split.
  - apply app_eq_nil.
  - intros (-> & ->). reflexivity.
Qed.

Lemma all_chars_Forall (p : ascii -> bool) (s : string) :
  all_chars p s = true
  <-> Forall (fun c => p c = true) (list_ascii_of_string s).
Proof.
  induction s as [|c s IH]; cbn.
  - split; [constructor|reflexivity].
  - rewrite andb_true_iff, IH. split.
    + intros (Hc & Hs). constructor; assumption.
    + intros H. inversion H; subst. split; assumption.
Qed.

(** A name that [validateProfileName] and [validateSessionName] accept: not
    empty, at most 128 characters, each of them a letter, a digit, an
    underscore or a hyphen. *)
Definition safeName (name : string) : Prop :=
  name <> EmptyString
  /\ (String.length name <= 128)%nat
  /\ Forall (fun c => name_char_ok c = true) (list_ascii_of_string name).

Lemma validateName_nil (var what name : string) :
  validateName var what name = []
  <-> all_chars name_char_ok name = true /\ (String.length name <= 128)%nat.
Proof.
  unfold validateName.
  destruct (all_chars name_char_ok name); cbn [negb].
  - destruct (Nat.ltb 128 (String.length name)) eqn:E.
    + apply Nat.ltb_lt in E. split; [discriminate|]. intros (_ & H). lia.
    + apply Nat.ltb_ge in E. split; auto.
  - split; [discriminate|]. intros (H & _). discriminate H.
Qed.

Section ConfigProperties.

Variable cfg : Config.

(** What [validateConfig] asks of the configuration. *)
Definition validConfig : Prop :=
  safeName (awsSsoProfile cfg)
  /\ safeName (awsSsoSession cfg)
  /\ awsRegion cfg <> EmptyString
  /\ In (logLevel cfg) ["debug"; "info"; "warn"; "error"]
  /\ 0 < refreshCheckInterval cfg
  /\ 0 < refreshThreshold cfg.

Lemma required_name_nil (var what name : string) :
  (if String.eqb name EmptyString then [var ++ " is required"]
   else validateName var what name) = []
  <-> safeName name.
Proof.
  unfold safeName. destruct (String.eqb name EmptyString) eqn:E.
  - apply String.eqb_eq in E. split; [discriminate|]. intros (H & _). contradiction.
  - apply String.eqb_neq in E. rewrite validateName_nil, all_chars_Forall.
    tauto.
Qed.

Lemma logLevel_ok :
  existsb (String.eqb (logLevel cfg)) ["debug"; "info"; "warn"; "error"] = true
  <-> In (logLevel cfg) ["debug"; "info"; "warn"; "error"].
Proof.
  rewrite existsb_exists. split.
  - intros (x & Hin & Hx). apply String.eqb_eq in Hx. subst x. exact Hin.
  - intros H. exists (logLevel cfg). split; [exact H|apply String.eqb_refl].
Qed.

Lemma validateConfig_errors_nil : validateConfig_errors cfg = [] <-> validConfig.
Proof.
  unfold validateConfig_errors, validConfig.
  rewrite !app_nil_iff.
  rewrite (required_name_nil "AWS_SSO_PROFILE" "Profile").
  rewrite (required_name_nil "AWS_SSO_SESSION" "Session").
  rewrite <- logLevel_ok.
  assert (Hr : (if String.eqb (awsRegion cfg) EmptyString
                then ["AWS_REGION is required"] else []) = []
               <-> awsRegion cfg <> EmptyString).
  { destruct (String.eqb (awsRegion cfg) EmptyString) eqn:E.
    - apply String.eqb_eq in E. split; [discriminate|contradiction].
    - apply String.eqb_neq in E. tauto. }
  assert (Hl : (if existsb (String.eqb (logLevel cfg))
                       ["debug"; "info"; "warn"; "error"]
                then []
                else ["LOG_LEVEL must be one of: debug, info, warn, error"]) = []
               <-> existsb (String.eqb (logLevel cfg))
                     ["debug"; "info"; "warn"; "error"] = true).
  { destruct (existsb _ _); split; try reflexivity; discriminate. }
  assert (Hpos : forall (x : Z) (msg : string),
             (if x <=? 0 then [msg] else []) = [] <-> 0 < x).
  { intros x msg. destruct (x <=? 0) eqn:E.
    - apply Z.leb_le in E. split; [discriminate|lia].
    - apply Z.leb_gt in E. tauto. }
  rewrite Hr, Hl, !Hpos. tauto.
Qed.

(** X1.  [validateConfig] returns normally exactly for the configurations in
    which the profile and the session name are non-empty, at most 128
    characters long and made of letters, digits, underscores and hyphens
    only, the region is set, the log level is one of the four the logger
    knows, and both intervals are positive.  Nothing else is checked: in
    particular any [maxRetryAttempts] and [retryBackoffSeconds] pass. *)
Theorem validateConfig_accepts_iff (w : World) :
  validateConfig cfg w = (Ok tt, w) <-> validConfig.
Proof.
  rewrite <- validateConfig_errors_nil. unfold validateConfig.
  destruct (validateConfig_errors cfg) as [|e errors].
  - split; reflexivity.
  - split; [intros H|]; discriminate.
Qed.

(** The message [validateConfig] throws holds every complaint collected. *)
Lemma validateConfig_message (w : World) (e : string) (errors : list string) :
  validateConfig_errors cfg = e :: errors ->
  exists err,
    validateConfig cfg w = (Throw (ThrowErr err), w)
    /\ Str.startsWith (err_message err) "Configuration validation failed:" = true
    /\ forall c x, In c (validateConfig_errors cfg) ->
                   Str.includes c x = true ->
                   Str.includes (err_message err) x = true.
Proof.
  intros He. unfold validateConfig. rewrite He.
  eexists. split; [reflexivity|]. split.
  - cbn [err_message Error_]. apply startsWith_app.
  - intros c x Hin Hx. cbn [err_message Error_].
    apply includes_app_r, includes_app_r, includes_app_r, includes_app_l.
    apply (includes_join _ x c); assumption.
Qed.

(** X2.  [validateConfig] collects every problem before it throws: the one
    [Error] it throws names each missing variable, each malformed or
    over-long name, a wrong log level and each interval that is not
    positive.  It never changes the state. *)
Theorem validateConfig_reports_every_problem (w : World) :
  validateConfig cfg w = (Ok tt, w)
  \/ exists err,
       validateConfig cfg w = (Throw (ThrowErr err), w)
       /\ Str.startsWith (err_message err) "Configuration validation failed:" = true
       /\ (awsSsoProfile cfg = EmptyString ->
           Str.includes (err_message err) "AWS_SSO_PROFILE is required" = true)
       /\ (awsSsoProfile cfg <> EmptyString ->
           all_chars name_char_ok (awsSsoProfile cfg) = false ->
           Str.includes (err_message err) "Invalid AWS_SSO_PROFILE format" = true)
       /\ (all_chars name_char_ok (awsSsoProfile cfg) = true ->
           (128 < String.length (awsSsoProfile cfg))%nat ->
           Str.includes (err_message err) "AWS_SSO_PROFILE is too long" = true)
       /\ (awsSsoSession cfg = EmptyString ->
           Str.includes (err_message err) "AWS_SSO_SESSION is required" = true)
       /\ (awsSsoSession cfg <> EmptyString ->
           all_chars name_char_ok (awsSsoSession cfg) = false ->
           Str.includes (err_message err) "Invalid AWS_SSO_SESSION format" = true)
       /\ (all_chars name_char_ok (awsSsoSession cfg) = true ->
           (128 < String.length (awsSsoSession cfg))%nat ->
           Str.includes (err_message err) "AWS_SSO_SESSION is too long" = true)
       /\ (awsRegion cfg = EmptyString ->
           Str.includes (err_message err) "AWS_REGION is required" = true)
       /\ (~ In (logLevel cfg) ["debug"; "info"; "warn"; "error"] ->
           Str.includes (err_message err)
             "LOG_LEVEL must be one of: debug, info, warn, error" = true)
       /\ (refreshCheckInterval cfg <= 0 ->
           Str.includes (err_message err)
             "REFRESH_CHECK_INTERVAL must be greater than 0" = true)
       /\ (refreshThreshold cfg <= 0 ->
           Str.includes (err_message err)
             "REFRESH_THRESHOLD must be greater than 0" = true).
Proof.
  destruct (validateConfig_errors cfg) as [|e errors] eqn:He.
  - left. unfold validateConfig. rewrite He. reflexivity.
  - right. destruct (validateConfig_message w e errors He) as (err & Hrun & Hstart & Hall).
    exists err. split; [exact Hrun|]. split; [exact Hstart|].
    assert (Hin : forall c x, In c (validateConfig_errors cfg) ->
                              Str.includes c x = true ->
                              Str.includes (err_message err) x = true) by exact Hall.
    clear Hall He Hrun Hstart.
    unfold validateConfig_errors in Hin.
    assert (Hname : forall var what name x,
               name <> EmptyString ->
               all_chars name_char_ok name = false ->
               Str.startsWith ("Invalid " ++ var ++ " format") x = true ->
               exists c, In c (if String.eqb name EmptyString
                               then [var ++ " is required"]
                               else validateName var what name)
                         /\ Str.includes c x = true).
    { intros var what name x Hne Hbad Hx.
      apply String.eqb_neq in Hne. rewrite Hne. unfold validateName.
      rewrite Hbad. cbn [negb]. eexists. split; [left; reflexivity|].
      rewrite includes_unfold.
      match goal with
      | |- context [" format: " ++ ?r] =>
          change (" format: " ++ r) with (" format" ++ (": " ++ r))
      end.
      rewrite (startsWith_app3 _ _ _ _ x Hx). reflexivity. }
    assert (Hlong : forall var what name x,
               all_chars name_char_ok name = true ->
               (128 < String.length name)%nat ->
               Str.startsWith (var ++ " is too long") x = true ->
               exists c, In c (if String.eqb name EmptyString
                               then [var ++ " is required"]
                               else validateName var what name)
                         /\ Str.includes c x = true).
    { intros var what name x Hok Hlen Hx.
      assert (Hne : String.eqb name EmptyString = false).
      { apply String.eqb_neq. intros ->. cbn in Hlen. lia. }
      rewrite Hne. unfold validateName. rewrite Hok. cbn [negb].
      apply Nat.ltb_lt in Hlen. rewrite Hlen.
      eexists. split; [left; reflexivity|].
      rewrite includes_unfold.
      match goal with
      | |- context [" is too long (" ++ ?r] =>
          change (" is too long (" ++ r) with (" is too long" ++ (" (" ++ r))
      end.
      rewrite (startsWith_app2 _ _ _ x Hx). reflexivity. }
    repeat split.
    + intros Hp. apply (Hin "AWS_SSO_PROFILE is required"); [|apply includes_refl].
      apply in_or_app. left. rewrite Hp. left. reflexivity.
    + intros Hne Hbad.
      destruct (Hname "AWS_SSO_PROFILE" "Profile" (awsSsoProfile cfg)
                  "Invalid AWS_SSO_PROFILE format" Hne Hbad eq_refl) as (c & Hc & Hx).
      apply (Hin c); [|exact Hx]. apply in_or_app. left. exact Hc.
    + intros Hok Hlen.
      destruct (Hlong "AWS_SSO_PROFILE" "Profile" (awsSsoProfile cfg)
                  "AWS_SSO_PROFILE is too long" Hok Hlen eq_refl) as (c & Hc & Hx).
      apply (Hin c); [|exact Hx]. apply in_or_app. left. exact Hc.
    + intros Hp. apply (Hin "AWS_SSO_SESSION is required"); [|apply includes_refl].
      apply in_or_app. right. apply in_or_app. left. rewrite Hp. left. reflexivity.
    + intros Hne Hbad.
      destruct (Hname "AWS_SSO_SESSION" "Session" (awsSsoSession cfg)
                  "Invalid AWS_SSO_SESSION format" Hne Hbad eq_refl) as (c & Hc & Hx).
      apply (Hin c); [|exact Hx].
      apply in_or_app. right. apply in_or_app. left. exact Hc.
    + intros Hok Hlen.
      destruct (Hlong "AWS_SSO_SESSION" "Session" (awsSsoSession cfg)
                  "AWS_SSO_SESSION is too long" Hok Hlen eq_refl) as (c & Hc & Hx).
      apply (Hin c); [|exact Hx].
      apply in_or_app. right. apply in_or_app. left. exact Hc.
    + intros Hr. apply (Hin "AWS_REGION is required"); [|apply includes_refl].
      do 2 (apply in_or_app; right). apply in_or_app. left.
      rewrite Hr. left. reflexivity.
    + intros Hl.
      apply (Hin "LOG_LEVEL must be one of: debug, info, warn, error");
        [|apply includes_refl].
      do 3 (apply in_or_app; right). apply in_or_app. left.
      destruct (existsb _ _) eqn:E; [|left; reflexivity].
      apply logLevel_ok in E. contradiction.
    + intros Hi.
      apply (Hin "REFRESH_CHECK_INTERVAL must be greater than 0");
        [|apply includes_refl].
      do 4 (apply in_or_app; right). apply in_or_app. left.
      replace (refreshCheckInterval cfg <=? 0) with true
        by (symmetry; apply Z.leb_le; exact Hi).
      left. reflexivity.
    + intros Ht.
      apply (Hin "REFRESH_THRESHOLD must be greater than 0");
        [|apply includes_refl].
      do 5 (apply in_or_app; right).
      replace (refreshThreshold cfg <=? 0) with true
        by (symmetry; apply Z.leb_le; exact Ht).
      left. reflexivity.
Qed.

End ConfigProperties.

(* ================================================================== *)
(** ** Expiry arithmetic and its error cases *)
(* ================================================================== *)

Section ExpiryEdges.

Variable pf : Platform.
Variable cfg : Config.

(** A value [validateAndParseDate] accepts. *)
Definition validDate (v : jsval) : Prop :=
  exists s t, v = Some (JStr s) /\ s <> EmptyString /\ Date_parse pf s = Some t.

(** The error [validateAndParseDate] throws for a value it rejects. *)
Definition dateError (v : jsval) : JsError :=
  match v with
  | Some (JStr s) =>
      if String.eqb s EmptyString
      then Error_ "Date string is required and must be a string"
      else Error_ ("Invalid date format: " ++ Str.dquote ++ s ++ Str.dquote
                     ++ ". Expected ISO 8601 format (e.g., "
                     ++ Str.dquote ++ "2026-01-24T14:30:00Z" ++ Str.dquote ++ ").")
  | _ => Error_ "Date string is required and must be a string"
  end.

Lemma validateAndParseDate_invalid (v : jsval) (w : World) :
  ~ validDate v ->
  validateAndParseDate pf v w = (Throw (ThrowErr (dateError v)), w).
Proof.
  intros Hbad. unfold validateAndParseDate, dateError.
  destruct v as [[| | |s| |]|]; try reflexivity.
  destruct (String.eqb s EmptyString) eqn:E; [reflexivity|].
  destruct (Date_parse pf s) as [t|] eqn:D; [|reflexivity].
  exfalso. apply Hbad. exists s, t. apply String.eqb_neq in E. auto.
Qed.

(** X3.  The three expiry functions reject the same values in the same way:
    for an [expiresAt] that is missing, not a string, the empty string, or a
    string the platform does not parse as a date, [getTimeUntilExpiry],
    [shouldRefresh] and [formatTimeRemaining] all throw the error of
    [validateAndParseDate] and log nothing; the message is [Date string is
    required and must be a string] unless the value is a non-empty string,
    and then it quotes the string. *)
Theorem expiry_functions_reject_invalid_dates (v : jsval) (w : World) :
  ~ validDate v ->
  exists err,
    getTimeUntilExpiry pf v w = (Throw (ThrowErr err), w)
    /\ shouldRefresh pf cfg v w = (Throw (ThrowErr err), w)
    /\ formatTimeRemaining pf v w = (Throw (ThrowErr err), w)
    /\ (forall s, v = Some (JStr s) -> s <> EmptyString ->
                  Str.startsWith (err_message err)
                    ("Invalid date format: " ++ Str.dquote ++ s ++ Str.dquote)
                  = true)
    /\ ((is_string v = false \/ v = Some (JStr EmptyString)) ->
        err_message err = "Date string is required and must be a string").
Proof.
  intros Hbad. exists (dateError v).
  pose proof (validateAndParseDate_invalid v w Hbad) as Hv.
  assert (Ht : getTimeUntilExpiry pf v w = (Throw (ThrowErr (dateError v)), w))
    by (unfold getTimeUntilExpiry, bind; rewrite Hv; reflexivity).
  split; [exact Ht|].
  split; [unfold shouldRefresh, bind; rewrite Ht; reflexivity|].
  split; [unfold formatTimeRemaining, bind; rewrite Ht; reflexivity|].
  split.
  - intros s -> Hs. unfold dateError. apply String.eqb_neq in Hs. rewrite Hs.
    cbn [err_message Error_].
    assert (E : forall a b c d r : string,
               a ++ b ++ c ++ d ++ r = (a ++ b ++ c ++ d) ++ r)
      by (intros; rewrite !append_assoc; reflexivity).
    rewrite E. apply startsWith_app.
  - intros [Hs| ->]; [|reflexivity].
    destruct v as [[| | |s| |]|]; try reflexivity. discriminate Hs.
Qed.

(** X4.  [formatTimeRemaining] rounds down to whole minutes.  With an hour
    or more left it renders [<h>h <m>m] with [0 <= m < 60], and with less
    than an hour left it renders [<m>m]; in both cases the time rendered is
    at most the time left and less than a minute below it.  For a token that
    has expired the minutes rendered are negative. *)
Theorem formatTimeRemaining_rounds_down (s : string) (t : Z) (w : World) :
  s <> EmptyString ->
  Date_parse pf s = Some t ->
  exists text,
    formatTimeRemaining pf (Some (JStr s)) w = (Ok text, w)
    /\ (3600000 <= t - clock w ->
        exists h m,
          text = Str.of_Z h ++ "h " ++ Str.of_Z m ++ "m"
          /\ 1 <= h /\ 0 <= m < 60
          /\ h * 3600000 + m * 60000 <= t - clock w
             < h * 3600000 + (m + 1) * 60000)
    /\ (t - clock w < 3600000 ->
        exists m,
          text = Str.of_Z m ++ "m"
          /\ m * 60000 <= t - clock w < (m + 1) * 60000
          /\ (t < clock w -> m < 0)).
Proof.
  intros Hs Ht. exists (formatRemaining (t - clock w)).
  split; [apply formatTimeRemaining_valid; assumption|].
  set (ms := t - clock w). unfold formatRemaining. cbv zeta.
  pose proof (Z.div_mod ms 60000 ltac:(lia)) as Hm.
  pose proof (Z.mod_pos_bound ms 60000 ltac:(lia)) as Hmb.
  pose proof (Z.div_mod (ms / 60000) 60 ltac:(lia)) as Hh.
  pose proof (Z.mod_pos_bound (ms / 60000) 60 ltac:(lia)) as Hhb.
  split.
  - intros Hbig.
    assert (Hpos : 0 < ms / 60000 / 60) by lia.
    replace (0 <? ms / 60000 / 60) with true by (symmetry; apply Z.ltb_lt; exact Hpos).
    exists (ms / 60000 / 60), (Z.rem (ms / 60000) 60).
    rewrite Z.rem_mod_nonneg by lia.
    split; [reflexivity|]. lia.
  - intros Hsmall.
    assert (Hneg : ms / 60000 / 60 <= 0) by lia.
    replace (0 <? ms / 60000 / 60) with false by (symmetry; apply Z.ltb_ge; exact Hneg).
    exists (ms / 60000). split; [reflexivity|]. subst ms. lia.
Qed.

End ExpiryEdges.

(** X3 at a sample: an [expiresAt] that is no date. *)
Lemma expiry_functions_reject_invalid_dates_witness :
  let v := Some (JStr "tomorrow") in
  let w := Sample.world Sample.in4min (fun _ => Sample.okReply) 0 in
  exists err,
    getTimeUntilExpiry Sample.platform v w = (Throw (ThrowErr err), w)
    /\ shouldRefresh Sample.platform Sample.config v w = (Throw (ThrowErr err), w)
    /\ formatTimeRemaining Sample.platform v w = (Throw (ThrowErr err), w)
    /\ (forall s, v = Some (JStr s) -> s <> EmptyString ->
                  Str.startsWith (err_message err)
                    ("Invalid date format: " ++ Str.dquote ++ s ++ Str.dquote)
                  = true)
    /\ ((is_string v = false \/ v = Some (JStr EmptyString)) ->
        err_message err = "Date string is required and must be a string").
Proof.
  apply (expiry_functions_reject_invalid_dates Sample.platform Sample.config
           (Some (JStr "tomorrow"))
           (Sample.world Sample.in4min (fun _ => Sample.okReply) 0)).
  intros (s & t & Hv & _ & Hp). inversion Hv; subst s. vm_compute in Hp.
  discriminate Hp.
Defined.

(** X4 at a sample: an hour is left. *)
Lemma formatTimeRemaining_rounds_down_witness :
  let w := Sample.world Sample.in1hour (fun _ => Sample.okReply) 0 in
  exists text,
    formatTimeRemaining Sample.platform (Some (JStr Sample.in1hour)) w = (Ok text, w)
    /\ (3600000 <= 1769504400000 - clock w ->
        exists h m,
          text = Str.of_Z h ++ "h " ++ Str.of_Z m ++ "m"
          /\ 1 <= h /\ 0 <= m < 60
          /\ h * 3600000 + m * 60000 <= 1769504400000 - clock w
             < h * 3600000 + (m + 1) * 60000)
    /\ (1769504400000 - clock w < 3600000 ->
        exists m,
          text = Str.of_Z m ++ "m"
          /\ m * 60000 <= 1769504400000 - clock w < (m + 1) * 60000
          /\ (1769504400000 < clock w -> m < 0)).
Proof.
  apply (formatTimeRemaining_rounds_down Sample.platform Sample.in1hour
           1769504400000
           (Sample.world Sample.in1hour (fun _ => Sample.okReply) 0)).
  - discriminate.
  - vm_compute. reflexivity.
Defined.

(* ================================================================== *)
(** ** The sanitizer on its own *)
(* ================================================================== *)

Lemma is_sensitive_In (k : string) :
  is_sensitive k = true <-> In k sensitiveFields.
Proof.
  unfold is_sensitive. rewrite existsb_exists. split.
  - intros (f & Hin & Hf). apply String.eqb_eq in Hf. subst f. exact Hin.
  - intros H. exists k. split; [exact H|apply String.eqb_refl].
Qed.

Lemma lookup_redactEntry (k : string) (fs : list (string * json)) :
  Obj.lookup k (List.map redactEntry fs)
  = match Obj.lookup k fs with
    | Some v => Some (if is_sensitive k then REDACTED else v)
    | None => None
    end.
Proof.
  induction fs as [|[k' v] fs IH]; [reflexivity|].
  cbn [List.map Obj.lookup]. unfold redactEntry at 1. cbn [fst].
  destruct (is_sensitive k') eqn:Ek'; cbn [fst snd Obj.lookup];
    destruct (String.eqb k k') eqn:E; try exact IH;
    apply String.eqb_eq in E; subst k'; rewrite Ek'; reflexivity.
Qed.

Lemma redactEntry_idempotent (kv : string * json) :
  redactEntry (redactEntry kv) = redactEntry kv.
Proof.
  unfold redactEntry. destruct (is_sensitive (fst kv)) eqn:E; cbn [fst].
  - rewrite E. reflexivity.
  - rewrite E. reflexivity.
Qed.

Lemma redactEntry_keys (fs : list (string * json)) :
  List.map fst (List.map redactEntry fs) = List.map fst fs.
Proof.
  rewrite List.map_map. apply List.map_ext. intros kv. unfold redactEntry.
  destruct (is_sensitive (fst kv)); reflexivity.
Qed.

(** X5.  [sanitizeApiResponse] returns every value that is not an object as
    it is ([undefined], [null], booleans, numbers and strings).  Of an object
    it returns a copy with the same properties in the same order, in which
    each property named on the list of sensitive fields holds [[REDACTED]]
    and every other property holds its value; a property that is absent is
    not added; and sanitizing the result again changes nothing. *)
Theorem sanitizeApiResponse_redacts_listed_fields (fs : list (string * json)) :
  NoDup (List.map fst fs) ->
  (forall v, typeof_object v = false \/ v = Some JNull ->
             sanitizeApiResponse v = v)
  /\ exists fs',
       sanitizeApiResponse (Some (JObj fs)) = Some (JObj fs')
       /\ List.map fst fs' = List.map fst fs
       /\ (forall k, In k sensitiveFields -> Obj.has k fs = true ->
                     Obj.lookup k fs' = Some REDACTED)
       /\ (forall k, ~ In k sensitiveFields ->
                     Obj.lookup k fs' = Obj.lookup k fs)
       /\ (forall k, Obj.has k fs = false -> Obj.lookup k fs' = None)
       /\ sanitizeApiResponse (Some (JObj fs')) = Some (JObj fs').
Proof.
  intros Hnd. split.
  - intros v [Hv| ->]; [|reflexivity].
    unfold sanitizeApiResponse. rewrite Hv. cbn [negb].
    rewrite orb_true_r. reflexivity.
  - exists (List.map redactEntry fs).
    split; [apply sanitize_object; exact Hnd|].
    split; [apply redactEntry_keys|].
    split; [|split; [|split]].
    + intros k Hk Hhas. rewrite lookup_redactEntry.
      unfold Obj.has in Hhas. destruct (Obj.lookup k fs); [|discriminate].
      apply is_sensitive_In in Hk. rewrite Hk. reflexivity.
    + intros k Hk. rewrite lookup_redactEntry.
      destruct (Obj.lookup k fs); [|reflexivity].
      destruct (is_sensitive k) eqn:E; [|reflexivity].
      apply is_sensitive_In in E. contradiction.
    + intros k Hhas. rewrite lookup_redactEntry.
      unfold Obj.has in Hhas. destruct (Obj.lookup k fs); [discriminate|reflexivity].
    + rewrite sanitize_object by (rewrite redactEntry_keys; exact Hnd).
      rewrite List.map_map.
      do 2 f_equal. apply List.map_ext. apply redactEntry_idempotent.
Qed.

(** X5 at the payload of the unit test. *)
Lemma sanitizeApiResponse_redacts_listed_fields_witness :
  (forall v, typeof_object v = false \/ v = Some JNull ->
             sanitizeApiResponse v = v)
  /\ exists fs',
       sanitizeApiResponse (Some (JObj sample_leaky_payload)) = Some (JObj fs')
       /\ List.map fst fs' = List.map fst sample_leaky_payload
       /\ (forall k, In k sensitiveFields -> Obj.has k sample_leaky_payload = true ->
                     Obj.lookup k fs' = Some REDACTED)
       /\ (forall k, ~ In k sensitiveFields ->
                     Obj.lookup k fs' = Obj.lookup k sample_leaky_payload)
       /\ (forall k, Obj.has k sample_leaky_payload = false ->
                     Obj.lookup k fs' = None)
       /\ sanitizeApiResponse (Some (JObj fs')) = Some (JObj fs').
Proof.
  apply (sanitizeApiResponse_redacts_listed_fields sample_leaky_payload).
  repeat constructor; cbn; intuition discriminate.
Defined.

(* ================================================================== *)
(** ** What a computation leaves alone *)
(* ================================================================== *)

(** The computation leaves the observation [f] of the state as it was,
    whether it returns or throws. *)
Definition keeps {X A} (f : World -> X) (m : M A) : Prop :=
  forall w r w', m w = (r, w') -> f w' = f w.

(** Observations that do not look at the trace of events, at the cached
    configuration, at the cache directory, or at the state of the token
    refresher and the clock. *)
Definition ignores_events {X} (f : World -> X) : Prop :=
  forall l w, f (with_events l w) = f w.

Definition ignores_configCache {X} (f : World -> X) : Prop :=
  forall c m w, f (with_configCache c m w) = f w.

Definition ignores_cacheDir {X} (f : World -> X) : Prop :=
  forall d w, f (with_cacheDir d w) = f w.

Definition ignores_refresher {X} (f : World -> X) : Prop :=
  (forall t w, f (with_clock t w) = f w)
  /\ (forall n w, f (with_requests n w) = f w)
  /\ (forall t w, f (with_lastRequestTime t w) = f w)
  /\ (forall b w, f (with_abortController b w) = f w).

Section Keeps.

Context {X : Type} (f : World -> X).

Lemma kp_ret {A} (a : A) : keeps f (ret a).
Proof. intros w r w' H. inversion H. reflexivity. Qed.

Lemma kp_get {A} (g : World -> A) : keeps f (get g).
Proof. intros w r w' H. inversion H. reflexivity. Qed.

Lemma kp_throw {A} (t : Thrown) : keeps f (@throw A t).
Proof. intros w r w' H. inversion H. reflexivity. Qed.

Lemma kp_throwErr {A} (e : JsError) : keeps f (@throwErr A e).
Proof. apply kp_throw. Qed.

Lemma kp_modify (g : World -> World) :
  (forall w, f (g w) = f w) -> keeps f (modify g).
Proof. intros Hg w r w' H. inversion H. apply Hg. Qed.

Lemma kp_bind {A B} (m : M A) (k : A -> M B) :
  keeps f m -> (forall a, keeps f (k a)) -> keeps f (bind m k).
Proof.
  intros Hm Hk w r w' H. unfold bind in H.
  destruct (m w) as [[a|t] w0] eqn:E.
  - rewrite (Hk a _ _ _ H). eapply Hm; eauto.
  - inversion H; subst. eapply Hm; eauto.
Qed.

Lemma kp_try_catch {A} (m : M A) (h : Thrown -> M A) :
  keeps f m -> (forall t, keeps f (h t)) -> keeps f (try_catch m h).
Proof.
  intros Hm Hh w r w' H. unfold try_catch in H.
  destruct (m w) as [[a|t] w0] eqn:E.
  - inversion H; subst. eapply Hm; eauto.
  - rewrite (Hh t _ _ _ H). eapply Hm; eauto.
Qed.

Lemma kp_emit (e : Event) : ignores_events f -> keeps f (emit e).
Proof. intros Hev. apply kp_modify. intros w. apply Hev. Qed.

Lemma kp_log (m : LogMethod) (s : string) : ignores_events f -> keeps f (log m s).
Proof. apply kp_emit. Qed.

Lemma kp_notify (n : Notification) : ignores_events f -> keeps f (notify n).
Proof. apply kp_emit. Qed.

Lemma kp_message_of (t : Thrown) : keeps f (message_of t).
Proof. destruct t; [apply kp_ret|apply kp_throwErr]. Qed.

Lemma kp_code_of (t : Thrown) : keeps f (code_of t).
Proof. destruct t; [apply kp_ret|apply kp_throwErr]. Qed.

Lemma kp_JSON_parse (t : FileText) : keeps f (JSON_parse t).
Proof. destruct t; [apply kp_ret|apply kp_throwErr]. Qed.

Lemma kp_prop_of (v : json) (k : string) : keeps f (prop_of v k).
Proof. destruct v; first [apply kp_ret|apply kp_throwErr]. Qed.

End Keeps.

(** One step of a proof that a computation keeps an observation: split
    along the monad operations and the case distinctions. *)
Ltac kp_step :=
  match goal with
  | |- keeps _ (bind _ _) => apply kp_bind; [|intros]
  | |- keeps _ (try_catch _ _) => apply kp_try_catch; [|intros]
  | |- keeps _ (ret _) => apply kp_ret
  | |- keeps _ (get _) => apply kp_get
  | |- keeps _ (throwErr _) => apply kp_throwErr
  | |- keeps _ (throw _) => apply kp_throw
  | |- keeps _ (log _ _) => apply kp_log; assumption
  | |- keeps _ (notify _) => apply kp_notify; assumption
  | |- keeps _ (message_of _) => apply kp_message_of
  | |- keeps _ (code_of _) => apply kp_code_of
  | |- keeps _ (JSON_parse _) => apply kp_JSON_parse
  | |- keeps _ (prop_of _ _) => apply kp_prop_of
  | H : keeps ?f ?m |- keeps ?f ?m => exact H
  | H : forall x, keeps ?f (?m x) |- keeps ?f (?m _) => apply H
  | H : forall x y, keeps ?f (?m x y) |- keeps ?f (?m _ _) => apply H
  | |- keeps _ (modify _) =>
      first [solve [auto] | apply kp_modify; intros; solve [auto | reflexivity]]
  | |- keeps _ (if ?b then _ else _) => destruct b
  | |- keeps _ (match ?x with _ => _ end) => destruct x
  | |- keeps _ (let _ := _ in _) => cbv zeta
  end.

Ltac kp := repeat kp_step.

Section CacheFrame.

Variable pf : Platform.
Variable cfg : Config.
Context {X : Type} (f : World -> X).
Hypothesis f_events : ignores_events f.
Hypothesis f_configCache : ignores_configCache f.

Lemma kp_validateAndParseDate (v : jsval) : keeps f (validateAndParseDate pf v).
Proof. unfold validateAndParseDate. kp. Qed.

Lemma kp_readAwsConfig : keeps f (readAwsConfig pf).
Proof.
  unfold readAwsConfig.
  assert (Hc : forall c m, keeps f (modify (with_configCache c m)))
    by (intros c m; apply kp_modify; intros w; apply f_configCache).
  kp.
Qed.

Lemma kp_getSsoStartUrl : keeps f (getSsoStartUrl pf cfg).
Proof. unfold getSsoStartUrl. pose proof kp_readAwsConfig. kp. Qed.

Lemma kp_fs_access (n : string) : keeps f (fs_access cfg n).
Proof. unfold fs_access. kp. Qed.

Lemma kp_fs_readFile (n : string) : keeps f (fs_readFile cfg n).
Proof. unfold fs_readFile. kp. Qed.

Lemma kp_fs_readdir : keeps f (fs_readdir cfg).
Proof. unfold fs_readdir. kp. Qed.

Lemma kp_scanCacheFiles (url : string) (names : list string) :
  keeps f (scanCacheFiles cfg url names).
Proof.
  induction names as [|n names IH]; cbn [scanCacheFiles]; [apply kp_ret|].
  pose proof (kp_fs_readFile n). kp.
Qed.

Lemma kp_getCacheFilePath : keeps f (getCacheFilePath pf cfg).
Proof.
  unfold getCacheFilePath. cbv zeta.
  pose proof kp_getSsoStartUrl. pose proof kp_fs_readdir.
  pose proof kp_fs_access. pose proof kp_scanCacheFiles.
  kp.
Qed.

Lemma kp_missing_fields (v : json) (fields : list string) :
  keeps f (missing_fields v fields).
Proof.
  induction fields as [|x fields IH]; cbn [missing_fields]; kp.
Qed.

Lemma kp_readTokenCache : keeps f (readTokenCache pf cfg).
Proof.
  unfold readTokenCache, readTokenCache_onError.
  pose proof kp_getCacheFilePath. pose proof kp_fs_readFile.
  pose proof kp_missing_fields. pose proof kp_validateAndParseDate.
  kp.
Qed.

Lemma kp_getTimeUntilExpiry (v : jsval) : keeps f (getTimeUntilExpiry pf v).
Proof. unfold getTimeUntilExpiry. pose proof kp_validateAndParseDate. kp. Qed.

Lemma kp_shouldRefresh (v : jsval) : keeps f (shouldRefresh pf cfg v).
Proof. unfold shouldRefresh. pose proof kp_getTimeUntilExpiry. kp. Qed.

Lemma kp_formatTimeRemaining (v : jsval) : keeps f (formatTimeRemaining pf v).
Proof. unfold formatTimeRemaining. pose proof kp_getTimeUntilExpiry. kp. Qed.

Lemma kp_getTokenStatus : keeps f (getTokenStatus pf cfg).
Proof.
  unfold getTokenStatus.
  pose proof kp_readTokenCache. pose proof kp_getTimeUntilExpiry.
  pose proof kp_shouldRefresh. pose proof kp_formatTimeRemaining.
  kp.
Qed.

End CacheFrame.

(** Everything of the state but the trace of events and the cached
    configuration. *)
Definition outsideLogAndConfigCache (w : World)
  : Z * nat * option (Z * AwsConfig) * option Dir * bool * Z * bool * bool * Z :=
  (clock w, requests w, awsConfigFile w, cacheDir w, abortController w,
   lastRequestTime w, monitorInterval w, isShuttingDown w,
   consecutiveFailures w).

Section CacheReadOnly.

Variable pf : Platform.
Variable cfg : Config.

(** X6.  The reading side of the cache manager is read-only.  Whatever the
    state and whether they return or throw, [getCacheFilePath],
    [readTokenCache] and [getTokenStatus] leave the cache directory, the AWS
    configuration file, the clock, the request counter and the state of the
    refresher and of the scheduler as they were, and they hand the endpoint
    the same replies as before; they only add to the log and fill the cache
    of the parsed configuration. *)
Theorem cache_reads_are_read_only (w : World) :
  let unchanged (w' : World) :=
    outsideLogAndConfigCache w' = outsideLogAndConfigCache w
    /\ oidc w' = oidc w in
  unchanged (snd (getCacheFilePath pf cfg w))
  /\ unchanged (snd (readTokenCache pf cfg w))
  /\ unchanged (snd (getTokenStatus pf cfg w)).
Proof.
  cbv zeta.
  assert (H1 : ignores_events outsideLogAndConfigCache) by (intros l w0; reflexivity).
  assert (H2 : ignores_configCache outsideLogAndConfigCache)
    by (intros c m w0; reflexivity).
  assert (H3 : ignores_events oidc) by (intros l w0; reflexivity).
  assert (H4 : ignores_configCache oidc) by (intros c m w0; reflexivity).
  repeat split.
  - destruct (getCacheFilePath pf cfg w) as [r w'] eqn:E.
    apply (kp_getCacheFilePath pf cfg _ H1 H2 _ _ _ E).
  - destruct (getCacheFilePath pf cfg w) as [r w'] eqn:E.
    apply (kp_getCacheFilePath pf cfg _ H3 H4 _ _ _ E).
  - destruct (readTokenCache pf cfg w) as [r w'] eqn:E.
    apply (kp_readTokenCache pf cfg _ H1 H2 _ _ _ E).
  - destruct (readTokenCache pf cfg w) as [r w'] eqn:E.
    apply (kp_readTokenCache pf cfg _ H3 H4 _ _ _ E).
  - destruct (getTokenStatus pf cfg w) as [r w'] eqn:E.
    apply (kp_getTokenStatus pf cfg _ H1 H2 _ _ _ E).
  - destruct (getTokenStatus pf cfg w) as [r w'] eqn:E.
    apply (kp_getTokenStatus pf cfg _ H3 H4 _ _ _ E).
Qed.

End CacheReadOnly.

(* ================================================================== *)
(** ** The status summary *)
(* ================================================================== *)

Section StatusSummary.

Variable pf : Platform.
Variable cfg : Config.

(** C9.  [getTokenStatus] always returns an object and never throws.  When
    reading the cache fails, for whatever reason, the object has
    [expired = true], [needsRefresh = true], the message of the error, and
    nothing else.  When the read succeeds, the [expiresAt] of the record is
    a string [s] that parses to a time [t], and the object has that
    [expiresAt], as time until expiry [t] minus the clock at the call,
    [expired] if and only if that time is at most 0, [needsRefresh] if and
    only if it is at most [refreshThreshold], its rendering as the formatted
    remaining time, and no error. *)
Theorem C9_getTokenStatus_never_throws (w : World) :
  exists st,
    fst (getTokenStatus pf cfg w) = Ok st
    /\ match fst (readTokenCache pf cfg w) with
       | Throw thrown =>
           exists e, thrown = ThrowErr e /\ st = errorStatus (err_message e)
       | Ok cache =>
           exists s t,
             prop cache "expiresAt" = Some (JStr s)
             /\ Date_parse pf s = Some t
             /\ st = {| st_expiresAt := Some (JStr s);
                        st_timeUntilExpiry := Some (t - clock w);
                        st_expired := t - clock w <=? 0;
                        st_needsRefresh := t - clock w <=? refreshThreshold cfg;
                        st_formattedTimeRemaining :=
                          Some (formatRemaining (t - clock w));
                        st_error := None |}
       end.
Proof.
  unfold getTokenStatus, try_catch. unfold bind at 1.
  destruct (readTokenCache pf cfg w) as [[cache|thrown] w1] eqn:Hread; cbn [fst].
  - pose proof (kp_readTokenCache pf cfg clock
                  ltac:(intros ? ?; reflexivity) ltac:(intros ? ? ?; reflexivity)
                  _ _ _ Hread) as Hclock.
    destruct (readTokenCache_inv pf cfg w w1 cache Hread)
      as (_ & _ & _ & _ & _ & _ & _ & _ & _ & _ & Hv & _ & s & t & Hs & Hne & Hparse).
    rewrite (prop_of_nonnull cache "expiresAt" Hv).
    unfold ret at 1. unfold bind at 1. unfold bind at 1.
    rewrite Hs.
    rewrite (getTimeUntilExpiry_valid pf s t w1 Hne Hparse).
    unfold bind at 1.
    destruct (shouldRefresh_valid pf cfg s t w1 Hne Hparse)
      as (w2 & Hdue & Hclock2 & _).
    rewrite Hdue. unfold bind at 1.
    rewrite (formatTimeRemaining_valid pf s t w2 Hne Hparse). rewrite Hclock2.
    unfold ret. cbn [fst]. rewrite Hclock.
    eexists. split; [reflexivity|].
    exists s, t. split; [reflexivity|]. split; [exact Hparse|reflexivity].
  - destruct (te_readTokenCache pf cfg w thrown w1 Hread) as (e & ->).
    unfold message_of, bind, ret. cbn [fst].
    eexists. split; [reflexivity|].
    exists e. split; reflexivity.
Qed.

End StatusSummary.

(** The status of the sample cache, four minutes before expiry with a
    threshold of five minutes, and the status when the cache directory is
    missing. *)
Example sample_status_due :
  fst (getTokenStatus Sample.platform Sample.config
         (Sample.world Sample.in4min (fun _ => Sample.okReply) 0))
  = Ok {| st_expiresAt := Some (JStr "2026-01-27T08:04:00Z");
          st_timeUntilExpiry := Some 240000;
          st_expired := false;
          st_needsRefresh := true;
          st_formattedTimeRemaining := Some "4m";
          st_error := None |}.
Proof. vm_compute. reflexivity. Qed.

Example sample_status_unreadable :
  fst (getTokenStatus Sample.platform Sample.config
         (with_cacheDir None
            (Sample.world Sample.in4min (fun _ => Sample.okReply) 0)))
  = Ok (errorStatus
          ("Cache directory not found: /home/user/.aws/sso/cache" ++ Str.nl
             ++ "Please ensure AWS CLI is installed and run: "
             ++ "aws sso login --profile test-profile" ++ Str.nl
             ++ "Please run: aws sso login --profile test-profile")).
Proof. vm_compute. reflexivity. Qed.

(* ================================================================== *)
(** ** The cache manager: configuration cache and path resolution *)
(* ================================================================== *)

(** The file [~/.aws/config] is rewritten (or, with [None], deleted). *)
Definition with_awsConfigFile (file : option (Z * AwsConfig)) (w : World) : World :=
  {| clock := clock w; events := events w; oidc := oidc w;
     latency := latency w;
     requests := requests w;
     awsConfigFile := file; cacheDir := cacheDir w;
     cachedAwsConfig := cachedAwsConfig w;
     configFileMtime := configFileMtime w;
     abortController := abortController w;
     lastRequestTime := lastRequestTime w;
     monitorInterval := monitorInterval w; isShuttingDown := isShuttingDown w;
     consecutiveFailures := consecutiveFailures w |}.

Lemma find_first {A} (P : A -> bool) (l : list A) (x : A) :
  List.find P l = Some x ->
  exists before after,
    l = (before ++ x :: after)%list
    /\ Forall (fun y => P y = false) before
    /\ P x = true.
Proof.
  induction l as [|y l IH]; [discriminate|]. cbn [List.find].
  destruct (P y) eqn:E.
  - intros H. inversion H; subst. exists [], l. repeat split; auto.
  - intros H. destruct (IH H) as (b & a & -> & Hb & Hx).
    exists (y :: b), a. repeat split; auto.
Qed.

Section ConfigCache.

Variable pf : Platform.
Variable cfg : Config.

(** X7.  [readAwsConfig] caches the parsed file under its modification
    time.  After a successful call, a call on a file with the same
    modification time returns the cached sections, also when the content of
    the file is another by then; on a file with another modification time
    it returns the sections of the file; after [clearConfigCache] it returns
    the sections of the file whatever the modification time; and when the
    file is gone it throws even though a parsed copy is cached. *)
Theorem readAwsConfig_caches_by_mtime (w w1 : World) (c : AwsConfig) :
  readAwsConfig pf w = (Ok c, w1) ->
  exists m,
    configFileMtime w1 = Some m
    /\ cachedAwsConfig w1 = Some c
    /\ (forall m' sections,
           let w2 := with_awsConfigFile (Some (m', sections)) w1 in
           fst (readAwsConfig pf w2) = Ok (if m =? m' then c else sections)
           /\ fst (bind clearConfigCache (fun _ => readAwsConfig pf) w2)
              = Ok sections)
    /\ fst (readAwsConfig pf (with_awsConfigFile None w1))
       = Throw (ThrowErr (Error_ ("AWS config file not found at "
                                    ++ configPath pf))).
Proof.
  intros Hrun.
  destruct (readAwsConfig_inv pf w w1 c Hrun) as ((m & secs & Hf & Hc & Hm) & _).
  exists m. split; [exact Hm|]. split; [exact Hc|]. split.
  - intros m' sections. cbv zeta. split.
    + unfold readAwsConfig. unfold_monad. cbn. rewrite Hc, Hm.
      destruct (m =? m'); reflexivity.
    + unfold clearConfigCache, readAwsConfig. unfold_monad. cbn. reflexivity.
  - unfold readAwsConfig. unfold_monad. cbn. reflexivity.
Qed.

(** The record of a file that the directory scan accepts. *)
Lemma fileMatches_true (url : string) (d : Dir) (n : string) :
  fileMatches url d n = true ->
  exists f rec,
    dir_lookup n d = Some f /\ text f = JsonText rec
    /\ prop rec "startUrl" = Some (JStr url).
Proof.
  unfold fileMatches. destruct (dir_lookup n d) as [f|]; [|discriminate].
  destruct (text f) as [v|s] eqn:Ht; [|discriminate].
  intros H. exists f, v. split; [reflexivity|]. split; [exact Ht|].
  destruct v; try discriminate H.
  all: unfold startUrl_matches in H.
  all: destruct (prop _ "startUrl") as [[| | |s| |]|]; try discriminate H.
  all: apply String.eqb_eq in H; subst s; reflexivity.
Qed.

(** X8.  The path [getCacheFilePath] returns names a file that is in the
    cache directory and ends in [.json].  It is the file named by the SHA-1
    of the start URL whenever that file exists, whatever it holds; otherwise
    it is the first [.json] file, in the order of the directory listing,
    that parses to a record whose [startUrl] is the start URL of the
    session. *)
Theorem getCacheFilePath_picks_computed_then_first_match (w w' : World)
    (p : string) :
  getCacheFilePath pf cfg w = (Ok p, w') ->
  exists c url d f,
    cfg_ready c w' /\ sessionStartUrl cfg c = Some url
    /\ cacheDir w = Some d
    /\ dir_lookup p d = Some f
    /\ Str.endsWith p ".json" = true
    /\ (p = sha1_hex pf url ++ ".json"
        \/ (dir_lookup (sha1_hex pf url ++ ".json") d = None
            /\ (exists rec, text f = JsonText rec
                            /\ prop rec "startUrl" = Some (JStr url))
            /\ exists before after,
                 List.filter (fun n => Str.endsWith n ".json") (List.map fst d)
                 = (before ++ p :: after)%list
                 /\ Forall (fun n => fileMatches url d n = false) before)).
Proof.
  intros Hrun.
  assert (Hdir : cacheDir w' = cacheDir w).
  { apply (kp_getCacheFilePath pf cfg cacheDir) with (r := Ok p); [| |exact Hrun].
    - intros l w0. reflexivity.
    - intros c0 m0 w0. reflexivity. }
  destruct (getCacheFilePath_inv pf cfg w w' p Hrun)
    as (c & url & d & (Hready & Hd) & Hurl & Hres).
  rewrite Hdir in Hd.
  pose proof (resolve_json pf url p d Hres) as Hjson.
  destruct (resolve_present pf url p d Hres) as (f & Hf).
  exists c, url, d, f. repeat (split; [assumption|]).
  unfold resolve, computedName in Hres.
  destruct (dir_lookup (sha1_hex pf url ++ ".json") d) as [g|] eqn:Hcomp.
  - left. inversion Hres. reflexivity.
  - right. split; [reflexivity|].
    destruct (find_first _ _ _ Hres) as (before & after & Hsplit & Hbefore & Hp).
    split.
    + destruct (fileMatches_true url d p Hp) as (f' & rec & Hf' & Ht & Hs).
      rewrite Hf in Hf'. inversion Hf'; subst f'. eauto.
    + exists before, after. split; assumption.
Qed.

End ConfigCache.

(** The state of the sample after the configuration was read once. *)
Definition sample_afterConfig : World :=
  snd (readAwsConfig Sample.platform
         (Sample.world Sample.in4min (fun _ => Sample.okReply) 0)).

(** X7 at the sample configuration. *)
Lemma readAwsConfig_caches_by_mtime_witness :
  exists m,
    configFileMtime sample_afterConfig = Some m
    /\ cachedAwsConfig sample_afterConfig = Some Sample.awsConfig
    /\ (forall m' sections,
           let w2 := with_awsConfigFile (Some (m', sections)) sample_afterConfig in
           fst (readAwsConfig Sample.platform w2)
           = Ok (if m =? m' then Sample.awsConfig else sections)
           /\ fst (bind clearConfigCache (fun _ => readAwsConfig Sample.platform) w2)
              = Ok sections)
    /\ fst (readAwsConfig Sample.platform (with_awsConfigFile None sample_afterConfig))
       = Throw (ThrowErr (Error_ ("AWS config file not found at "
                                    ++ configPath Sample.platform))).
Proof.
  apply (readAwsConfig_caches_by_mtime Sample.platform
           (Sample.world Sample.in4min (fun _ => Sample.okReply) 0)
           sample_afterConfig Sample.awsConfig).
  vm_compute. reflexivity.
Defined.

(** The state of the sample after the path was resolved once. *)
Definition sample_afterPath : World :=
  snd (getCacheFilePath Sample.platform Sample.config
         (Sample.world Sample.in4min (fun _ => Sample.okReply) 0)).

(** X8 at the sample cache directory. *)
Lemma getCacheFilePath_picks_computed_then_first_match_witness :
  let w := Sample.world Sample.in4min (fun _ => Sample.okReply) 0 in
  let p := Sample.cacheFileName in
  exists c url d f,
    cfg_ready c sample_afterPath /\ sessionStartUrl Sample.config c = Some url
    /\ cacheDir w = Some d
    /\ dir_lookup p d = Some f
    /\ Str.endsWith p ".json" = true
    /\ (p = sha1_hex Sample.platform url ++ ".json"
        \/ (dir_lookup (sha1_hex Sample.platform url ++ ".json") d = None
            /\ (exists rec, text f = JsonText rec
                            /\ prop rec "startUrl" = Some (JStr url))
            /\ exists before after,
                 List.filter (fun n => Str.endsWith n ".json") (List.map fst d)
                 = (before ++ p :: after)%list
                 /\ Forall (fun n => fileMatches url d n = false) before)).
Proof.
  apply (getCacheFilePath_picks_computed_then_first_match Sample.platform
           Sample.config
           (Sample.world Sample.in4min (fun _ => Sample.okReply) 0)
           sample_afterPath Sample.cacheFileName).
  vm_compute. reflexivity.
Defined.

(* ================================================================== *)
(** ** The cache manager: what it throws and what it returns *)
(* ================================================================== *)

Section CacheFailures.

Variable pf : Platform.
Variable cfg : Config.









(** X10.  What [readTokenCache] makes of a cache file it cannot use.  A
    file that is not JSON makes it throw the [SyntaxError] of the parser; a
    record in which some of the five required fields are missing or falsy
    makes it throw an [Error] that lists exactly those fields, in the order
    [accessToken, refreshToken, clientId, clientSecret, expiresAt]; a record
    with all five but an [expiresAt] that is no date makes it throw an
    [Error] that quotes the error of the date check.  The last two end with
    the login command. *)
Theorem readTokenCache_rejects_unusable_file (c : AwsConfig) (d : Dir)
    (url p : string) (f : File) (w : World) :
  cacheState c d w -> sessionStartUrl cfg c = Some url ->
  resolve pf url d = Some p -> dir_lookup p d = Some f ->
  (forall s, text f = Malformed s ->
             exists err l,
               readTokenCache pf cfg w = (Throw (ThrowErr err), with_events l w)
               /\ err_name err = "SyntaxError")
  /\ (forall rec m ms,
         text f = JsonText rec -> rec <> JNull ->
         List.filter (fun k => negb (truthy (prop rec k))) required = m :: ms ->
         exists l,
           readTokenCache pf cfg w
           = (Throw (ThrowErr
                       (Error_ (getReloginErrorMessage cfg
                                  ("Cache file missing required fields: "
                                     ++ Str.join ", " (m :: ms))))),
              with_events l w))
  /\ (forall rec,
         text f = JsonText rec -> rec <> JNull ->
         List.filter (fun k => negb (truthy (prop rec k))) required = [] ->
         ~ validDate pf (prop rec "expiresAt") ->
         exists l,
           readTokenCache pf cfg w
           = (Throw (ThrowErr
                       (Error_ (getReloginErrorMessage cfg
                                  ("Cache file has invalid expiry date: "
                                     ++ err_message
                                          (dateError (prop rec "expiresAt")))))),
              with_events l w)).
Proof.
  intros Hst Hurl Hres Hf.
  destruct (getCacheFilePath_run pf cfg c d url w Hst Hurl) as (l & Hl).
  unfold resolveOutcome in Hl. rewrite Hres in Hl.
  destruct Hst as (Hready & Hd).
  split; [|split].
  - intros s Ht.
    unfold readTokenCache, try_catch. unfold bind at 1. rewrite Hl.
    unfold fs_readFile, bind at 1, get at 1. unfold bind at 1.
    cbn [cacheDir with_events]. rewrite Hd, Hf.
    unfold ret at 1. unfold bind at 1. rewrite Ht. cbn [JSON_parse].
    unfold throwErr, throw, readTokenCache_onError, code_of, bind, ret.
    cbn [err_code SyntaxError_].
    do 2 eexists. split; reflexivity.
  - intros rec m ms Ht Hv Hmiss.
    unfold readTokenCache, try_catch. unfold bind at 1. rewrite Hl.
    unfold fs_readFile, bind at 1, get at 1. unfold bind at 1.
    cbn [cacheDir with_events]. rewrite Hd, Hf.
    unfold ret at 1. unfold bind at 1. rewrite Ht. cbn [JSON_parse].
    unfold ret at 1. unfold bind at 1.
    rewrite (missing_fields_run rec required _ Hv). rewrite Hmiss.
    unfold throwErr, throw, readTokenCache_onError, code_of, bind, ret.
    cbn [err_code Error_].
    eexists. reflexivity.
  - intros rec Ht Hv Hmiss Hbad.
    unfold readTokenCache, try_catch. unfold bind at 1. rewrite Hl.
    unfold fs_readFile, bind at 1, get at 1. unfold bind at 1.
    cbn [cacheDir with_events]. rewrite Hd, Hf.
    unfold ret at 1. unfold bind at 1. rewrite Ht. cbn [JSON_parse].
    unfold ret at 1. unfold bind at 1.
    rewrite (missing_fields_run rec required _ Hv). rewrite Hmiss.
    rewrite (prop_of_nonnull rec "expiresAt" Hv).
    unfold bind, ret. cbv beta iota.
    rewrite (validateAndParseDate_invalid pf _ _ Hbad).
    unfold message_of, throwErr, throw, readTokenCache_onError, code_of, bind, ret.
    cbn [err_code Error_].
    eexists. reflexivity.
Qed.

(** X11.  A record [readTokenCache] returns can be used without further
    checks: its five required fields are truthy, its [expiresAt] is a
    non-empty string that parses as a date, and on that [expiresAt] none of
    [getTimeUntilExpiry], [shouldRefresh] and [formatTimeRemaining]
    throws. *)
Theorem readTokenCache_result_is_usable (w w1 : World) (rec : json) :
  readTokenCache pf cfg w = (Ok rec, w1) ->
  Forall (fun k => truthy (prop rec k) = true)
    ["accessToken"; "refreshToken"; "clientId"; "clientSecret"; "expiresAt"]
  /\ exists s t,
       prop rec "expiresAt" = Some (JStr s)
       /\ s <> EmptyString /\ Date_parse pf s = Some t
       /\ getTimeUntilExpiry pf (prop rec "expiresAt") w1 = (Ok (t - clock w), w1)
       /\ fst (shouldRefresh pf cfg (prop rec "expiresAt") w1)
          = Ok (t - clock w <=? refreshThreshold cfg)
       /\ formatTimeRemaining pf (prop rec "expiresAt") w1
          = (Ok (formatRemaining (t - clock w)), w1).
Proof.
  intros Hread.
  assert (Hclock : clock w1 = clock w).
  { apply (kp_readTokenCache pf cfg clock) with (r := Ok rec); [| |exact Hread].
    - intros l w0. reflexivity.
    - intros c0 m0 w0. reflexivity. }
  destruct (readTokenCache_inv pf cfg w w1 rec Hread)
    as (_ & _ & _ & _ & _ & _ & _ & _ & _ & _ & _ & Hreq & s & t & Hs & Hne & Hparse).
  split; [exact Hreq|].
  exists s, t. rewrite Hs, <- Hclock.
  split; [reflexivity|]. split; [exact Hne|]. split; [exact Hparse|].
  split; [apply getTimeUntilExpiry_valid; assumption|].
  split.
  - destruct (shouldRefresh_valid pf cfg s t w1 Hne Hparse) as (w2 & Hrun & _).
    rewrite Hrun. reflexivity.
  - apply formatTimeRemaining_valid; assumption.
Qed.

End CacheFailures.

(** The sample state with the configuration read and another content of the
    cache directory. *)
Definition sample_withCache (dir : option Dir) : World :=
  with_cacheDir dir sample_afterConfig.

Lemma sample_afterConfig_ready (dir : option Dir) :
  cfg_ready Sample.awsConfig (sample_withCache dir).
Proof.
  exists 1769000000000, Sample.awsConfig. repeat split.
Qed.


(** A record without an access token and with an empty client secret. *)
Definition sample_incompleteRecord : json :=
  JObj [("startUrl", JStr Sample.startUrl);
        ("expiresAt", JStr Sample.in4min);
        ("clientId", JStr "test-client");
        ("clientSecret", JStr EmptyString);
        ("refreshToken", JStr "old-refresh")].

Definition sample_incompleteFile : File :=
  {| text := JsonText sample_incompleteRecord; mode := 384 |}.

(** X10 at the sample with an incomplete record. *)
Lemma readTokenCache_rejects_unusable_file_witness :
  let w := sample_withCache (Some [(Sample.cacheFileName, sample_incompleteFile)]) in
  let f := sample_incompleteFile in
  (forall s, text f = Malformed s ->
             exists err l,
               readTokenCache Sample.platform Sample.config w
               = (Throw (ThrowErr err), with_events l w)
               /\ err_name err = "SyntaxError")
  /\ (forall rec m ms,
         text f = JsonText rec -> rec <> JNull ->
         List.filter (fun k => negb (truthy (prop rec k))) required = m :: ms ->
         exists l,
           readTokenCache Sample.platform Sample.config w
           = (Throw (ThrowErr
                       (Error_ (getReloginErrorMessage Sample.config
                                  ("Cache file missing required fields: "
                                     ++ Str.join ", " (m :: ms))))),
              with_events l w))
  /\ (forall rec,
         text f = JsonText rec -> rec <> JNull ->
         List.filter (fun k => negb (truthy (prop rec k))) required = [] ->
         ~ validDate Sample.platform (prop rec "expiresAt") ->
         exists l,
           readTokenCache Sample.platform Sample.config w
           = (Throw (ThrowErr
                       (Error_ (getReloginErrorMessage Sample.config
                                  ("Cache file has invalid expiry date: "
                                     ++ err_message
                                          (dateError (prop rec "expiresAt")))))),
              with_events l w)).
Proof.
  apply (readTokenCache_rejects_unusable_file Sample.platform Sample.config
           Sample.awsConfig
           [(Sample.cacheFileName, sample_incompleteFile)]
           Sample.startUrl Sample.cacheFileName sample_incompleteFile
           (sample_withCache (Some [(Sample.cacheFileName, sample_incompleteFile)]))).
  - split; [apply sample_afterConfig_ready|reflexivity].
  - reflexivity.
  - reflexivity.
  - reflexivity.
Defined.

(** X11 at the sample. *)
Lemma readTokenCache_result_is_usable_witness :
  let w := Sample.world Sample.in4min (fun _ => Sample.okReply) 0 in
  let rec := Sample.cacheRecord Sample.in4min in
  let w1 := sample_afterRead in
  Forall (fun k => truthy (prop rec k) = true)
    ["accessToken"; "refreshToken"; "clientId"; "clientSecret"; "expiresAt"]
  /\ exists s t,
       prop rec "expiresAt" = Some (JStr s)
       /\ s <> EmptyString /\ Date_parse Sample.platform s = Some t
       /\ getTimeUntilExpiry Sample.platform (prop rec "expiresAt") w1
          = (Ok (t - clock w), w1)
       /\ fst (shouldRefresh Sample.platform Sample.config (prop rec "expiresAt") w1)
          = Ok (t - clock w <=? refreshThreshold Sample.config)
       /\ formatTimeRemaining Sample.platform (prop rec "expiresAt") w1
          = (Ok (formatRemaining (t - clock w)), w1).
Proof.
  apply (readTokenCache_result_is_usable Sample.platform Sample.config
           (Sample.world Sample.in4min (fun _ => Sample.okReply) 0)
           sample_afterRead (Sample.cacheRecord Sample.in4min)).
  vm_compute. reflexivity.
Defined.

(* ================================================================== *)
(** ** The cache manager: what a write touches *)
(* ================================================================== *)

(** Everything of the state outside the cache manager and its directory. *)
Definition outsideCacheManager (w : World)
  : Z * nat * option (Z * AwsConfig) * bool * Z * bool * bool * Z :=
  (clock w, requests w, awsConfigFile w, abortController w,
   lastRequestTime w, monitorInterval w, isShuttingDown w,
   consecutiveFailures w).

Section WriteFrame.

Variable pf : Platform.
Variable cfg : Config.

(** [writeTokenCache] from the read of the current file on. *)
Definition writeBody (newTokens : json) (cachePath : string) : M bool :=
  (content <- fs_readFile cfg cachePath ;;
   currentCache <- JSON_parse content ;;
   accessToken <- prop_of newTokens "accessToken" ;;
   expiresAt <- prop_of newTokens "expiresAt" ;;
   refreshToken <- prop_of newTokens "refreshToken" ;;
   let updatedCache := mergeTokens currentCache accessToken expiresAt refreshToken in
   writeFileAtomic pf cfg cachePath (JsonText updatedCache) 384 ;;;
   fs_chmod cfg cachePath 384 ;;;
   log LSuccess "Token cache updated successfully" ;;;
   ret true)%js.

Lemma writeTokenCache_unfold (nt : json) :
  writeTokenCache pf cfg nt
  = try_catch (bind (getCacheFilePath pf cfg) (writeBody nt))
      (writeTokenCache_onError).
Proof. reflexivity. Qed.

(** The body either writes the merged record, or throws an [Error] object
    and leaves the state as it was. *)
Lemma writeBody_run (nt : json) (p : string) (d : Dir) (f : File) (w : World) :
  cacheDir w = Some d -> dir_lookup p d = Some f ->
  (exists cur,
      text f = JsonText cur /\ nt <> JNull
      /\ writeBody nt p w
         = (Ok true,
            with_events (events w ++ [EvLog LSuccess "Token cache updated successfully"])
              (with_cacheDir (Some (written pf p (JsonText (merged cur nt)) d)) w)))
  \/ (exists e, writeBody nt p w = (Throw (ThrowErr e), w)).
Proof.
  intros Hd Hf.
  assert (Hread : forall k : FileText -> M bool,
             bind (fs_readFile cfg p) k w = k (text f) w).
  { intros k. unfold fs_readFile, bind, get. rewrite Hd, Hf. reflexivity. }
  destruct (text f) as [cur|s] eqn:Ht.
  - assert (Hv : nt = JNull \/ nt <> JNull)
      by (destruct nt; [left; reflexivity|right; discriminate..]).
    destruct Hv as [->|Hnt].
    + right. unfold writeBody. rewrite Hread.
      cbn [JSON_parse prop_of]. unfold throwErr, throw, bind, ret.
      eexists. reflexivity.
    + left. exists cur. split; [reflexivity|]. split; [exact Hnt|].
      unfold writeBody. rewrite Hread. cbn [JSON_parse].
      unfold ret at 1. unfold bind at 1.
      rewrite !(prop_of_nonnull nt _ Hnt).
      unfold writeFileAtomic, fs_chmod. unfold_monad. cbn. rewrite Hd. cbn.
      change (fs_steps (writeFileAtomic_steps pf p ?t 384) d)
        with (interrupted pf 3 p t d).
      rewrite interrupted_3_lookup. cbn. reflexivity.
  - right. unfold writeBody. rewrite Hread. cbn [JSON_parse].
    unfold throwErr, throw, bind. eexists. reflexivity.
Qed.

Lemma kp_writeTokenCache {X} (f : World -> X) (nt : json) :
  ignores_events f -> ignores_configCache f -> ignores_cacheDir f ->
  keeps f (writeTokenCache pf cfg nt).
Proof.
  intros Hev Hcc Hcd. unfold writeTokenCache, writeTokenCache_onError.
  unfold writeFileAtomic, fs_chmod.
  pose proof (kp_getCacheFilePath pf cfg f Hev Hcc).
  pose proof (kp_fs_readFile cfg f).
  assert (Hd : forall d, keeps f (modify (with_cacheDir d)))
    by (intros d; apply kp_modify; intros w; apply Hcd).
  kp.
Qed.

(** X12.  [writeTokenCache] touches one file only.  Whatever its argument
    and the state, it leaves the clock, the request counter, the AWS
    configuration file and the state of the refresher and of the scheduler as
    they were.  When it throws, the cache directory is exactly as it was.
    When it returns, the file it resolved existed before, now holds the
    merged record with mode 0600 (whatever its mode was), and every other
    file of the directory is as it was, the temporary name apart. *)
Theorem writeTokenCache_touches_only_the_cache_file (nt : json) (w : World) :
  exists r w',
    writeTokenCache pf cfg nt w = (r, w')
    /\ outsideCacheManager w' = outsideCacheManager w
    /\ match r with
       | Throw _ => cacheDir w' = cacheDir w
       | Ok _ =>
           exists d d' p old cur,
             cacheDir w = Some d /\ cacheDir w' = Some d'
             /\ dir_lookup p d = Some old /\ text old = JsonText cur
             /\ dir_lookup p d'
                = Some {| text := JsonText (merged cur nt); mode := 384 |}
             /\ (forall n, n <> p -> n <> tmpname pf p ->
                           dir_lookup n d' = dir_lookup n d)
       end.
Proof.
  destruct (writeTokenCache pf cfg nt w) as [r w'] eqn:Hrun.
  exists r, w'. split; [reflexivity|]. split.
  { apply (kp_writeTokenCache outsideCacheManager nt) with (r := r);
      [intros ? ?; reflexivity|intros ? ? ?; reflexivity
      |intros ? ?; reflexivity|exact Hrun]. }
  rewrite writeTokenCache_unfold in Hrun.
  unfold try_catch in Hrun. unfold bind at 1 in Hrun.
  destruct (getCacheFilePath pf cfg w) as [[p|t] w0] eqn:Hp.
  - assert (Hdir : cacheDir w0 = cacheDir w).
    { apply (kp_getCacheFilePath pf cfg cacheDir) with (r := Ok p);
        [intros ? ?; reflexivity|intros ? ? ?; reflexivity|exact Hp]. }
    destruct (getCacheFilePath_inv pf cfg w w0 p Hp)
      as (c & url & d & (Hready & Hd) & Hurl & Hres).
    destruct (resolve_present pf url p d Hres) as (f & Hf).
    destruct (writeBody_run nt p d f w0 Hd Hf)
      as [(cur & Ht & Hnt & Hbody)|(e & Hbody)]; rewrite Hbody in Hrun.
    + inversion Hrun; subst r w'; clear Hrun.
      exists d, (written pf p (JsonText (merged cur nt)) d), p, f, cur.
      rewrite <- Hdir.
      split; [exact Hd|]. split; [reflexivity|].
      split; [exact Hf|]. split; [exact Ht|].
      split; [apply written_lookup|].
      intros n Hn Htmp. apply written_other; assumption.
    + unfold writeTokenCache_onError, message_of in Hrun.
      unfold_monad. cbn in Hrun.
      inversion Hrun; subst r w'; clear Hrun. exact Hdir.
  - assert (Hdir : cacheDir w0 = cacheDir w).
    { apply (kp_getCacheFilePath pf cfg cacheDir) with (r := Throw t);
        [intros ? ?; reflexivity|intros ? ? ?; reflexivity|exact Hp]. }
    destruct (te_getCacheFilePath pf cfg w t w0 Hp) as (e & ->).
    unfold writeTokenCache_onError, message_of in Hrun.
    unfold_monad. cbn in Hrun.
    inversion Hrun; subst r w'; clear Hrun. exact Hdir.
Qed.

End WriteFrame.

(* ================================================================== *)
(** ** The token refresher: one exchange *)
(* ================================================================== *)

Section Exchange.

Variable pf : Platform.
Variable cfg : Config.

(** The time at which [refreshToken] sends its request: at once, or when
    [MIN_REQUEST_INTERVAL_MS] have passed since the request before. *)
Definition requestTime (w : World) : Z :=
  Z.max (clock w) (lastRequestTime w + MIN_REQUEST_INTERVAL_MS).

(** The time at which the reply to that request is there. *)
Definition responseTime (w : World) : Z :=
  requestTime w + latency w (requests w).

(** What [refreshToken] does before the request when it comes too early. *)
Definition rateLimitEvents (w : World) : list Event :=
  if clock w - lastRequestTime w <? MIN_REQUEST_INTERVAL_MS then
    let waitTime := MIN_REQUEST_INTERVAL_MS - (clock w - lastRequestTime w) in
    [EvLog LDebug ("Rate limiting: waiting " ++ Str.of_Z waitTime
                     ++ "ms before OIDC request to prevent hammering endpoint");
     EvSleep RateLimit waitTime]
  else [].

(** Everything one call of [refreshToken] does to the outside. *)
Definition attemptEvents (credentials : Credentials) (w : World) : list Event :=
  (rateLimitEvents w
   ++ [EvLog LRefresh "Attempting token refresh";
       EvPost (getOidcEndpoint cfg) credentials CONSTANTS.OIDC_REQUEST_TIMEOUT_MS]
   ++ match attemptResult pf cfg (responseTime w) credentials (oidc w (requests w)) with
      | inl _ => [EvLog LSuccess "Token refresh successful"]
      | inr _ => []
      end)%list.

(** The state one call of [refreshToken] leaves. *)
Definition afterAttempt (credentials : Credentials) (w : World) : World :=
  {| clock := responseTime w;
     events := (events w ++ attemptEvents credentials w)%list;
     oidc := oidc w;
     requests := S (requests w);
     latency := latency w;
     awsConfigFile := awsConfigFile w; cacheDir := cacheDir w;
     cachedAwsConfig := cachedAwsConfig w;
     configFileMtime := configFileMtime w;
     abortController := false;
     lastRequestTime := requestTime w;
     monitorInterval := monitorInterval w; isShuttingDown := isShuttingDown w;
     consecutiveFailures := consecutiveFailures w |}.

(** One call of [refreshToken], in full. *)
Lemma refreshToken_effect (credentials : Credentials) (w : World) :
  refreshToken pf cfg credentials w
  = (outcome_of (attemptResult pf cfg (responseTime w) credentials
                   (oidc w (requests w))),
     afterAttempt credentials w).
Proof.
  unfold afterAttempt, attemptEvents, rateLimitEvents, attemptResult,
    responseTime.
  unfold refreshToken, sleep, axios_post. unfold_monad. cbn.
  destruct (clock w - lastRequestTime w <? MIN_REQUEST_INTERVAL_MS) eqn:E; cbn.
  - apply Z.ltb_lt in E.
    assert (Hc : clock w + Z.max 0 (MIN_REQUEST_INTERVAL_MS
                                      - (clock w - lastRequestTime w))
                 = requestTime w) by (unfold requestTime; lia).
    rewrite !Hc.
    destruct (oidc w (requests w)) as [[d|]|e] eqn:Hreply; cbn.
    all: try (destruct d; cbn).
    all: repeat match goal with
           | |- context [negb (truthy ?a) || negb (truthy ?b)] =>
               destruct (negb (truthy a) || negb (truthy b)) eqn:?; cbn
           | |- context [match expiryDate ?p ?n ?x with _ => _ end] =>
               destruct (expiryDate p n x) eqn:?; cbn
           end.
    all: unfold_monad; cbn; rewrite <- ?app_assoc; cbn; reflexivity.
  - apply Z.ltb_ge in E.
    assert (Hc : clock w = requestTime w) by (unfold requestTime; lia).
    rewrite <- !Hc.
    destruct (oidc w (requests w)) as [[d|]|e] eqn:Hreply; cbn.
    all: try (destruct d; cbn).
    all: repeat match goal with
           | |- context [negb (truthy ?a) || negb (truthy ?b)] =>
               destruct (negb (truthy a) || negb (truthy b)) eqn:?; cbn
           | |- context [match expiryDate ?p ?n ?x with _ => _ end] =>
               destruct (expiryDate p n x) eqn:?; cbn
           end.
    all: unfold_monad; cbn; rewrite <- ?app_assoc; cbn; reflexivity.
Qed.

(** The expiry computed for an [expiresIn] that is a number. *)
Lemma expiryDate_number (now n : Z) :
  expiryDate pf now (Some (JNum n))
  = match Date_toISOString pf (now + n * 1000) with
    | Some expiresAt => inl expiresAt
    | None => inr (RangeError_ "Invalid time value")
    end.
Proof. reflexivity. Qed.

End Exchange.

(* ================================================================== *)
(** ** The token refresher: the retry policy *)
(* ================================================================== *)


Section RetryPolicy.

Variable pf : Platform.
Variable cfg : Config.







End RetryPolicy.

(** C3 at a sample: a timeout, then a success, with three attempts allowed.
    The second attempt ends the loop, one attempt before the last. *)
Definition sample_script_timeout_then_ok (i : nat) : AxiosReply :=
  match i with
  | 0%nat => Sample.timeout
  | _ => Sample.okReply
  end.


(** The same run in figures: the request is sent at once and times out
    after 250 ms, the loop sleeps 10 s, the second request is sent and
    answered after another 250 ms, and the token expires one hour later. *)
Example sample_retry_then_success :
  let w := Sample.world Sample.in4min sample_script_timeout_then_ok 0 in
  let r := refreshTokenWithRetry Sample.platform Sample.config
             Sample.credentials 3 w in
  fst r = Ok {| tk_accessToken := Some (JStr "new-access-token");
                tk_refreshToken := Some (JStr "new-refresh-token");
                tk_expiresAt := "2026-01-27T09:00:10.500Z";
                tk_expiresIn := Some (JNum 3600) |}
  /\ requests (snd r) = 2%nat
  /\ backoffs (events (snd r)) = [10000]
  /\ clock (snd r) = Sample.now + 250 + 10000 + 250.
Proof. vm_compute. repeat split. Qed.

(** An [expiresIn] that is not a number is turned into one: the string
    [3600] gives the same expiry as the number, at the first attempt. *)
Example sample_expiresIn_string :
  let w := Sample.world Sample.in4min (fun _ => Sample.okReply_string) 0 in
  let r := refreshTokenWithRetry Sample.platform Sample.config
             Sample.credentials 3 w in
  fst r = Ok {| tk_accessToken := Some (JStr "new-access-token");
                tk_refreshToken := Some (JStr "old-refresh");
                tk_expiresAt := "2026-01-27T09:00:00.250Z";
                tk_expiresIn := Some (JStr "3600") |}
  /\ requests (snd r) = 1%nat.
Proof. vm_compute. repeat split. Qed.

Section ExchangeProperties.

Variable pf : Platform.
Variable cfg : Config.

(** X13.  [refreshToken] keeps its requests at least
    [MIN_REQUEST_INTERVAL_MS] (5 seconds) apart.  A call made sooner after
    the request before logs the wait and sleeps for the rest of the
    interval; then, in every case, it records the time of the request, logs
    the attempt and sends exactly one POST, to the endpoint of the
    configuration, with the credentials it was given and the 30 second
    timeout.  The call is over when the reply is there: the clock then
    reads the time of the request plus the time the request took.  It logs
    the success if it returns, and nothing more if it throws.  When it is
    over no abort controller is left. *)
Theorem refreshToken_spaces_requests (credentials : Credentials) (w : World) :
  let r := fst (refreshToken pf cfg credentials w) in
  let w' := snd (refreshToken pf cfg credentials w) in
  lastRequestTime w' = Z.max (clock w) (lastRequestTime w + 5000)
  /\ lastRequestTime w + 5000 <= lastRequestTime w'
  /\ clock w' = lastRequestTime w' + latency w (requests w)
  /\ requests w' = S (requests w)
  /\ abortController w' = false
  /\ events w'
     = (events w
        ++ (if clock w - lastRequestTime w <? 5000 then
              [EvLog LDebug
                 ("Rate limiting: waiting "
                    ++ Str.of_Z (5000 - (clock w - lastRequestTime w))
                    ++ "ms before OIDC request to prevent hammering endpoint");
               EvSleep RateLimit (5000 - (clock w - lastRequestTime w))]
            else [])
        ++ [EvLog LRefresh "Attempting token refresh";
            EvPost (getOidcEndpoint cfg) credentials 30000]
        ++ match r with
           | Ok _ => [EvLog LSuccess "Token refresh successful"]
           | Throw _ => []
           end)%list.
Proof.
  cbv zeta. rewrite (refreshToken_effect pf cfg credentials w). cbn [fst snd].
  unfold afterAttempt, attemptEvents, rateLimitEvents, responseTime,
    requestTime.
  cbn [lastRequestTime clock requests abortController events].
  change MIN_REQUEST_INTERVAL_MS with 5000.
  change CONSTANTS.OIDC_REQUEST_TIMEOUT_MS with 30000.
  split; [reflexivity|]. split; [lia|]. split; [reflexivity|].
  split; [reflexivity|]. split; [reflexivity|].
  destruct (attemptResult pf cfg _ credentials (oidc w (requests w)));
    reflexivity.
Qed.

(** X14.  A response with a truthy [accessToken] and a non-zero number
    [expiresIn] makes [refreshToken] return that access token, the new
    refresh token if the response has one and the one it sent otherwise, and
    as [expiresAt] the ISO rendering of the time at which the reply is there
    (the time of the request plus the time the request took) plus
    [expiresIn] seconds. *)
Theorem refreshToken_success (credentials : Credentials) (w : World)
    (fs : list (string * json)) (n : Z) (iso : string) :
  oidc w (requests w) = Resolved (Some (JObj fs)) ->
  truthy (Obj.lookup "accessToken" fs) = true ->
  Obj.lookup "expiresIn" fs = Some (JNum n) -> n <> 0 ->
  Date_toISOString pf (Z.max (clock w) (lastRequestTime w + 5000)
                       + latency w (requests w) + n * 1000)
  = Some iso ->
  fst (refreshToken pf cfg credentials w)
  = Ok {| tk_accessToken := Obj.lookup "accessToken" fs;
          tk_refreshToken :=
            if truthy (Obj.lookup "refreshToken" fs)
            then Obj.lookup "refreshToken" fs
            else cred_refreshToken credentials;
          tk_expiresAt := iso;
          tk_expiresIn := Some (JNum n) |}.
Proof.
  intros Hreply Ha He Hn Hiso.
  rewrite (refreshToken_effect pf cfg credentials w). cbn [fst].
  unfold attemptResult. rewrite Hreply. cbn [prop].
  rewrite Ha, He. cbn [truthy negb orb].
  replace (n =? 0) with false by (symmetry; apply Z.eqb_neq; exact Hn).
  cbn [negb]. rewrite (expiryDate_number pf).
  unfold responseTime, requestTime. change MIN_REQUEST_INTERVAL_MS with 5000.
  rewrite Hiso. reflexivity.
Qed.

(** A retryable failure before the last attempt, for the run at hand: the
    loop waits and goes on. *)
Lemma retryLoop_retry_run (fuel : nat) (credentials : Credentials) (n a : nat)
    (lastError : Thrown) (w w2 : World) (e : JsError) :
  (a < n)%nat ->
  refreshToken pf cfg credentials w = (Throw (ThrowErr e), w2) ->
  retryable e ->
  exists w',
    retryLoop pf cfg (S fuel) credentials (Z.of_nat n) (Z.of_nat a) lastError w
    = retryLoop pf cfg fuel credentials (Z.of_nat n) (Z.of_nat a + 1) (ThrowErr e) w'
    /\ ran w w' 1 [retryBackoffSeconds cfg * Z.of_nat a * 1000].
Proof.
  intros Han Hrun Hretry.
  destruct (refreshToken_ran pf cfg credentials w) as (w1 & Hrun1 & Hran).
  rewrite Hrun in Hrun1. inversion Hrun1 as [[Hres Hw]]. subst w2. clear Hrun1.
  cbn [retryLoop].
  replace (Z.of_nat a <=? Z.of_nat n) with true by (symmetry; apply Z.leb_le; lia).
  unfold bind at 1. unfold try_catch at 1. unfold bind at 1.
  rewrite Hrun. unfold message_of, bind, ret. cbn.
  unfold retryable in Hretry. rewrite Hretry.
  replace (Z.of_nat a <? Z.of_nat n) with true by (symmetry; apply Z.ltb_lt; lia).
  unfold sleep, log, emit, modify, bind. cbn.
  eexists. split; [reflexivity|].
  destruct Hran as (Hr & (evs & He & Hb) & Hs).
  split; [cbn; exact Hr|].
  split.
  - eexists. cbn. rewrite He, <- !app_assoc. split; [reflexivity|].
    rewrite backoffs_app, Hb. reflexivity.
  - destruct Hs as (?&?&?&?&?&?&?&?). repeat split; cbn; assumption.
Qed.

(** The loop from attempt [a] on, whatever the endpoint does: it makes
    [k+1] requests for some [k] with [a + k <= n], sleeps the back-off after
    each of them but the last, and throws no [undefined]. *)
Lemma retryLoop_shape (credentials : Credentials) (n : nat) :
  forall (fuel a : nat) (lastError : Thrown) (w : World),
    (a <= n)%nat -> (fuel + a = n + 1)%nat ->
    exists k r w',
      retryLoop pf cfg fuel credentials (Z.of_nat n) (Z.of_nat a) lastError w
      = (r, w')
      /\ (a + k <= n)%nat
      /\ ran w w' (S k) (backoffSchedule cfg a k)
      /\ (r <> Throw ThrowUndefined).
Proof.
  induction fuel as [|fuel IH]; intros a lastError w Han Hfuel; [lia|].
  destruct (refreshToken pf cfg credentials w) as [[t|[e|]] w2] eqn:Hrun.
  - destruct (retryLoop_success pf cfg fuel credentials n a lastError w w2 t Han Hrun)
      as (w' & Hres & Hran).
    exists 0%nat, (Ok t), w'. rewrite Hres.
    split; [reflexivity|]. split; [lia|]. split; [exact Hran|discriminate].
  - destruct (isNonRetryable (err_message e)) eqn:Hclass.
    + destruct (retryLoop_fatal pf cfg fuel credentials n a lastError w w2 e
                  Han Hrun Hclass) as (w' & Hres & Hran).
      exists 0%nat, (Throw (ThrowErr e)), w'. rewrite Hres.
      split; [reflexivity|]. split; [lia|]. split; [exact Hran|discriminate].
    + assert (Hcase : (a < n)%nat \/ a = n) by lia.
      destruct Hcase as [Hlt| ->].
      * destruct (retryLoop_retry_run fuel credentials n a lastError w w2 e
                    Hlt Hrun Hclass) as (w1 & Hstep & Hran1).
        replace (Z.of_nat a + 1) with (Z.of_nat (S a)) in Hstep by lia.
        destruct (IH (S a) (ThrowErr e) w1 ltac:(lia) ltac:(lia))
          as (k & r & w' & Hrest & Hk & Hran2 & Hr).
        exists (S k), r, w'. rewrite Hstep, Hrest.
        split; [reflexivity|]. split; [lia|]. split; [|exact Hr].
        pose proof (ran_trans _ _ _ _ _ _ _ Hran1 Hran2) as H.
        exact H.
      * destruct (retryLoop_exhausted pf cfg fuel credentials n lastError w w2 e
                    Hrun Hclass) as (w' & Hres & Hran).
        exists 0%nat, (Throw (ThrowErr e)), w'. rewrite Hres.
        split; [reflexivity|]. split; [lia|]. split; [exact Hran|discriminate].
  - exfalso.
    rewrite (refreshToken_effect pf cfg credentials w) in Hrun.
    destruct (attemptResult pf cfg _ credentials _); discriminate Hrun.
Qed.

(** X15.  Whatever the endpoint answers, [refreshTokenWithRetry] with
    [maxAttempts >= 1] makes at least one and at most [maxAttempts]
    requests; it sleeps the linear back-off, [attempt * retryBackoffSeconds]
    seconds, after each request but the last one it makes, and at no other
    time; it changes nothing outside the token refresher; and what it throws
    is never [undefined]. *)
Theorem refreshTokenWithRetry_attempts_and_waits (credentials : Credentials)
    (maxAttempts : Z) (w : World) :
  1 <= maxAttempts ->
  exists (k : nat) r w',
    refreshTokenWithRetry pf cfg credentials maxAttempts w = (r, w')
    /\ Z.of_nat k < maxAttempts
    /\ requests w' = (requests w + S k)%nat
    /\ (exists evs,
           events w' = (events w ++ evs)%list
           /\ backoffs evs
              = List.map (fun i => retryBackoffSeconds cfg * Z.of_nat i * 1000)
                  (List.seq 1 k))
    /\ same_outside_refresher w w'
    /\ r <> Throw ThrowUndefined.
Proof.
  intros Hmax. unfold refreshTokenWithRetry.
  remember (Z.to_nat maxAttempts) as n eqn:Hn.
  assert (HN : Z.of_nat n = maxAttempts) by lia.
  destruct (retryLoop_shape credentials n n 1 ThrowUndefined w
              ltac:(lia) ltac:(lia)) as (k & r & w' & Hrun & Hk & Hran & Hr).
  change (Z.of_nat 1) with 1 in Hrun. rewrite HN in Hrun.
  exists k, r, w'. split; [exact Hrun|]. split; [lia|].
  destruct Hran as (Hreq & Hev & Hsame).
  split; [exact Hreq|]. split; [exact Hev|]. split; [exact Hsame|exact Hr].
Qed.

(** X16.  A request that was aborted for shutdown is not retried and not
    reported as a failure: when the endpoint call is rejected with a
    [CanceledError] (or the code [ERR_CANCELED]), [refreshTokenWithRetry]
    throws [Token refresh canceled due to shutdown] after that one request,
    without sleeping and without logging anything after the attempt. *)
Theorem canceled_request_is_not_retried (credentials : Credentials)
    (maxAttempts : Z) (w : World) (e : JsError) :
  1 <= maxAttempts ->
  oidc w (requests w) = Rejected e ->
  err_name e = "CanceledError" \/ err_code e = Some "ERR_CANCELED" ->
  exists w',
    refreshTokenWithRetry pf cfg credentials maxAttempts w
    = (Throw (ThrowErr (Error_ "Token refresh canceled due to shutdown")), w')
    /\ requests w' = S (requests w)
    /\ events w'
       = (events w ++ rateLimitEvents w
          ++ [EvLog LRefresh "Attempting token refresh";
              EvPost (getOidcEndpoint cfg) credentials 30000])%list.
Proof.
  intros Hmax Hreply Hcancel.
  assert (Herr : refreshError cfg (getOidcEndpoint cfg) e
                 = Error_ "Token refresh canceled due to shutdown").
  { unfold refreshError. destruct Hcancel as [Hn|Hc].
    - rewrite Hn. reflexivity.
    - rewrite Hc. cbn [opt_eqb]. rewrite orb_true_r. reflexivity. }
  unfold refreshTokenWithRetry.
  destruct (Z.to_nat maxAttempts) as [|fuel] eqn:Hfuel; [lia|].
  cbn [retryLoop].
  replace (1 <=? maxAttempts) with true by (symmetry; apply Z.leb_le; exact Hmax).
  unfold bind at 1. unfold try_catch at 1. unfold bind at 1.
  rewrite (refreshToken_effect pf cfg credentials w).
  unfold afterAttempt, attemptEvents.
  unfold attemptResult. rewrite Hreply, Herr. cbn [outcome_of].
  unfold message_of, bind, ret. cbn [err_message Error_].
  change (isNonRetryable "Token refresh canceled due to shutdown") with true.
  change (Str.includes "Token refresh canceled due to shutdown"
            "canceled due to shutdown") with true.
  cbn [negb]. unfold throw.
  eexists. split; [reflexivity|]. split; [reflexivity|].
  cbn [events]. rewrite app_nil_r. reflexivity.
Qed.

End ExchangeProperties.

(** X14 at the sample reply. *)
Lemma refreshToken_success_witness :
  let w := Sample.world Sample.in4min (fun _ => Sample.okReply) 0 in
  let fs := [("accessToken", JStr "new-access-token");
             ("refreshToken", JStr "new-refresh-token");
             ("expiresIn", JNum 3600)] in
  fst (refreshToken Sample.platform Sample.config Sample.credentials w)
  = Ok {| tk_accessToken := Obj.lookup "accessToken" fs;
          tk_refreshToken :=
            if truthy (Obj.lookup "refreshToken" fs)
            then Obj.lookup "refreshToken" fs
            else cred_refreshToken Sample.credentials;
          tk_expiresAt := "2026-01-27T09:00:00.250Z";
          tk_expiresIn := Some (JNum 3600) |}.
Proof.
  apply (refreshToken_success Sample.platform Sample.config Sample.credentials
           (Sample.world Sample.in4min (fun _ => Sample.okReply) 0)
           [("accessToken", JStr "new-access-token");
            ("refreshToken", JStr "new-refresh-token");
            ("expiresIn", JNum 3600)] 3600 "2026-01-27T09:00:00.250Z").
  - reflexivity.
  - reflexivity.
  - reflexivity.
  - lia.
  - vm_compute. reflexivity.
Defined.

(** X15 at the sample endpoint that times out twice. *)
Lemma refreshTokenWithRetry_attempts_and_waits_witness :
  let w := Sample.world Sample.in4min sample_script_2timeouts 0 in
  exists (k : nat) r w',
    refreshTokenWithRetry Sample.platform Sample.config Sample.credentials 3 w
    = (r, w')
    /\ Z.of_nat k < 3
    /\ requests w' = (requests w + S k)%nat
    /\ (exists evs,
           events w' = (events w ++ evs)%list
           /\ backoffs evs
              = List.map (fun i => retryBackoffSeconds Sample.config
                                   * Z.of_nat i * 1000)
                  (List.seq 1 k))
    /\ same_outside_refresher w w'
    /\ r <> Throw ThrowUndefined.
Proof.
  apply (refreshTokenWithRetry_attempts_and_waits Sample.platform Sample.config
           Sample.credentials 3
           (Sample.world Sample.in4min sample_script_2timeouts 0)).
  lia.
Defined.

(** A request aborted by [cleanup()]. *)
Definition sample_canceled : JsError :=
  {| err_name := "CanceledError"; err_message := "canceled";
     err_code := Some "ERR_CANCELED"; err_response := None |}.

(** X16 at the sample. *)
Lemma canceled_request_is_not_retried_witness :
  let w := Sample.world Sample.in4min (fun _ => Rejected sample_canceled) 0 in
  exists w',
    refreshTokenWithRetry Sample.platform Sample.config Sample.credentials 3 w
    = (Throw (ThrowErr (Error_ "Token refresh canceled due to shutdown")), w')
    /\ requests w' = S (requests w)
    /\ events w'
       = (events w ++ rateLimitEvents w
          ++ [EvLog LRefresh "Attempting token refresh";
              EvPost (getOidcEndpoint Sample.config) Sample.credentials 30000])%list.
Proof.
  apply (canceled_request_is_not_retried Sample.platform Sample.config
           Sample.credentials 3
           (Sample.world Sample.in4min (fun _ => Rejected sample_canceled) 0)
           sample_canceled).
  - lia.
  - reflexivity.
  - left. reflexivity.
Defined.

(* ================================================================== *)
(** ** Frames and exceptions of the refresher and of the writer *)
(* ================================================================== *)

Lemma te_try_catch_any {A} (m : M A) (h : Thrown -> M A) :
  (forall t, throwsErrors (h t)) -> throwsErrors (try_catch m h).
Proof.
  intros Hh w t w' H. unfold try_catch in H.
  destruct (m w) as [[a|t0] w0] eqn:E; [discriminate|].
  eapply Hh; eauto.
Qed.

Lemma te_message_of_any (t : Thrown) : throwsErrors (message_of t).
Proof. destruct t; [apply te_ret|apply te_throwErr]. Qed.

Lemma te_emit (e : Event) : throwsErrors (emit e).
Proof. intros w t w' H. discriminate H. Qed.

Lemma te_notify (n : Notification) : throwsErrors (notify n).
Proof. apply te_emit. Qed.

(** The computation only adds events, and only events that [P] accepts. *)
Definition emitsOnly {A} (P : Event -> bool) (m : M A) : Prop :=
  forall w r w', m w = (r, w') ->
                 exists l, events w' = (events w ++ l)%list /\ forallb P l = true.

Definition isLog (e : Event) : bool :=
  match e with EvLog _ _ => true | _ => false end.

Section EmitsOnly.

Variable P : Event -> bool.

Lemma eo_ret {A} (a : A) : emitsOnly P (ret a).
Proof.
  intros w r w' H. inversion H. exists []. rewrite app_nil_r. auto.
Qed.

Lemma eo_get {A} (g : World -> A) : emitsOnly P (get g).
Proof.
  intros w r w' H. inversion H. exists []. rewrite app_nil_r. auto.
Qed.

Lemma eo_throw {A} (t : Thrown) : emitsOnly P (@throw A t).
Proof.
  intros w r w' H. inversion H. exists []. rewrite app_nil_r. auto.
Qed.

Lemma eo_throwErr {A} (e : JsError) : emitsOnly P (@throwErr A e).
Proof. apply eo_throw. Qed.

Lemma eo_modify (g : World -> World) :
  (forall w, events (g w) = events w) -> emitsOnly P (modify g).
Proof.
  intros Hg w r w' H. inversion H. exists []. rewrite app_nil_r, Hg. auto.
Qed.

Lemma eo_emit (e : Event) : P e = true -> emitsOnly P (emit e).
Proof.
  intros He w r w' H. inversion H. exists [e]. cbn. rewrite He. auto.
Qed.

Lemma eo_bind {A B} (m : M A) (k : A -> M B) :
  emitsOnly P m -> (forall a, emitsOnly P (k a)) -> emitsOnly P (bind m k).
Proof.
  intros Hm Hk w r w' H. unfold bind in H.
  destruct (m w) as [[a|t] w0] eqn:E.
  - destruct (Hm _ _ _ E) as (l1 & H1 & P1).
    destruct (Hk a _ _ _ H) as (l2 & H2 & P2).
    exists (l1 ++ l2)%list. rewrite H2, H1, app_assoc, forallb_app, P1, P2. auto.
  - inversion H; subst. eapply Hm; eauto.
Qed.

Lemma eo_try_catch {A} (m : M A) (h : Thrown -> M A) :
  emitsOnly P m -> (forall t, emitsOnly P (h t)) -> emitsOnly P (try_catch m h).
Proof.
  intros Hm Hh w r w' H. unfold try_catch in H.
  destruct (m w) as [[a|t] w0] eqn:E.
  - inversion H; subst. eapply Hm; eauto.
  - destruct (Hm _ _ _ E) as (l1 & H1 & P1).
    destruct (Hh t _ _ _ H) as (l2 & H2 & P2).
    exists (l1 ++ l2)%list. rewrite H2, H1, app_assoc, forallb_app, P1, P2. auto.
Qed.

Lemma eo_message_of (t : Thrown) : emitsOnly P (message_of t).
Proof. destruct t; [apply eo_ret|apply eo_throwErr]. Qed.

Lemma eo_code_of (t : Thrown) : emitsOnly P (code_of t).
Proof. destruct t; [apply eo_ret|apply eo_throwErr]. Qed.

Lemma eo_JSON_parse (t : FileText) : emitsOnly P (JSON_parse t).
Proof. destruct t; [apply eo_ret|apply eo_throwErr]. Qed.

Lemma eo_prop_of (v : json) (k : string) : emitsOnly P (prop_of v k).
Proof. destruct v; first [apply eo_ret|apply eo_throwErr]. Qed.

End EmitsOnly.

Lemma eo_log (m : LogMethod) (s : string) : emitsOnly isLog (log m s).
Proof. apply eo_emit. reflexivity. Qed.

Ltac eo_step :=
  match goal with
  | |- emitsOnly _ (bind _ _) => apply eo_bind; [|intros]
  | |- emitsOnly _ (try_catch _ _) => apply eo_try_catch; [|intros]
  | |- emitsOnly _ (ret _) => apply eo_ret
  | |- emitsOnly _ (get _) => apply eo_get
  | |- emitsOnly _ (throwErr _) => apply eo_throwErr
  | |- emitsOnly _ (throw _) => apply eo_throw
  | |- emitsOnly _ (log _ _) => apply eo_log
  | |- emitsOnly _ (message_of _) => apply eo_message_of
  | |- emitsOnly _ (code_of _) => apply eo_code_of
  | |- emitsOnly _ (JSON_parse _) => apply eo_JSON_parse
  | |- emitsOnly _ (prop_of _ _) => apply eo_prop_of
  | H : emitsOnly ?f ?m |- emitsOnly ?f ?m => exact H
  | H : forall x, emitsOnly ?f (?m x) |- emitsOnly ?f (?m _) => apply H
  | H : forall x y, emitsOnly ?f (?m x y) |- emitsOnly ?f (?m _ _) => apply H
  | |- emitsOnly _ (modify _) => apply eo_modify; intros; reflexivity
  | |- emitsOnly _ (if ?b then _ else _) => destruct b
  | |- emitsOnly _ (match ?x with _ => _ end) => destruct x
  | |- emitsOnly _ (let _ := _ in _) => cbv zeta
  end.

Ltac eo := repeat eo_step.

Section CacheLogsOnly.

Variable pf : Platform.
Variable cfg : Config.

Lemma eo_validateAndParseDate (v : jsval) :
  emitsOnly isLog (validateAndParseDate pf v).
Proof. unfold validateAndParseDate. eo. Qed.

Lemma eo_readAwsConfig : emitsOnly isLog (readAwsConfig pf).
Proof. unfold readAwsConfig. eo. Qed.

Lemma eo_getSsoStartUrl : emitsOnly isLog (getSsoStartUrl pf cfg).
Proof. unfold getSsoStartUrl. pose proof eo_readAwsConfig. eo. Qed.

Lemma eo_fs_access (n : string) : emitsOnly isLog (fs_access cfg n).
Proof. unfold fs_access. eo. Qed.

Lemma eo_fs_readFile (n : string) : emitsOnly isLog (fs_readFile cfg n).
Proof. unfold fs_readFile. eo. Qed.

Lemma eo_fs_readdir : emitsOnly isLog (fs_readdir cfg).
Proof. unfold fs_readdir. eo. Qed.

Lemma eo_scanCacheFiles (url : string) (names : list string) :
  emitsOnly isLog (scanCacheFiles cfg url names).
Proof.
  induction names as [|n names IH]; cbn [scanCacheFiles]; [apply eo_ret|].
  pose proof (eo_fs_readFile n). eo.
Qed.

Lemma eo_getCacheFilePath : emitsOnly isLog (getCacheFilePath pf cfg).
Proof.
  unfold getCacheFilePath. cbv zeta.
  pose proof eo_getSsoStartUrl. pose proof eo_fs_readdir.
  pose proof eo_fs_access. pose proof eo_scanCacheFiles.
  eo.
Qed.

Lemma eo_missing_fields (v : json) (fields : list string) :
  emitsOnly isLog (missing_fields v fields).
Proof.
  induction fields as [|x fields IH]; cbn [missing_fields]; eo.
Qed.

Lemma eo_readTokenCache : emitsOnly isLog (readTokenCache pf cfg).
Proof.
  unfold readTokenCache, readTokenCache_onError.
  pose proof eo_getCacheFilePath. pose proof eo_fs_readFile.
  pose proof eo_missing_fields. pose proof eo_validateAndParseDate.
  eo.
Qed.

Lemma eo_getTimeUntilExpiry (v : jsval) : emitsOnly isLog (getTimeUntilExpiry pf v).
Proof. unfold getTimeUntilExpiry. pose proof eo_validateAndParseDate. eo. Qed.

Lemma eo_shouldRefresh (v : jsval) : emitsOnly isLog (shouldRefresh pf cfg v).
Proof. unfold shouldRefresh. pose proof eo_getTimeUntilExpiry. eo. Qed.

Lemma eo_formatTimeRemaining (v : jsval) :
  emitsOnly isLog (formatTimeRemaining pf v).
Proof. unfold formatTimeRemaining. pose proof eo_getTimeUntilExpiry. eo. Qed.

Lemma eo_getTokenStatus : emitsOnly isLog (getTokenStatus pf cfg).
Proof.
  unfold getTokenStatus.
  pose proof eo_readTokenCache. pose proof eo_getTimeUntilExpiry.
  pose proof eo_shouldRefresh. pose proof eo_formatTimeRemaining.
  eo.
Qed.

Lemma eo_writeTokenCache (nt : json) : emitsOnly isLog (writeTokenCache pf cfg nt).
Proof.
  unfold writeTokenCache, writeTokenCache_onError, writeFileAtomic, fs_chmod.
  pose proof eo_getCacheFilePath. pose proof eo_fs_readFile.
  eo.
Qed.

(** X17.  The cache manager talks to no one: whatever the state and
    whether they return or throw, [getCacheFilePath], [readTokenCache],
    [getTokenStatus] and [writeTokenCache] only append log lines to the
    trace; none of them sends a notification, sleeps or makes a request. *)
Theorem cache_manager_only_logs (nt : json) (w : World) :
  let onlyLogs (w' : World) :=
    exists l, events w' = (events w ++ l)%list
              /\ Forall (fun e => exists m s, e = EvLog m s) l in
  onlyLogs (snd (getCacheFilePath pf cfg w))
  /\ onlyLogs (snd (readTokenCache pf cfg w))
  /\ onlyLogs (snd (getTokenStatus pf cfg w))
  /\ onlyLogs (snd (writeTokenCache pf cfg nt w)).
Proof.
  cbv zeta.
  assert (Hlog : forall l, forallb isLog l = true ->
                           Forall (fun e => exists m s, e = EvLog m s) l).
  { intros l H. rewrite forallb_forall in H. apply Forall_forall.
    intros e He. specialize (H e He). destruct e; try discriminate. eauto. }
  repeat split.
  - destruct (getCacheFilePath pf cfg w) as [r w'] eqn:E.
    destruct (eo_getCacheFilePath _ _ _ E) as (l & Hl & Pl). eauto.
  - destruct (readTokenCache pf cfg w) as [r w'] eqn:E.
    destruct (eo_readTokenCache _ _ _ E) as (l & Hl & Pl). eauto.
  - destruct (getTokenStatus pf cfg w) as [r w'] eqn:E.
    destruct (eo_getTokenStatus _ _ _ E) as (l & Hl & Pl). eauto.
  - destruct (writeTokenCache pf cfg nt w) as [r w'] eqn:E.
    destruct (eo_writeTokenCache nt _ _ _ E) as (l & Hl & Pl). eauto.
Qed.

End CacheLogsOnly.

Section RefresherFrame.

Variable pf : Platform.
Variable cfg : Config.
Context {X : Type} (f : World -> X).
Hypothesis f_events : ignores_events f.
Hypothesis f_refresher : ignores_refresher f.

Lemma kp_refreshToken (credentials : Credentials) :
  keeps f (refreshToken pf cfg credentials).
Proof.
  intros w r w' H. rewrite (refreshToken_effect pf cfg credentials w) in H.
  inversion H; subst; clear H.
  destruct f_refresher as (Hc & Hr & Hl & Ha).
  change (afterAttempt pf cfg credentials w)
    with (with_clock (responseTime w)
            (with_events (events w ++ attemptEvents pf cfg credentials w)
               (with_requests (S (requests w))
                  (with_abortController false
                     (with_lastRequestTime (requestTime w) w))))).
  rewrite Hc, f_events, Hr, Ha, Hl. reflexivity.
Qed.

Lemma kp_sleep (site : SleepSite) (ms : Z) : keeps f (sleep site ms).
Proof.
  unfold sleep. destruct f_refresher as (Hc & _).
  apply kp_bind; [apply kp_emit; exact f_events|intros _].
  apply kp_modify. intros w. apply Hc.
Qed.

Lemma kp_retryLoop (credentials : Credentials) (maxAttempts : Z) :
  forall (fuel : nat) (attempt : Z) (lastError : Thrown),
    keeps f (retryLoop pf cfg fuel credentials maxAttempts attempt lastError).
Proof.
  induction fuel as [|fuel IH]; intros attempt lastError; cbn [retryLoop];
    [apply kp_throw|].
  pose proof (kp_refreshToken credentials). pose proof kp_sleep.
  kp.
Qed.

Lemma kp_refreshTokenWithRetry (credentials : Credentials) (maxAttempts : Z) :
  keeps f (refreshTokenWithRetry pf cfg credentials maxAttempts).
Proof. apply kp_retryLoop. Qed.

End RefresherFrame.

Section WriterErrors.

Variable pf : Platform.
Variable cfg : Config.

Lemma te_getTimeUntilExpiry (v : jsval) : throwsErrors (getTimeUntilExpiry pf v).
Proof. unfold getTimeUntilExpiry. pose proof (te_validateAndParseDate pf v). te. Qed.

Lemma te_shouldRefresh (v : jsval) : throwsErrors (shouldRefresh pf cfg v).
Proof. unfold shouldRefresh. pose proof (te_getTimeUntilExpiry v). te. Qed.

Lemma te_formatTimeRemaining (v : jsval) :
  throwsErrors (formatTimeRemaining pf v).
Proof. unfold formatTimeRemaining. pose proof (te_getTimeUntilExpiry v). te. Qed.

Lemma te_writeTokenCache (nt : json) : throwsErrors (writeTokenCache pf cfg nt).
Proof.
  unfold writeTokenCache, writeTokenCache_onError, writeFileAtomic, fs_chmod.
  pose proof (te_getCacheFilePath pf cfg).
  apply te_try_catch.
  - apply te_bind; [assumption|intros p].
    apply te_bind; [apply te_fs_readFile|intros c].
    te.
  - intros e. te.
Qed.

Lemma te_refreshTokenWithRetry (credentials : Credentials) (maxAttempts : Z) :
  1 <= maxAttempts ->
  throwsErrors (refreshTokenWithRetry pf cfg credentials maxAttempts).
Proof.
  intros Hmax w t w' H.
  unfold refreshTokenWithRetry in H.
  remember (Z.to_nat maxAttempts) as n eqn:Hn.
  assert (HN : Z.of_nat n = maxAttempts) by lia.
  destruct (retryLoop_shape pf cfg credentials n n 1 ThrowUndefined w
              ltac:(lia) ltac:(lia)) as (k & r & w1 & Hrun & _ & _ & Hr).
  change (Z.of_nat 1) with 1 in Hrun. rewrite HN in Hrun.
  rewrite Hrun in H. inversion H; subst r w1.
  destruct t as [e|]; [eauto|contradiction].
Qed.

End WriterErrors.

(* ================================================================== *)
(** ** The scheduler *)
(* ================================================================== *)

Lemma bind_ok {A B} (m : M A) (k : A -> M B) (w w1 : World) (a : A) :
  m w = (Ok a, w1) -> bind m k w = k a w1.
Proof. intros H. unfold bind. rewrite H. reflexivity. Qed.

Lemma bind_throw {A B} (m : M A) (k : A -> M B) (w w1 : World) (t : Thrown) :
  m w = (Throw t, w1) -> bind m k w = (Throw t, w1).
Proof. intros H. unfold bind. rewrite H. reflexivity. Qed.

(** The computation ends with the failure counter at zero when it returns,
    and as it was when it throws. *)
Definition resetsOrKeeps (m : M unit) : Prop :=
  forall w r w', m w = (r, w') ->
                 match r with
                 | Ok _ => consecutiveFailures w' = 0
                 | Throw _ => consecutiveFailures w' = consecutiveFailures w
                 end.

Lemma rk_bind {A} (m : M A) (k : A -> M unit) :
  keeps consecutiveFailures m -> (forall a, resetsOrKeeps (k a)) ->
  resetsOrKeeps (bind m k).
Proof.
  intros Hm Hk w r w' H. unfold bind in H.
  destruct (m w) as [[a|t] w0] eqn:E.
  - pose proof (Hm _ _ _ E) as H0. specialize (Hk a _ _ _ H).
    destruct r; [exact Hk|]. rewrite Hk. exact H0.
  - inversion H; subst. eapply Hm; eauto.
Qed.

Lemma rk_reset : resetsOrKeeps (modify (with_consecutiveFailures 0)).
Proof. intros w r w' H. inversion H. reflexivity. Qed.

Lemma rk_reset_log (m : LogMethod) (s : string) :
  resetsOrKeeps (bind (modify (with_consecutiveFailures 0)) (fun _ => log m s)).
Proof. intros w r w' H. inversion H. reflexivity. Qed.

Section Scheduler.

Variable pf : Platform.
Variable cfg : Config.

(** The [try] block of [refreshTokenIfNeeded]. *)
Definition cycleBody : M unit :=
  (cache <- readTokenCache pf cfg ;;
   expiresAt <- prop_of cache "expiresAt" ;;
   due <- shouldRefresh pf cfg expiresAt ;;
   if negb due then
     timeRemaining <- formatTimeRemaining pf expiresAt ;;
     log LDebug ("Token is valid for " ++ timeRemaining ++ " - no refresh needed") ;;;
     modify (with_consecutiveFailures 0)
   else
     timeUntilExpiry <- getTimeUntilExpiry pf expiresAt ;;
     let minutesRemaining := round_minutes timeUntilExpiry in
     log LRefresh ("Token expires in " ++ Str.of_Z minutesRemaining
                     ++ " minutes - refreshing now") ;;;
     (if minutesRemaining <=? CONSTANTS.EXPIRY_WARNING_THRESHOLD_MINUTES
      then notify (NotifyExpiringSoon minutesRemaining)
      else ret tt) ;;;
     cid <- prop_of cache "clientId" ;;
     csecret <- prop_of cache "clientSecret" ;;
     rtoken <- prop_of cache "refreshToken" ;;
     let credentials :=
       {| clientId := cid; clientSecret := csecret;
          cred_refreshToken := rtoken |} in
     newTokens <- refreshTokenWithRetry pf cfg credentials (maxRetryAttempts cfg) ;;
     writeTokenCache pf cfg (tokens_json newTokens) ;;;
     notify (NotifySuccess (tk_expiresAt newTokens) (tk_expiresIn newTokens)) ;;;
     modify (with_consecutiveFailures 0) ;;;
     log LSuccess "Token refresh cycle completed successfully")%js.

Lemma refreshTokenIfNeeded_unfold :
  refreshTokenIfNeeded pf cfg
  = bind (get isShuttingDown)
      (fun shuttingDown =>
         if shuttingDown then ret tt else try_catch cycleBody (onCycleError cfg)).
Proof. reflexivity. Qed.

Lemma refreshTokenIfNeeded_running (w : World) :
  isShuttingDown w = false ->
  refreshTokenIfNeeded pf cfg w = try_catch cycleBody (onCycleError cfg) w.
Proof.
  intros H. rewrite refreshTokenIfNeeded_unfold. unfold bind, get. rewrite H.
  reflexivity.
Qed.

(** What the [catch] block of the cycle emits for an error with this
    message, the counter having reached [failures]. *)
Definition cycleFailureEvents (message : string) (failures : Z) : list Event :=
  ([EvLog LFailure ("Token refresh failed (" ++ Str.of_Z failures ++ "/"
                      ++ Str.of_Z MAX_CONSECUTIVE_FAILURES ++ ")")]
   ++ (if Str.includes message "invalid or expired"
          || Str.includes message "invalid_grant"
       then [EvNotify NotifyReloginRequired;
             EvLog LError (getReloginErrorMessage cfg
                             "Refresh token is no longer valid")]
       else [EvNotify (NotifyError message)])
   ++ (if failures =? MAX_CONSECUTIVE_FAILURES
       then [EvLog LWarning failuresWarning] else []))%list.

Lemma onCycleError_run (e : JsError) (w : World) :
  onCycleError cfg (ThrowErr e) w
  = (Ok tt,
     with_events
       (events w ++ cycleFailureEvents (err_message e) (consecutiveFailures w + 1))
       (with_consecutiveFailures (consecutiveFailures w + 1) w)).
Proof.
  unfold onCycleError, cycleFailureEvents, message_of. unfold_monad. cbn.
  destruct (Str.includes (err_message e) "invalid or expired"
            || Str.includes (err_message e) "invalid_grant"); cbn.
  all: destruct (consecutiveFailures w + 1 =? MAX_CONSECUTIVE_FAILURES); cbn.
  all: unfold_monad; cbn; rewrite <- ?app_assoc; reflexivity.
Qed.

Lemma te_onCycleError (t : Thrown) : throwsErrors (onCycleError cfg t).
Proof.
  unfold onCycleError.
  apply te_bind; [apply te_modify|intros _].
  apply te_bind; [apply te_get|intros failures].
  apply te_bind; [apply te_message_of_any|intros message].
  apply te_bind; [apply te_log|intros _].
  apply te_bind.
  - destruct (_ || _); [|apply te_notify].
    apply te_bind; [apply te_notify|intros _; apply te_log].
  - intros _. apply te_bind; [apply te_get|intros failures'].
    destruct (_ =? _); [apply te_log|apply te_ret].
Qed.

Lemma te_refreshTokenIfNeeded : throwsErrors (refreshTokenIfNeeded pf cfg).
Proof.
  rewrite refreshTokenIfNeeded_unfold.
  apply te_bind; [apply te_get|intros b].
  destruct b; [apply te_ret|].
  apply te_try_catch_any. apply te_onCycleError.
Qed.

(** With at least one attempt allowed, the [try] block throws [Error]
    objects only. *)
Lemma te_cycleBody : 1 <= maxRetryAttempts cfg -> throwsErrors cycleBody.
Proof.
  intros Hmax. unfold cycleBody.
  pose proof (te_readTokenCache pf cfg).
  pose proof (te_shouldRefresh pf cfg).
  pose proof (te_formatTimeRemaining pf).
  pose proof (te_getTimeUntilExpiry pf).
  pose proof (te_writeTokenCache pf cfg).
  pose proof te_notify.
  assert (Hr : forall c, throwsErrors
                           (refreshTokenWithRetry pf cfg c (maxRetryAttempts cfg)))
    by (intros c; apply te_refreshTokenWithRetry; exact Hmax).
  apply te_bind; [assumption|intros cache].
  apply te_bind; [apply te_prop_of|intros expiresAt].
  apply te_bind; [auto|intros due].
  destruct (negb due).
  - apply te_bind; [auto|intros]. te.
  - apply te_bind; [auto|intros]. cbv zeta.
    apply te_bind; [apply te_log|intros].
    apply te_bind; [destruct (_ <=? _); [apply te_notify|apply te_ret]|intros].
    apply te_bind; [apply te_prop_of|intros].
    apply te_bind; [apply te_prop_of|intros].
    apply te_bind; [apply te_prop_of|intros].
    apply te_bind; [apply Hr|intros].
    apply te_bind; [auto|intros].
    apply te_bind; [apply te_notify|intros].
    te.
Qed.

(** The [try] block leaves the timer and the shutdown flag alone. *)
Lemma kp_cycleBody {X} (f : World -> X) :
  ignores_events f -> ignores_configCache f -> ignores_cacheDir f ->
  ignores_refresher f ->
  (forall n w, f (with_consecutiveFailures n w) = f w) ->
  keeps f cycleBody.
Proof.
  intros Hev Hcc Hcd Hrf Hcf. unfold cycleBody.
  pose proof (kp_readTokenCache pf cfg f Hev Hcc).
  pose proof (kp_shouldRefresh pf cfg f Hev).
  pose proof (kp_formatTimeRemaining pf f).
  pose proof (kp_getTimeUntilExpiry pf f).
  pose proof (fun nt => kp_writeTokenCache pf cfg f nt Hev Hcc Hcd).
  pose proof (fun c n => kp_refreshTokenWithRetry pf cfg f Hev Hrf c n).
  assert (Hreset : forall n, keeps f (modify (with_consecutiveFailures n)))
    by (intros n; apply kp_modify; intros w; apply Hcf).
  kp.
Qed.

Lemma rk_cycleBody : resetsOrKeeps cycleBody.
Proof.
  unfold cycleBody.
  assert (Hev : ignores_events consecutiveFailures) by (intros ? ?; reflexivity).
  assert (Hcc : ignores_configCache consecutiveFailures)
    by (intros ? ? ?; reflexivity).
  assert (Hcd : ignores_cacheDir consecutiveFailures) by (intros ? ?; reflexivity).
  assert (Hrf : ignores_refresher consecutiveFailures)
    by (repeat split; intros ? ?; reflexivity).
  pose proof (kp_readTokenCache pf cfg _ Hev Hcc).
  pose proof (kp_shouldRefresh pf cfg _ Hev).
  pose proof (kp_formatTimeRemaining pf consecutiveFailures).
  pose proof (kp_getTimeUntilExpiry pf consecutiveFailures).
  pose proof (fun nt => kp_writeTokenCache pf cfg consecutiveFailures nt Hev Hcc Hcd).
  pose proof (fun c n => kp_refreshTokenWithRetry pf cfg _ Hev Hrf c n).
  apply rk_bind; [assumption|intros cache].
  apply rk_bind; [apply kp_prop_of|intros expiresAt].
  apply rk_bind; [auto|intros due].
  destruct (negb due).
  - apply rk_bind; [auto|intros].
    apply rk_bind; [apply kp_log; exact Hev|intros]. apply rk_reset.
  - apply rk_bind; [auto|intros]. cbv zeta.
    apply rk_bind; [apply kp_log; exact Hev|intros].
    apply rk_bind; [destruct (_ <=? _); [apply kp_notify; exact Hev|apply kp_ret]
                   |intros].
    apply rk_bind; [apply kp_prop_of|intros].
    apply rk_bind; [apply kp_prop_of|intros].
    apply rk_bind; [apply kp_prop_of|intros].
    apply rk_bind; [auto|intros].
    apply rk_bind; [auto|intros].
    apply rk_bind; [apply kp_notify; exact Hev|intros].
    apply rk_reset_log.
Qed.

(** X18.  How a failed cycle is handled.  When the [try] block of
    [refreshTokenIfNeeded] throws an [Error], the cycle still returns
    normally; the failure counter is exactly one more than before the cycle;
    the failure is logged with the new count; one notification is sent: the
    re-login notification if the message contains [invalid or expired] or
    [invalid_grant], the error notification with the message otherwise; and
    the warning about consecutive failures is logged if and only if the new
    count is exactly 5.  The handler touches nothing else. *)
Theorem failed_cycle_is_counted_and_reported (w w1 : World) (e : JsError) :
  isShuttingDown w = false ->
  cycleBody w = (Throw (ThrowErr e), w1) ->
  let failures := consecutiveFailures w + 1 in
  let relogin :=
    Str.includes (err_message e) "invalid or expired"
    || Str.includes (err_message e) "invalid_grant" in
  refreshTokenIfNeeded pf cfg w
  = (Ok tt,
     with_events
       (events w1
        ++ [EvLog LFailure ("Token refresh failed (" ++ Str.of_Z failures ++ "/5)")]
        ++ (if relogin
            then [EvNotify NotifyReloginRequired;
                  EvLog LError ("Refresh token is no longer valid" ++ Str.nl
                                  ++ "Please run: aws sso login --profile "
                                  ++ awsSsoProfile cfg)]
            else [EvNotify (NotifyError (err_message e))])
        ++ (if failures =? 5
            then [EvLog LWarning
                    (Str.warningSign ++ "  5 consecutive failures detected. "
                       ++ "Consider checking your configuration and network connection.")]
            else []))
       (with_consecutiveFailures failures w1)).
Proof.
  intros Hrun Hbody. cbv zeta.
  rewrite (refreshTokenIfNeeded_running w Hrun).
  unfold try_catch. rewrite Hbody.
  rewrite onCycleError_run.
  pose proof (rk_cycleBody w _ w1 Hbody) as Hcf. cbn in Hcf. rewrite Hcf.
  reflexivity.
Qed.

(** X19.  With [maxRetryAttempts >= 1] a cycle never rejects, whatever the
    state of the cache and whatever the endpoint answers.  It leaves the
    timer and the shutdown flag as they were, and the failure counter either
    at zero (the token was not due, or it was refreshed) or one above its
    value before the cycle (the cycle failed); during shutdown it does
    nothing at all. *)
Theorem refreshTokenIfNeeded_never_rejects (w : World) :
  1 <= maxRetryAttempts cfg ->
  exists w',
    refreshTokenIfNeeded pf cfg w = (Ok tt, w')
    /\ monitorInterval w' = monitorInterval w
    /\ isShuttingDown w' = isShuttingDown w
    /\ (isShuttingDown w = true -> w' = w)
    /\ (isShuttingDown w = false ->
        consecutiveFailures w' = 0
        \/ consecutiveFailures w' = consecutiveFailures w + 1).
Proof.
  intros Hmax.
  destruct (isShuttingDown w) eqn:Hs.
  - exists w. rewrite refreshTokenIfNeeded_unfold. unfold bind, get. rewrite Hs.
    repeat split; auto. discriminate.
  - rewrite (refreshTokenIfNeeded_running w Hs). unfold try_catch.
    destruct (cycleBody w) as [[[]|t] w1] eqn:Hbody.
    + pose proof (rk_cycleBody w _ w1 Hbody) as Hcf. cbn in Hcf.
      pose proof (kp_cycleBody (fun w => (monitorInterval w, isShuttingDown w))
                    ltac:(intros ? ?; reflexivity) ltac:(intros ? ? ?; reflexivity)
                    ltac:(intros ? ?; reflexivity)
                    ltac:(repeat split; intros ? ?; reflexivity)
                    ltac:(intros ? ?; reflexivity) w _ w1 Hbody) as Hk.
      inversion Hk as [[Hm Hsd]].
      exists w1. rewrite Hs in Hsd.
      repeat split; auto. discriminate.
    + destruct (te_cycleBody Hmax w t w1 Hbody) as (e & ->).
      pose proof (rk_cycleBody w _ w1 Hbody) as Hcf. cbn in Hcf.
      pose proof (kp_cycleBody (fun w => (monitorInterval w, isShuttingDown w))
                    ltac:(intros ? ?; reflexivity) ltac:(intros ? ? ?; reflexivity)
                    ltac:(intros ? ?; reflexivity)
                    ltac:(repeat split; intros ? ?; reflexivity)
                    ltac:(intros ? ?; reflexivity) w _ w1 Hbody) as Hk.
      inversion Hk as [[Hm Hsd]].
      rewrite onCycleError_run. eexists. split; [reflexivity|].
      cbn. rewrite Hs in Hsd. rewrite Hcf.
      repeat split; auto. discriminate.
Qed.

(** A cycle under the [catch] of its caller always returns; the failure
    counter ends as it was, at zero, or one higher. *)
Lemma guarded_cycle_returns (w0 : World) (s : string) :
  exists w',
    try_catch (refreshTokenIfNeeded pf cfg)
      (fun error => bind (message_of error) (fun _ => log LError s)) w0
    = (Ok tt, w')
    /\ (consecutiveFailures w' = consecutiveFailures w0
        \/ consecutiveFailures w' = 0
        \/ consecutiveFailures w' = consecutiveFailures w0 + 1).
Proof.
  unfold try_catch.
  destruct (refreshTokenIfNeeded pf cfg w0) as [[[]|t] w1] eqn:Hrun.
  - exists w1. split; [reflexivity|].
    rewrite refreshTokenIfNeeded_unfold in Hrun. unfold bind, get in Hrun.
    destruct (isShuttingDown w0).
    + inversion Hrun. auto.
    + unfold try_catch in Hrun.
      destruct (cycleBody w0) as [[[]|t] w2] eqn:Hbody.
      * inversion Hrun; subst w2.
        pose proof (rk_cycleBody w0 _ w1 Hbody) as Hcf. cbn in Hcf. auto.
      * pose proof (rk_cycleBody w0 _ w2 Hbody) as Hcf. cbn in Hcf.
        destruct t as [e|].
        -- rewrite onCycleError_run in Hrun. inversion Hrun; subst w1.
           cbn. rewrite Hcf. auto.
        -- discriminate Hrun.
  - destruct (te_refreshTokenIfNeeded w0 t w1 Hrun) as (e & ->).
    unfold message_of, bind, ret, log, emit, modify.
    eexists. split; [reflexivity|]. cbn.
    rewrite refreshTokenIfNeeded_unfold in Hrun. unfold bind, get in Hrun.
    destruct (isShuttingDown w0); [discriminate|].
    unfold try_catch in Hrun.
    destruct (cycleBody w0) as [[[]|t] w2] eqn:Hbody; [discriminate|].
    pose proof (rk_cycleBody w0 _ w2 Hbody) as Hcf. cbn in Hcf.
    destruct t as [e0|].
    + rewrite onCycleError_run in Hrun. discriminate Hrun.
    + unfold onCycleError, message_of in Hrun. unfold_monad. cbn in Hrun.
      inversion Hrun; subst w1. cbn. rewrite Hcf. auto.
Qed.

(** X20.  The daemon survives every cycle, whatever the configuration:
    [startMonitoring] always returns, with the timer armed and the startup
    notification as the last thing it does, and the callback of the timer
    never lets an exception escape, even when the cycle inside it
    rejects. *)
Theorem startMonitoring_always_arms_the_timer (w : World) :
  (exists w' l,
      startMonitoring pf cfg w = (Ok tt, w')
      /\ monitorInterval w' = true
      /\ (consecutiveFailures w' = consecutiveFailures w
          \/ consecutiveFailures w' = 0
          \/ consecutiveFailures w' = consecutiveFailures w + 1)
      /\ events w'
         = (l ++ [EvLog LSuccess ("Daemon started - checking tokens every "
                                    ++ Str.of_Z (refreshCheckInterval cfg / 1000)
                                    ++ "s");
                  EvNotify NotifyStartup])%list)
  /\ exists w', timerTick pf cfg w = (Ok tt, w').
Proof.
  pose proof guarded_cycle_returns as Htick.
  split.
  - unfold startMonitoring.
    unfold bind at 1. unfold log at 1, emit, modify.
    unfold bind at 1. unfold log at 1, emit, modify.
    unfold bind at 1. unfold log at 1, emit, modify.
    unfold bind at 1.
    match goal with
    | |- context [try_catch _ _ ?w0] =>
        destruct (Htick w0 "Initial token check failed") as (w1 & Hrun & Hcf)
    end.
    rewrite Hrun. unfold_monad. cbn.
    do 2 eexists. split; [reflexivity|]. cbn.
    split; [reflexivity|]. split; [cbn in Hcf; exact Hcf|].
    rewrite <- app_assoc. reflexivity.
  - unfold timerTick.
    destruct (Htick w "Token refresh check failed") as (w1 & Hrun & _).
    exists w1. exact Hrun.
Qed.

Lemma cycle_does_nothing_during_shutdown (w : World) :
  isShuttingDown w = true ->
  refreshTokenIfNeeded pf cfg w = (Ok tt, w)
  /\ timerTick pf cfg w = (Ok tt, w).
Proof.
  intros H.
  assert (Hc : refreshTokenIfNeeded pf cfg w = (Ok tt, w))
    by (rewrite refreshTokenIfNeeded_unfold; unfold bind, get; rewrite H;
        reflexivity).
  split; [exact Hc|]. unfold timerTick, try_catch. rewrite Hc. reflexivity.
Qed.

(** X21.  [stopMonitoring] always returns and leaves the daemon stopped:
    the shutdown flag is set, the timer is cleared, no abort controller is
    left, the shutdown notification is sent, and neither the cache directory
    nor the failure counter is touched.  From then on a cycle or a tick of
    the timer does nothing at all. *)
Theorem stopMonitoring_stops_the_daemon (w : World) :
  exists w',
    stopMonitoring w = (Ok tt, w')
    /\ isShuttingDown w' = true
    /\ monitorInterval w' = false
    /\ abortController w' = false
    /\ cacheDir w' = cacheDir w
    /\ requests w' = requests w
    /\ consecutiveFailures w' = consecutiveFailures w
    /\ events w'
       = (events w
          ++ (if monitorInterval w
              then [EvLog LInfo "Token monitoring interval stopped"] else [])
          ++ (if abortController w
              then [EvLog LDebug
                      "Aborting in-flight HTTP request for graceful shutdown"]
              else [])
          ++ [EvNotify NotifyShutdown;
              EvLog LInfo "AWS SSO Token Refresh Daemon stopped"])%list
    /\ refreshTokenIfNeeded pf cfg w' = (Ok tt, w')
    /\ timerTick pf cfg w' = (Ok tt, w').
Proof.
  unfold stopMonitoring, cleanup. unfold_monad. cbn.
  destruct (monitorInterval w) eqn:Hm; cbn.
  all: destruct (abortController w) eqn:Ha; cbn.
  all: unfold_monad; cbn.
  all: eexists; split; [reflexivity|]; cbn.
  all: rewrite ?Hm, ?Ha.
  all: repeat (split; [reflexivity|]).
  all: split; [rewrite <- ?app_assoc; reflexivity|].
  all: apply cycle_does_nothing_during_shutdown; reflexivity.
Qed.

End Scheduler.

(* ================================================================== *)
(** ** The scheduler: the cycle, case by case *)
(* ================================================================== *)

Lemma tokens_json_props (t : RefreshedTokens) :
  tokens_json t <> JNull
  /\ prop (tokens_json t) "accessToken" = tk_accessToken t
  /\ prop (tokens_json t) "expiresAt" = Some (JStr (tk_expiresAt t))
  /\ prop (tokens_json t) "refreshToken" = tk_refreshToken t.
Proof.
  unfold tokens_json. split; [discriminate|].
  destruct (tk_accessToken t), (tk_refreshToken t), (tk_expiresIn t);
    repeat split; reflexivity.
Qed.

Lemma toLowerCase_app (a b : string) :
  Str.toLowerCase (a ++ b) = Str.toLowerCase a ++ Str.toLowerCase b.
Proof.
  induction a as [|c a IH]; [reflexivity|].
  change (String c a ++ b) with (String c (a ++ b)).
  change (Str.toLowerCase (String c (a ++ b)))
    with (String (Str.lower_ascii c) (Str.toLowerCase (a ++ b))).
  change (Str.toLowerCase (String c a))
    with (String (Str.lower_ascii c) (Str.toLowerCase a)).
  rewrite IH. reflexivity.
Qed.

Section Cycle.

Variable pf : Platform.
Variable cfg : Config.

Lemma shouldRefresh_run (s : string) (t : Z) (w : World) :
  s <> EmptyString -> Date_parse pf s = Some t ->
  shouldRefresh pf cfg (Some (JStr s)) w
  = (Ok (t - clock w <=? refreshThreshold cfg),
     if t - clock w <=? refreshThreshold cfg
     then with_events
            (events w
             ++ [EvLog LRefresh ("Token expires in "
                                   ++ Str.of_Z (round_minutes (t - clock w))
                                   ++ " minutes - refresh needed")]) w
     else w).
Proof.
  intros Hs Ht. unfold shouldRefresh. unfold bind at 1.
  rewrite (getTimeUntilExpiry_valid pf s t w Hs Ht). cbv zeta.
  destruct (t - clock w <=? refreshThreshold cfg); reflexivity.
Qed.

(** The state of the cache a successful read leaves, and what the read did
    not touch. *)
Lemma readTokenCache_ok (w w1 : World) (rec : json) :
  readTokenCache pf cfg w = (Ok rec, w1) ->
  (exists c url d p f,
      cacheState c d w1 /\ sessionStartUrl cfg c = Some url
      /\ resolve pf url d = Some p
      /\ dir_lookup p d = Some f /\ text f = JsonText rec
      /\ cacheDir w = Some d)
  /\ usable pf rec
  /\ outsideLogAndConfigCache w1 = outsideLogAndConfigCache w
  /\ oidc w1 = oidc w
  /\ exists l, events w1 = (events w ++ l)%list /\ forallb isLog l = true.
Proof.
  intros Hread.
  pose proof (kp_readTokenCache pf cfg outsideLogAndConfigCache
                ltac:(intros ? ?; reflexivity) ltac:(intros ? ? ?; reflexivity)
                _ _ _ Hread) as Hout.
  pose proof (kp_readTokenCache pf cfg oidc
                ltac:(intros ? ?; reflexivity) ltac:(intros ? ? ?; reflexivity)
                _ _ _ Hread) as Hoidc.
  destruct (readTokenCache_inv pf cfg w w1 rec Hread)
    as (c & url & d & p & f & Hst & Hurl & Hres & Hf & Ht & Huse).
  split; [|split; [exact Huse|split; [exact Hout|split; [exact Hoidc|]]]].
  - exists c, url, d, p, f. repeat (split; [assumption|]).
    destruct Hst as (_ & Hd). inversion Hout. congruence.
  - apply (eo_readTokenCache pf cfg _ _ _ Hread).
Qed.

(** The credentials the cycle takes from the record. *)
Definition credentialsOf (rec : json) : Credentials :=
  {| clientId := prop rec "clientId";
     clientSecret := prop rec "clientSecret";
     cred_refreshToken := prop rec "refreshToken" |}.

(** What the cycle emits between the read and the exchange when the token
    is due, [remaining] milliseconds before its expiry. *)
Definition dueEvents (remaining : Z) : list Event :=
  ([EvLog LRefresh ("Token expires in " ++ Str.of_Z (round_minutes remaining)
                      ++ " minutes - refresh needed");
    EvLog LRefresh ("Token expires in " ++ Str.of_Z (round_minutes remaining)
                      ++ " minutes - refreshing now")]
   ++ (if round_minutes remaining <=? 10
       then [EvNotify (NotifyExpiringSoon (round_minutes remaining))]
       else []))%list.

(** The rest of the [try] block once the exchange has returned. *)
Definition afterExchange (newTokens : RefreshedTokens) : M unit :=
  (writeTokenCache pf cfg (tokens_json newTokens) ;;;
   notify (NotifySuccess (tk_expiresAt newTokens) (tk_expiresIn newTokens)) ;;;
   modify (with_consecutiveFailures 0) ;;;
   log LSuccess "Token refresh cycle completed successfully")%js.

(** The [try] block for a token that is not due. *)
Lemma cycleBody_not_due (w w1 : World) (rec : json) (s : string) (t : Z) :
  readTokenCache pf cfg w = (Ok rec, w1) ->
  prop rec "expiresAt" = Some (JStr s) -> Date_parse pf s = Some t ->
  refreshThreshold cfg < t - clock w ->
  cycleBody pf cfg w
  = (Ok tt,
     with_consecutiveFailures 0
       (with_events
          (events w1
           ++ [EvLog LDebug ("Token is valid for " ++ formatRemaining (t - clock w)
                               ++ " - no refresh needed")]) w1)).
Proof.
  intros Hread Hs Ht Hdue.
  destruct (readTokenCache_ok w w1 rec Hread)
    as (_ & (Hv & _ & s' & t' & Hs' & Hne & _) & Hout & _).
  rewrite Hs in Hs'. inversion Hs'; subst s'. clear Hs'.
  assert (Hclock : clock w1 = clock w) by (inversion Hout; reflexivity).
  unfold cycleBody. rewrite (bind_ok _ _ _ _ _ Hread).
  rewrite (prop_of_nonnull rec "expiresAt" Hv). unfold ret at 1.
  unfold bind at 1. rewrite Hs.
  rewrite (bind_ok _ _ _ _ _ (shouldRefresh_run s t w1 Hne Ht)).
  rewrite Hclock.
  replace (t - clock w <=? refreshThreshold cfg) with false
    by (symmetry; apply Z.leb_gt; exact Hdue).
  cbn [negb].
  rewrite (bind_ok _ _ _ _ _ (formatTimeRemaining_valid pf s t w1 Hne Ht)).
  rewrite Hclock. reflexivity.
Qed.

(** The [try] block for a token that is due, up to the exchange. *)
Lemma cycleBody_due (w w1 : World) (rec : json) (s : string) (t : Z) :
  readTokenCache pf cfg w = (Ok rec, w1) ->
  prop rec "expiresAt" = Some (JStr s) -> Date_parse pf s = Some t ->
  t - clock w <= refreshThreshold cfg ->
  cycleBody pf cfg w
  = bind (refreshTokenWithRetry pf cfg (credentialsOf rec) (maxRetryAttempts cfg))
      afterExchange
      (with_events (events w1 ++ dueEvents (t - clock w)) w1).
Proof.
  intros Hread Hs Ht Hdue.
  destruct (readTokenCache_ok w w1 rec Hread)
    as (_ & (Hv & _ & s' & t' & Hs' & Hne & _) & Hout & _).
  rewrite Hs in Hs'. inversion Hs'; subst s'. clear Hs'.
  assert (Hclock : clock w1 = clock w) by (inversion Hout; reflexivity).
  unfold cycleBody. rewrite (bind_ok _ _ _ _ _ Hread).
  rewrite (prop_of_nonnull rec "expiresAt" Hv). unfold ret at 1.
  unfold bind at 1. rewrite Hs.
  rewrite (bind_ok _ _ _ _ _ (shouldRefresh_run s t w1 Hne Ht)).
  rewrite Hclock.
  replace (t - clock w <=? refreshThreshold cfg) with true
    by (symmetry; apply Z.leb_le; exact Hdue).
  cbn [negb].
  match goal with
  | |- bind _ _ ?w2 = _ =>
      rewrite (bind_ok _ _ _ _ _ (getTimeUntilExpiry_valid pf s t w2 Hne Ht))
  end.
  cbn [clock with_events]. rewrite Hclock. cbv zeta.
  rewrite !(prop_of_nonnull rec _ Hv).
  unfold dueEvents, afterExchange, credentialsOf.
  change CONSTANTS.EXPIRY_WARNING_THRESHOLD_MINUTES with 10.
  destruct (round_minutes (t - clock w) <=? 10).
  - unfold bind at 1. unfold log at 1, emit, modify.
    unfold bind at 1. unfold notify at 1, emit, modify.
    unfold bind at 1, ret at 1. unfold bind at 1, ret at 1.
    unfold bind at 1, ret at 1.
    cbn [events with_events]. rewrite <- !app_assoc. reflexivity.
  - unfold bind at 1. unfold log at 1, emit, modify.
    unfold bind at 1, ret at 1.
    unfold bind at 1, ret at 1. unfold bind at 1, ret at 1.
    unfold bind at 1, ret at 1.
    cbn [events with_events]. rewrite <- !app_assoc. rewrite app_nil_r.
    reflexivity.
Qed.

End Cycle.

Section CycleCases.

Variable pf : Platform.
Variable cfg : Config.

(** X22.  A cycle that finds the token not due leaves everything alone:
    when the cache is readable and the token expires later than
    [refreshThreshold] from now, [refreshTokenIfNeeded] resets the failure
    counter to zero, makes no request, does not touch the cache directory,
    the clock or the rate limiter, sends no notification, and ends with the
    log line that tells how long the token remains valid. *)
Theorem cycle_leaves_valid_token_alone (w w1 : World) (rec : json)
    (s : string) (t : Z) :
  isShuttingDown w = false ->
  readTokenCache pf cfg w = (Ok rec, w1) ->
  prop rec "expiresAt" = Some (JStr s) -> Date_parse pf s = Some t ->
  refreshThreshold cfg < t - clock w ->
  exists w' l,
    refreshTokenIfNeeded pf cfg w = (Ok tt, w')
    /\ consecutiveFailures w' = 0
    /\ requests w' = requests w
    /\ cacheDir w' = cacheDir w
    /\ clock w' = clock w
    /\ lastRequestTime w' = lastRequestTime w
    /\ events w'
       = (events w ++ l
          ++ [EvLog LDebug ("Token is valid for " ++ formatRemaining (t - clock w)
                              ++ " - no refresh needed")])%list
    /\ Forall (fun e => exists m x, e = EvLog m x) l.
Proof.
  intros Hrun Hread Hs Ht Hdue.
  rewrite (refreshTokenIfNeeded_running pf cfg w Hrun). unfold try_catch.
  rewrite (cycleBody_not_due pf cfg w w1 rec s t Hread Hs Ht Hdue).
  destruct (readTokenCache_ok pf cfg w w1 rec Hread)
    as (_ & _ & Hout & _ & l & Hev & Hlog).
  inversion Hout as [[Hc Hr Ha Hd Hab Hl Hm Hsd Hcf]].
  eexists. exists l. split; [reflexivity|]. cbn.
  repeat (split; [congruence|]).
  split; [rewrite Hev, <- app_assoc; reflexivity|].
  rewrite forallb_forall in Hlog. apply Forall_forall.
  intros e He. specialize (Hlog e He). destruct e; try discriminate. eauto.
Qed.

End CycleCases.

(** X18 at the sample: [invalid_grant] on the fifth failure in a row. *)
Definition sample_invalidGrantCycle : Outcome unit * World :=
  cycleBody Sample.platform Sample.config
    (Sample.world Sample.in4min (fun _ => Sample.invalidGrant) 4).

Definition sample_invalidGrantError : JsError :=
  Error_ ("Refresh token is invalid or expired" ++ Str.nl
            ++ "Please run: aws sso login --profile test-profile").

Lemma failed_cycle_is_counted_and_reported_witness :
  let w := Sample.world Sample.in4min (fun _ => Sample.invalidGrant) 4 in
  let w1 := snd sample_invalidGrantCycle in
  let e := sample_invalidGrantError in
  let failures := consecutiveFailures w + 1 in
  let relogin :=
    Str.includes (err_message e) "invalid or expired"
    || Str.includes (err_message e) "invalid_grant" in
  refreshTokenIfNeeded Sample.platform Sample.config w
  = (Ok tt,
     with_events
       (events w1
        ++ [EvLog LFailure ("Token refresh failed (" ++ Str.of_Z failures ++ "/5)")]
        ++ (if relogin
            then [EvNotify NotifyReloginRequired;
                  EvLog LError ("Refresh token is no longer valid" ++ Str.nl
                                  ++ "Please run: aws sso login --profile "
                                  ++ awsSsoProfile Sample.config)]
            else [EvNotify (NotifyError (err_message e))])
        ++ (if failures =? 5
            then [EvLog LWarning
                    (Str.warningSign ++ "  5 consecutive failures detected. "
                       ++ "Consider checking your configuration and network connection.")]
            else []))
       (with_consecutiveFailures failures w1)).
Proof.
  apply (failed_cycle_is_counted_and_reported Sample.platform Sample.config
           (Sample.world Sample.in4min (fun _ => Sample.invalidGrant) 4)
           (snd sample_invalidGrantCycle) sample_invalidGrantError).
  - reflexivity.
  - vm_compute. reflexivity.
Defined.

(** X19 at the sample. *)
Lemma refreshTokenIfNeeded_never_rejects_witness :
  let w := Sample.world Sample.in4min (fun _ => Sample.timeout) 4 in
  exists w',
    refreshTokenIfNeeded Sample.platform Sample.config w = (Ok tt, w')
    /\ monitorInterval w' = monitorInterval w
    /\ isShuttingDown w' = isShuttingDown w
    /\ (isShuttingDown w = true -> w' = w)
    /\ (isShuttingDown w = false ->
        consecutiveFailures w' = 0
        \/ consecutiveFailures w' = consecutiveFailures w + 1).
Proof.
  apply (refreshTokenIfNeeded_never_rejects Sample.platform Sample.config
           (Sample.world Sample.in4min (fun _ => Sample.timeout) 4)).
  cbn. lia.
Defined.

(** X22 at the sample: the token expires in an hour. *)
Definition sample_afterRead1h : World :=
  snd (readTokenCache Sample.platform Sample.config
         (Sample.world Sample.in1hour (fun _ => Sample.okReply) 2)).

Lemma cycle_leaves_valid_token_alone_witness :
  let w := Sample.world Sample.in1hour (fun _ => Sample.okReply) 2 in
  exists w' l,
    refreshTokenIfNeeded Sample.platform Sample.config w = (Ok tt, w')
    /\ consecutiveFailures w' = 0
    /\ requests w' = requests w
    /\ cacheDir w' = cacheDir w
    /\ clock w' = clock w
    /\ lastRequestTime w' = lastRequestTime w
    /\ events w'
       = (events w ++ l
          ++ [EvLog LDebug ("Token is valid for "
                              ++ formatRemaining (1769504400000 - clock w)
                              ++ " - no refresh needed")])%list
    /\ Forall (fun e => exists m x, e = EvLog m x) l.
Proof.
  apply (cycle_leaves_valid_token_alone Sample.platform Sample.config
           (Sample.world Sample.in1hour (fun _ => Sample.okReply) 2)
           sample_afterRead1h (Sample.cacheRecord Sample.in1hour)
           Sample.in1hour 1769504400000).
  - reflexivity.
  - vm_compute. reflexivity.
  - reflexivity.
  - vm_compute. reflexivity.
  - vm_compute. reflexivity.
Defined.

(** The components of the observation outside the log and the cached
    configuration. *)
Lemma outside_components (w1 w : World) :
  outsideLogAndConfigCache w1 = outsideLogAndConfigCache w ->
  clock w1 = clock w /\ requests w1 = requests w
  /\ cacheDir w1 = cacheDir w
  /\ lastRequestTime w1 = lastRequestTime w
  /\ consecutiveFailures w1 = consecutiveFailures w.
Proof.
  unfold outsideLogAndConfigCache. intros H.
  injection H as Hc Hr Ha Hd Hab Hl Hm Hs Hcf.
  repeat split; assumption.
Qed.

Section CycleExchange.

Variable pf : Platform.
Variable cfg : Config.

(** The first attempt of [refreshTokenWithRetry] returns. *)
Lemma refreshTokenWithRetry_first_success (credentials : Credentials)
    (w w2 : World) (t : RefreshedTokens) :
  1 <= maxRetryAttempts cfg ->
  refreshToken pf cfg credentials w = (Ok t, w2) ->
  exists w',
    refreshTokenWithRetry pf cfg credentials (maxRetryAttempts cfg) w = (Ok t, w')
    /\ ran w w' 1 [].
Proof.
  intros Hmax Hrun. unfold refreshTokenWithRetry.
  remember (Z.to_nat (maxRetryAttempts cfg)) as n eqn:Hn.
  assert (HN : Z.of_nat n = maxRetryAttempts cfg) by lia.
  destruct n as [|fuel]; [lia|].
  destruct (retryLoop_success pf cfg fuel credentials (S fuel) 1 ThrowUndefined
              w w2 t ltac:(lia) Hrun) as (w' & Hres & Hran).
  change (Z.of_nat 1) with 1 in Hres. rewrite HN in Hres.
  exists w'. split; assumption.
Qed.

(** The first attempt of [refreshTokenWithRetry] fails for good. *)
Lemma refreshTokenWithRetry_first_fatal (credentials : Credentials)
    (w w2 : World) (e : JsError) :
  1 <= maxRetryAttempts cfg ->
  refreshToken pf cfg credentials w = (Throw (ThrowErr e), w2) ->
  fatal e ->
  exists w',
    refreshTokenWithRetry pf cfg credentials (maxRetryAttempts cfg) w
    = (Throw (ThrowErr e), w')
    /\ ran w w' 1 [].
Proof.
  intros Hmax Hrun Hfatal. unfold refreshTokenWithRetry.
  remember (Z.to_nat (maxRetryAttempts cfg)) as n eqn:Hn.
  assert (HN : Z.of_nat n = maxRetryAttempts cfg) by lia.
  destruct n as [|fuel]; [lia|].
  destruct (retryLoop_fatal pf cfg fuel credentials (S fuel) 1 ThrowUndefined
              w w2 e ltac:(lia) Hrun Hfatal) as (w' & Hres & Hran).
  change (Z.of_nat 1) with 1 in Hres. rewrite HN in Hres.
  exists w'. split; assumption.
Qed.

(** What the exchange leaves of the state the cache manager works on. *)
Lemma cacheState_after_exchange (c : AwsConfig) (d : Dir) (w w' : World) :
  cacheState c d w -> same_outside_refresher w w' -> cacheState c d w'.
Proof.
  intros ((m & secs & Hf & Hc & Hm) & Hd) (_ & Hf' & Hd' & Hc' & Hm' & _).
  split; [|congruence].
  exists m, secs. repeat split; congruence.
Qed.

(** X23.  A cycle that finds the token due and gets a good response
    refreshes the cache.  When the cache is readable, the token expires
    within [refreshThreshold], at least one attempt is allowed, and the
    endpoint answers the first request with a truthy [accessToken] and a
    non-zero number [expiresIn], then [refreshTokenIfNeeded] makes exactly
    one request, writes the cache file with mode 0600 and with the new
    access token, the new expiry (the time at which the reply is there,
    that is the time of the request plus the time the request took, plus
    [expiresIn] seconds, in ISO form) and the new refresh token if the
    response had one
    (the old one otherwise), keeps every other field of the record, sends
    the success notification and resets the failure counter to zero. *)
Theorem due_token_is_refreshed_and_written (w w1 : World) (rec a : json)
    (s iso : string) (t n : Z) (fs : list (string * json)) :
  isShuttingDown w = false ->
  1 <= maxRetryAttempts cfg ->
  readTokenCache pf cfg w = (Ok rec, w1) ->
  prop rec "expiresAt" = Some (JStr s) -> Date_parse pf s = Some t ->
  t - clock w <= refreshThreshold cfg ->
  oidc w (requests w) = Resolved (Some (JObj fs)) ->
  Obj.lookup "accessToken" fs = Some a -> truthy (Some a) = true ->
  Obj.lookup "expiresIn" fs = Some (JNum n) -> n <> 0 ->
  Date_toISOString pf (Z.max (clock w) (lastRequestTime w + 5000)
                       + latency w (requests w) + n * 1000)
  = Some iso ->
  exists w' d d' p old rec',
    refreshTokenIfNeeded pf cfg w = (Ok tt, w')
    /\ requests w' = S (requests w)
    /\ consecutiveFailures w' = 0
    /\ cacheDir w = Some d /\ cacheDir w' = Some d'
    /\ dir_lookup p d = Some old /\ text old = JsonText rec
    /\ dir_lookup p d' = Some {| text := JsonText rec'; mode := 384 |}
    /\ prop rec' "accessToken" = Some a
    /\ prop rec' "expiresAt" = Some (JStr iso)
    /\ prop rec' "refreshToken"
       = (if truthy (Obj.lookup "refreshToken" fs)
          then Obj.lookup "refreshToken" fs
          else prop rec "refreshToken")
    /\ (forall k, k <> "accessToken" -> k <> "expiresAt" -> k <> "refreshToken" ->
                  prop rec' k = prop rec k)
    /\ In (EvNotify (NotifySuccess iso (Some (JNum n)))) (events w').
Proof.
  intros Hrun Hmax Hread Hs Ht Hdue Hreply Ha Hta He Hn Hiso.
  destruct (readTokenCache_ok pf cfg w w1 rec Hread)
    as ((c & url & d & p & f & Hst & Hurl & Hres & Hf & Htxt & Hd)
        & Huse & Hout & Hoidc & _).
  destruct (outside_components w1 w Hout) as (Hc & Hr & Hd0 & Hl & Hcf).
  pose proof (kp_readTokenCache pf cfg latency
                ltac:(intros ? ?; reflexivity) ltac:(intros ? ? ?; reflexivity)
                _ _ _ Hread) as Hlat.
  rewrite (refreshTokenIfNeeded_running pf cfg w Hrun). unfold try_catch.
  rewrite (cycleBody_due pf cfg w w1 rec s t Hread Hs Ht Hdue).
  set (w3 := with_events (events w1 ++ dueEvents (t - clock w)) w1).
  set (tokens := {| tk_accessToken := Obj.lookup "accessToken" fs;
                    tk_refreshToken :=
                      if truthy (Obj.lookup "refreshToken" fs)
                      then Obj.lookup "refreshToken" fs
                      else prop rec "refreshToken";
                    tk_expiresAt := iso;
                    tk_expiresIn := Some (JNum n) |}).
  assert (Hattempt : refreshToken pf cfg (credentialsOf rec) w3
                     = (Ok tokens, afterAttempt pf cfg (credentialsOf rec) w3)).
  { rewrite (refreshToken_effect pf cfg (credentialsOf rec) w3). f_equal.
    unfold attemptResult, responseTime, requestTime, w3.
    cbn [oidc requests clock lastRequestTime latency with_events].
    rewrite Hoidc, Hlat, Hr, Hc, Hl, Hreply. cbn [prop].
    rewrite Ha, He, Hta. cbn [truthy negb orb].
    replace (n =? 0) with false by (symmetry; apply Z.eqb_neq; exact Hn).
    cbn [negb]. rewrite (expiryDate_number pf).
    change MIN_REQUEST_INTERVAL_MS with 5000.
    rewrite Hiso. rewrite <- Ha. reflexivity. }
  destruct (refreshTokenWithRetry_first_success (credentialsOf rec) w3 _ tokens
              Hmax Hattempt) as (w4 & Hretry & Hreq & _ & Hsame).
  rewrite (bind_ok _ _ _ _ _ Hretry).
  assert (Hst4 : cacheState c d w4).
  { apply (cacheState_after_exchange c d w3 w4); [|exact Hsame]. exact Hst. }
  destruct (tokens_json_props tokens) as (Hnt & Hpa & Hpe & Hpr).
  destruct (writeTokenCache_run pf cfg c d url p f rec (tokens_json tokens) w4
              Hst4 Hurl Hres Hf Htxt Hnt) as (l' & Hwrite).
  unfold afterExchange. rewrite (bind_ok _ _ _ _ _ Hwrite).
  unfold_monad. cbn.
  destruct (usable_object pf rec Huse) as (fs0 & Hrec).
  pose proof (mergeTokens_fields fs0 a (JStr iso) (tk_refreshToken tokens))
    as Hfields. cbv zeta in Hfields.
  assert (Hmerged : merged (JObj fs0) (tokens_json tokens)
                    = mergeTokens (JObj fs0) (Some a) (Some (JStr iso))
                        (tk_refreshToken tokens)).
  { unfold merged. rewrite Hpa, Hpe, Hpr. cbn [tk_accessToken tk_expiresAt tokens].
    rewrite Ha. reflexivity. }
  rewrite <- Hmerged in Hfields. rewrite <- Hrec in Hfields.
  destruct Hfields as (Hfa & Hfe & Hfr & Hfo).
  eexists. exists d, (written pf p (JsonText (merged rec (tokens_json tokens))) d),
    p, f, (merged rec (tokens_json tokens)).
  split; [reflexivity|]. cbn.
  split; [rewrite Hreq; unfold w3; cbn; rewrite Hr; lia|].
  split; [reflexivity|]. split; [congruence|]. split; [reflexivity|].
  split; [exact Hf|]. split; [exact Htxt|].
  split; [apply written_lookup|].
  split; [exact Hfa|]. split; [exact Hfe|].
  split.
  - rewrite Hfr. cbn [tk_refreshToken tokens].
    assert (Hold : Obj.lookup "refreshToken" fs0 = prop rec "refreshToken")
      by (rewrite Hrec; reflexivity).
    rewrite Hold.
    destruct (truthy (Obj.lookup "refreshToken" fs)) eqn:Hnew.
    + rewrite Hnew. reflexivity.
    + destruct (truthy (prop rec "refreshToken")); reflexivity.
  - split.
    + intros k H1 H2 H3. rewrite (Hfo k H1 H2 H3). rewrite Hrec. reflexivity.
    + apply in_or_app. left. apply in_or_app. right. left. reflexivity.
Qed.

Lemma invalid_grant_is_fatal :
  fatal (Error_ (getReloginErrorMessage cfg "Refresh token is invalid or expired"))
  /\ Str.includes (getReloginErrorMessage cfg "Refresh token is invalid or expired")
       "invalid or expired" = true.
Proof.
  assert (Hinc : forall rest,
             Str.includes ("Refresh token is invalid or expired" ++ rest)
               "invalid or expired" = true).
  { intros rest. apply includes_app_l. reflexivity. }
  split; [|apply Hinc].
  unfold fatal, isNonRetryable. cbn [err_message Error_].
  unfold getReloginErrorMessage. rewrite toLowerCase_app.
  unfold nonRetryableErrors. cbn [existsb].
  match goal with
  | |- context [Str.includes ?m (Str.toLowerCase "invalid or expired")] =>
      assert (H : Str.includes m (Str.toLowerCase "invalid or expired") = true)
        by (apply includes_app_l; reflexivity);
      rewrite H; destruct (Str.includes m (Str.toLowerCase "invalid_grant"))
  end; reflexivity.
Qed.

(** X24.  A cycle whose exchange is answered [400 invalid_grant] asks for
    a new login.  When the cache is readable, the token is due, at least one
    attempt is allowed and the endpoint answers the first request with HTTP
    400 and the error [invalid_grant], then [refreshTokenIfNeeded] returns
    normally after exactly one request and no back-off wait, leaves the cache
    directory as it was, adds one to the failure counter, and ends by logging
    the failure, sending the re-login notification, logging the login command
    and, if the counter has reached 5, the warning. *)
Theorem invalid_grant_cycle_asks_for_login (w w1 : World) (rec : json)
    (s : string) (t : Z) (e : JsError) (fs : list (string * json)) :
  isShuttingDown w = false ->
  1 <= maxRetryAttempts cfg ->
  readTokenCache pf cfg w = (Ok rec, w1) ->
  prop rec "expiresAt" = Some (JStr s) -> Date_parse pf s = Some t ->
  t - clock w <= refreshThreshold cfg ->
  oidc w (requests w) = Rejected e ->
  notCanceled e ->
  err_response e = Some {| status := 400; data := Some (JObj fs) |} ->
  Obj.lookup "error" fs = Some (JStr "invalid_grant") ->
  exists w' l,
    refreshTokenIfNeeded pf cfg w = (Ok tt, w')
    /\ requests w' = S (requests w)
    /\ cacheDir w' = cacheDir w
    /\ consecutiveFailures w' = consecutiveFailures w + 1
    /\ events w'
       = (events w ++ l
          ++ [EvLog LFailure ("Token refresh failed ("
                                ++ Str.of_Z (consecutiveFailures w + 1) ++ "/5)");
              EvNotify NotifyReloginRequired;
              EvLog LError ("Refresh token is no longer valid" ++ Str.nl
                              ++ "Please run: aws sso login --profile "
                              ++ awsSsoProfile cfg)]
          ++ (if consecutiveFailures w + 1 =? 5
              then [EvLog LWarning
                      (Str.warningSign ++ "  5 consecutive failures detected. "
                         ++ "Consider checking your configuration and network connection.")]
              else []))%list
    /\ backoffs l = [].
Proof.
  intros Hrun Hmax Hread Hs Ht Hdue Hreply (Hname & Hcode) Hresp Herr.
  destruct (readTokenCache_ok pf cfg w w1 rec Hread)
    as (_ & _ & Hout & Hoidc & lr & Hevr & Hlogr).
  destruct (outside_components w1 w Hout) as (Hc & Hr & Hd & Hl & Hcf).
  destruct invalid_grant_is_fatal as (Hfatal & Hinc).
  set (err := Error_ (getReloginErrorMessage cfg
                        "Refresh token is invalid or expired")) in *.
  pose proof (cycleBody_due pf cfg w w1 rec s t Hread Hs Ht Hdue) as Hbody.
  set (w3 := with_events (events w1 ++ dueEvents (t - clock w)) w1) in *.
  assert (Hattempt : refreshToken pf cfg (credentialsOf rec) w3
                     = (Throw (ThrowErr err),
                        afterAttempt pf cfg (credentialsOf rec) w3)).
  { rewrite (refreshToken_effect pf cfg (credentialsOf rec) w3). f_equal.
    unfold attemptResult, w3. cbn [oidc requests with_events].
    rewrite Hoidc, Hr, Hreply. cbn [outcome_of]. do 2 f_equal.
    unfold refreshError. rewrite Hname, Hcode, Hresp.
    cbn [orb status data prop]. rewrite Herr.
    reflexivity. }
  destruct (refreshTokenWithRetry_first_fatal (credentialsOf rec) w3 _ err
              Hmax Hattempt Hfatal)
    as (w4 & Hretry & Hreq & (l4 & Hev4 & Hb4) & Hsame).
  rewrite (bind_throw _ _ _ _ _ Hretry) in Hbody.
  rewrite (refreshTokenIfNeeded_running pf cfg w Hrun). unfold try_catch.
  rewrite Hbody, onCycleError_run.
  pose proof (rk_cycleBody pf cfg w _ w4 Hbody) as Hcf4. cbn in Hcf4.
  destruct Hsame as (_ & _ & Hd4 & _).
  unfold cycleFailureEvents. cbn [err_message err Error_].
  rewrite Hinc. cbn [orb].
  eexists. exists (lr ++ dueEvents (t - clock w) ++ l4)%list.
  split; [reflexivity|]. cbn.
  split; [rewrite Hreq; unfold w3; cbn; rewrite Hr; lia|].
  split; [rewrite Hd4; unfold w3; cbn; exact Hd|].
  split; [rewrite Hcf4; reflexivity|].
  split.
  - rewrite Hev4, Hcf4. unfold w3. cbn [events with_events]. rewrite Hevr.
    change MAX_CONSECUTIVE_FAILURES with 5.
    unfold dueEvents. cbn [app]. rewrite <- ?app_assoc. cbn [app].
    rewrite <- ?app_assoc. reflexivity.
  - assert (Hlr : backoffs lr = []).
    { clear - Hlogr. induction lr as [|ev lr IH]; [reflexivity|].
      cbn in Hlogr. apply andb_true_iff in Hlogr. destruct Hlogr as (H1 & H2).
      destruct ev; try discriminate H1. cbn. auto. }
    rewrite backoffs_app, Hlr. unfold dueEvents. cbn [app backoffs].
    rewrite backoffs_app, Hb4.
    destruct (round_minutes (t - clock w) <=? 10); reflexivity.
Qed.

End CycleExchange.

(** X23 at the sample: the token is due and the endpoint answers well. *)
Lemma due_token_is_refreshed_and_written_witness :
  let w := Sample.world Sample.in4min (fun _ => Sample.okReply) 2 in
  let rec := Sample.cacheRecord Sample.in4min in
  let fs := [("accessToken", JStr "new-access-token");
             ("refreshToken", JStr "new-refresh-token");
             ("expiresIn", JNum 3600)] in
  exists w' d d' p old rec',
    refreshTokenIfNeeded Sample.platform Sample.config w = (Ok tt, w')
    /\ requests w' = S (requests w)
    /\ consecutiveFailures w' = 0
    /\ cacheDir w = Some d /\ cacheDir w' = Some d'
    /\ dir_lookup p d = Some old /\ text old = JsonText rec
    /\ dir_lookup p d' = Some {| text := JsonText rec'; mode := 384 |}
    /\ prop rec' "accessToken" = Some (JStr "new-access-token")
    /\ prop rec' "expiresAt" = Some (JStr "2026-01-27T09:00:00.250Z")
    /\ prop rec' "refreshToken"
       = (if truthy (Obj.lookup "refreshToken" fs)
          then Obj.lookup "refreshToken" fs
          else prop rec "refreshToken")
    /\ (forall k, k <> "accessToken" -> k <> "expiresAt" -> k <> "refreshToken" ->
                  prop rec' k = prop rec k)
    /\ In (EvNotify (NotifySuccess "2026-01-27T09:00:00.250Z" (Some (JNum 3600))))
         (events w').
Proof.
  apply (due_token_is_refreshed_and_written Sample.platform Sample.config
           (Sample.world Sample.in4min (fun _ => Sample.okReply) 2)
           (snd (readTokenCache Sample.platform Sample.config
                   (Sample.world Sample.in4min (fun _ => Sample.okReply) 2)))
           (Sample.cacheRecord Sample.in4min) (JStr "new-access-token")
           Sample.in4min "2026-01-27T09:00:00.250Z" 1769501040000 3600
           [("accessToken", JStr "new-access-token");
            ("refreshToken", JStr "new-refresh-token");
            ("expiresIn", JNum 3600)]).
  - reflexivity.
  - vm_compute. discriminate.
  - vm_compute. reflexivity.
  - reflexivity.
  - vm_compute. reflexivity.
  - vm_compute. discriminate.
  - reflexivity.
  - reflexivity.
  - reflexivity.
  - reflexivity.
  - lia.
  - vm_compute. reflexivity.
Defined.

(** X24 at the sample: the endpoint answers [400 invalid_grant]. *)
Definition sample_invalidGrantResponse : JsError :=
  {| err_name := "AxiosError";
     err_message := "Request failed with status code 400";
     err_code := Some "ERR_BAD_REQUEST";
     err_response :=
       Some {| status := 400;
               data := Some (JObj [("error", JStr "invalid_grant");
                                   ("error_description", JStr "Token expired")]) |} |}.

Lemma invalid_grant_cycle_asks_for_login_witness :
  let w := Sample.world Sample.in4min
             (fun _ => Rejected sample_invalidGrantResponse) 4 in
  exists w' l,
    refreshTokenIfNeeded Sample.platform Sample.config w = (Ok tt, w')
    /\ requests w' = S (requests w)
    /\ cacheDir w' = cacheDir w
    /\ consecutiveFailures w' = consecutiveFailures w + 1
    /\ events w'
       = (events w ++ l
          ++ [EvLog LFailure ("Token refresh failed ("
                                ++ Str.of_Z (consecutiveFailures w + 1) ++ "/5)");
              EvNotify NotifyReloginRequired;
              EvLog LError ("Refresh token is no longer valid" ++ Str.nl
                              ++ "Please run: aws sso login --profile "
                              ++ awsSsoProfile Sample.config)]
          ++ (if consecutiveFailures w + 1 =? 5
              then [EvLog LWarning
                      (Str.warningSign ++ "  5 consecutive failures detected. "
                         ++ "Consider checking your configuration and network connection.")]
              else []))%list
    /\ backoffs l = [].
Proof.
  apply (invalid_grant_cycle_asks_for_login Sample.platform Sample.config
           (Sample.world Sample.in4min
              (fun _ => Rejected sample_invalidGrantResponse) 4)
           (snd (readTokenCache Sample.platform Sample.config
                   (Sample.world Sample.in4min
                      (fun _ => Rejected sample_invalidGrantResponse) 4)))
           (Sample.cacheRecord Sample.in4min)
           Sample.in4min 1769501040000 sample_invalidGrantResponse
           [("error", JStr "invalid_grant");
            ("error_description", JStr "Token expired")]).
  - reflexivity.
  - vm_compute. discriminate.
  - vm_compute. reflexivity.
  - reflexivity.
  - vm_compute. reflexivity.
  - vm_compute. discriminate.
  - reflexivity.
  - split; reflexivity.
  - reflexivity.
  - reflexivity.
Defined.

Section CycleEdges.

Variable pf : Platform.
Variable cfg : Config.

(** X25.  A cycle that cannot read the cache goes no further: when
    [readTokenCache] throws, [refreshTokenIfNeeded] makes no request, leaves
    the cache directory as it was, adds one to the failure counter and
    reports the error of the read: the re-login notification if its message
    contains [invalid or expired] or [invalid_grant], and otherwise the
    error notification with the message.  Before the report the cycle has
    only logged. *)
Theorem unreadable_cache_cycle_makes_no_request (w w1 : World) (e : JsError) :
  isShuttingDown w = false ->
  readTokenCache pf cfg w = (Throw (ThrowErr e), w1) ->
  exists w' l,
    refreshTokenIfNeeded pf cfg w = (Ok tt, w')
    /\ requests w' = requests w
    /\ cacheDir w' = cacheDir w
    /\ lastRequestTime w' = lastRequestTime w
    /\ consecutiveFailures w' = consecutiveFailures w + 1
    /\ Forall (fun ev => exists m x, ev = EvLog m x) l
    /\ events w'
       = (events w ++ l
          ++ [EvLog LFailure ("Token refresh failed ("
                                ++ Str.of_Z (consecutiveFailures w + 1) ++ "/5)")]
          ++ (if Str.includes (err_message e) "invalid or expired"
                 || Str.includes (err_message e) "invalid_grant"
              then [EvNotify NotifyReloginRequired;
                    EvLog LError ("Refresh token is no longer valid" ++ Str.nl
                                    ++ "Please run: aws sso login --profile "
                                    ++ awsSsoProfile cfg)]
              else [EvNotify (NotifyError (err_message e))])
          ++ (if consecutiveFailures w + 1 =? 5
              then [EvLog LWarning
                      (Str.warningSign ++ "  5 consecutive failures detected. "
                         ++ "Consider checking your configuration and network connection.")]
              else []))%list.
Proof.
  intros Hrun Hread.
  pose proof (kp_readTokenCache pf cfg outsideLogAndConfigCache
                ltac:(intros ? ?; reflexivity) ltac:(intros ? ? ?; reflexivity)
                _ _ _ Hread) as Hout.
  destruct (outside_components w1 w Hout) as (Hc & Hr & Hd & Hl & Hcf).
  destruct (eo_readTokenCache pf cfg _ _ _ Hread) as (l & Hev & Hlog).
  rewrite (refreshTokenIfNeeded_running pf cfg w Hrun). unfold try_catch.
  unfold cycleBody. rewrite (bind_throw _ _ _ _ _ Hread).
  rewrite onCycleError_run. unfold cycleFailureEvents.
  eexists. exists l. split; [reflexivity|]. cbn.
  split; [exact Hr|]. split; [exact Hd|]. split; [exact Hl|].
  split; [rewrite Hcf; reflexivity|].
  split.
  - rewrite forallb_forall in Hlog. apply Forall_forall.
    intros ev Hin. specialize (Hlog ev Hin). destruct ev; try discriminate. eauto.
  - rewrite Hev, Hcf. change MAX_CONSECUTIVE_FAILURES with 5.
    rewrite <- !app_assoc. reflexivity.
Qed.

Lemma startMonitoring_returns (w : World) :
  exists w', startMonitoring pf cfg w = (Ok tt, w') /\ monitorInterval w' = true.
Proof.
  unfold startMonitoring.
  unfold bind at 1. unfold log at 1, emit, modify.
  unfold bind at 1. unfold log at 1, emit, modify.
  unfold bind at 1. unfold log at 1, emit, modify.
  unfold bind at 1.
  match goal with
  | |- context [try_catch _ _ ?w0] =>
      destruct (guarded_cycle_returns pf cfg w0 "Initial token check failed")
        as (w1 & Hrun & _)
  end.
  rewrite Hrun. unfold_monad. cbn.
  eexists. split; reflexivity.
Qed.

(** X26.  [main] either starts the daemon or ends the process with code 1,
    and the configuration alone decides which.  With a configuration that
    [validateConfig] accepts it always leaves the daemon running with the
    timer armed, whatever the state of the cache and of the network.  With
    any other configuration it logs the failure, sends the error
    notification [Failed to start: ] followed by the message of
    [validateConfig], and ends with code 1 without reading the cache, making
    a request or arming the timer. *)
Theorem main_starts_or_exits_on_configuration (w : World) :
  (validConfig cfg ->
   exists w', main pf cfg w = (Ok None, w') /\ monitorInterval w' = true)
  /\ (~ validConfig cfg ->
      exists err,
        validateConfig cfg w = (Throw (ThrowErr err), w)
        /\ main pf cfg w
           = (Ok (Some 1),
              with_events
                (events w
                 ++ [EvLog LFailure "Failed to start daemon";
                     EvNotify (NotifyError ("Failed to start: "
                                              ++ err_message err))]) w)).
Proof.
  split.
  - intros Hvalid.
    assert (Hv : validateConfig cfg w = (Ok tt, w)).
    { apply validateConfig_errors_nil in Hvalid. unfold validateConfig.
      rewrite Hvalid. reflexivity. }
    destruct (startMonitoring_returns w) as (w' & Hs & Hm).
    exists w'. split; [|exact Hm].
    unfold main, try_catch. rewrite (bind_ok _ _ _ _ _ Hv).
    rewrite (bind_ok _ _ _ _ _ Hs). reflexivity.
  - intros Hbad.
    destruct (validateConfig_errors cfg) as [|c errors] eqn:He.
    + exfalso. apply Hbad. apply validateConfig_errors_nil. exact He.
    + destruct (validateConfig_message cfg w c errors He) as (err & Hv & _).
      exists err. split; [exact Hv|].
      unfold main, try_catch. rewrite (bind_throw _ _ _ _ _ Hv).
      unfold message_of. unfold_monad. cbn.
      rewrite <- app_assoc. reflexivity.
Qed.

End CycleEdges.

(** X25 at the sample with an empty cache directory. *)
Definition sample_emptyCacheRead : Outcome json * World :=
  readTokenCache Sample.platform Sample.config (sample_withCache (Some [])).

Definition sample_cacheMissing : JsError :=
  Error_ ("Cache file not found: /home/user/.aws/sso/cache/"
            ++ "684a1a38341aa20aca5f8b07017b80d1538697d9.json" ++ Str.nl
            ++ "No cache file in /home/user/.aws/sso/cache matches startUrl: "
            ++ Sample.startUrl ++ Str.nl
            ++ "Please run: aws sso login --profile test-profile").

Lemma unreadable_cache_cycle_makes_no_request_witness :
  let w := sample_withCache (Some []) in
  let e := sample_cacheMissing in
  exists w' l,
    refreshTokenIfNeeded Sample.platform Sample.config w = (Ok tt, w')
    /\ requests w' = requests w
    /\ cacheDir w' = cacheDir w
    /\ lastRequestTime w' = lastRequestTime w
    /\ consecutiveFailures w' = consecutiveFailures w + 1
    /\ Forall (fun ev => exists m x, ev = EvLog m x) l
    /\ events w'
       = (events w ++ l
          ++ [EvLog LFailure ("Token refresh failed ("
                                ++ Str.of_Z (consecutiveFailures w + 1) ++ "/5)")]
          ++ (if Str.includes (err_message e) "invalid or expired"
                 || Str.includes (err_message e) "invalid_grant"
              then [EvNotify NotifyReloginRequired;
                    EvLog LError ("Refresh token is no longer valid" ++ Str.nl
                                    ++ "Please run: aws sso login --profile "
                                    ++ awsSsoProfile Sample.config)]
              else [EvNotify (NotifyError (err_message e))])
          ++ (if consecutiveFailures w + 1 =? 5
              then [EvLog LWarning
                      (Str.warningSign ++ "  5 consecutive failures detected. "
                         ++ "Consider checking your configuration and network connection.")]
              else []))%list.
Proof.
  apply (unreadable_cache_cycle_makes_no_request Sample.platform Sample.config
           (sample_withCache (Some [])) (snd sample_emptyCacheRead)
           sample_cacheMissing).
  - reflexivity.
  - vm_compute. reflexivity.
Defined.
